(** * Iterative-deepening search: the three search scripts, embedded and verified

    The repository holds three Python scripts, each with its own copy of the
    same search engine (Problem, Node, expand, depth_limited_search,
    iterative_deepening_search) and one adapter:

    - [element_search.py]      binary tree of users, look a value up;
    - [file_system_search.py]  tree of directories, path to a file;
    - [rights_search.py]       live file system, collect files by mode.

    Modelling conventions.
    - Python integers are unbounded: depths and limits are [nat], values and
      modes are [Z].  [path_cost] starts at the float [0.0] and only ever has
      the integer cost [1] added to it, so it is kept as a [Z].
    - [Node.__len__] and [path_states] recurse along the parent chain, and
      the interpreter refuses a call once its recursion limit is reached.
      Each script is embedded twice.  The first embedding leaves the limit
      out: [len] is total, and a pass says what a run does as long as no call
      of [__len__] is refused.  It carries what holds of every state a run
      reaches and of every value a run returns.  The second embedding (the
      modules [Limited...]) takes the number of nested calls still allowed
      as a parameter [frames] and ends in RecursionError where the script
      does.  What is said about a run returning, or not, is said there.
    - The while loops of the passes are run with fuel: [None] means that the
      fuel ran out, never a Python value.
    - [sys.maxsize] is platform dependent ([2^63-1] on 64-bit builds) and is
      a parameter [maxsize] of the drivers.
    - A LIFOQueue is a Python list used from its end; here the head of the
      list is the top of the stack. *)

From Stdlib Require Import ZArith List Lia Bool String.
From stdpp Require Import base list gmap strings.

Set Warnings "-register-all".

(** ** Loops with fuel *)

Section While.
Context {St Res : Type}.
Variable body : St → St + Res.

(** [while fuel s]: run the loop body from [s] until it returns. *)
Fixpoint while (fuel : nat) (s : St) : option Res :=
  match fuel with
  | O => None
  | S fuel' =>
      match body s with
      | inl s' => while fuel' s'
      | inr r => Some r
      end
  end.

(** [iterate k s]: what the loop has reached after [k] iterations, the
    state it is in or the value it has returned. *)
Fixpoint iterate (k : nat) (s : St) : St + Res :=
  match k with
  | O => inl s
  | S k' =>
      match body s with
      | inl s' => iterate k' s'
      | inr r => inr r
      end
  end.
End While.

(** ** The engine shared by the three scripts *)

Section Engine.
Context {State Action : Type}.

(** class Problem: the abstract methods and the overridable defaults are
    fields; [h] is never called by the searches. *)
Record Problem := mkProblem {
  initial : State;
  actions : State → list Action;
  result : State → Action → State;
  is_goal : State → bool;
  action_cost : State → Action → State → Z
}.

(** class Node *)
Inductive Node := mkNode {
  state : State;
  parent : option Node;
  action : option Action;
  path_cost : Z
}.

(** Node.__len__ *)
Fixpoint len (n : Node) : nat :=
  match parent n with
  | None => 0
  | Some p => S (len p)
  end.

(** The value a pass hands back: a real node, or one of the two module
    level sentinels [failure] and [cutoff].  Node defines no [__eq__], so
    [result != cutoff] compares identities and no real node is ever taken
    for a sentinel. *)
Inductive Outcome :=
| Found (node : Node)
| failure
| cutoff.

Definition is_cutoff (o : Outcome) : bool :=
  match o with cutoff => true | _ => false end.

(** expand: the generator is always consumed to its end by the caller's
    [for], so it is the list of the nodes it yields, in order. *)
Definition expand (problem : Problem) (node : Node) : list Node :=
  let s := state node in
  map (λ a,
         let s_next := result problem s a in
         mkNode s_next (Some node) (Some a)
                (path_cost node + action_cost problem s a s_next)%Z)
      (actions problem s).

(** class LIFOQueue(list): a list and nothing more. *)
Local Abbreviation LIFOQueue := (list Node).

Definition append (frontier : LIFOQueue) (child : Node) : LIFOQueue :=
  child :: frontier.

(** [for child in expand(problem, node): frontier.append(child)] *)
Definition append_all (children : list Node) (frontier : LIFOQueue) : LIFOQueue :=
  fold_left append children frontier.

(** What the single-goal driver hands back: the result of a pass, or
    Python's [None] when the [for] over the range runs to its end. *)
Inductive Answer :=
| Returned (o : Outcome)
| RangeExhausted.

(** [for limit in range(limit, limit + count)]: run a pass and return its
    result unless it is [cutoff].  The drivers of element_search.py and
    file_system_search.py are this loop over their own pass. *)
Fixpoint for_limits (pass : nat → option Outcome) (count limit : nat)
  : option Answer :=
  match count with
  | O => Some RangeExhausted
  | S count' =>
      match pass limit with
      | None => None
      | Some cutoff => for_limits pass count' (S limit)
      | Some r => Some (Returned r)
      end
  end.
End Engine.

Arguments Problem : clear implicits.
Arguments Node : clear implicits.
Arguments Outcome : clear implicits.
Arguments Answer : clear implicits.

Abbreviation LIFOQueue State Action := (list (Node State Action)).

(** ** element_search.py *)

Module ElementSearch.

Section Search.
Context {State Action : Type}.
Variable problem : Problem State Action.
Variable limit : nat.

(** One turn of [while frontier:].  The children are pushed whatever the
    depth of the node is: the [if] on the depth has no [else]. *)
Definition dls_body (st : LIFOQueue State Action * Outcome State Action)
  : LIFOQueue State Action * Outcome State Action + Outcome State Action :=
  let '(frontier, res) := st in
  match frontier with
  | [] => inr res
  | node :: frontier =>
      if is_goal problem (state node) then inr (Found node)
      else
        let res := if limit <=? len node then cutoff else res in
        inl (append_all (expand problem node) frontier, res)
  end.
End Search.

Definition depth_limited_search {State Action} (fuel : nat)
    (problem : Problem State Action) (limit : nat) : option (Outcome State Action) :=
  while (dls_body problem limit) fuel
        ([mkNode (initial problem) None None 0], failure).

(** [for limit in range(1, sys.maxsize)] *)
Definition iterative_deepening_search {State Action} (maxsize fuel : nat)
    (problem : Problem State Action) : option (Answer State Action) :=
  for_limits (depth_limited_search fuel problem) (maxsize - 1) 1.

(** class BinaryTreeNode *)
Inductive BinaryTreeNode := mkBinaryTreeNode {
  value : Z;
  left : option BinaryTreeNode;
  right : option BinaryTreeNode
}.

(** class UserSearchProblem(Problem), with the inherited is_goal and
    action_cost.  A BinaryTreeNode has neither [__bool__] nor [__len__]:
    [if state.left] is true exactly when the child is not [None]. *)
Definition UserSearchProblem (initial : BinaryTreeNode) (goal : Z)
  : Problem BinaryTreeNode BinaryTreeNode :=
  {| initial := initial;
     actions := λ state,
       let moves := [] in
       let moves := match left state with Some l => moves ++ [l] | None => moves end in
       let moves := match right state with Some r => moves ++ [r] | None => moves end in
       moves;
     result := λ state action, action;
     is_goal := λ state, (value state =? goal)%Z;
     action_cost := λ s a s1, 1%Z |}.

(** The tree built by main. *)
Definition leaf (v : Z) : BinaryTreeNode := mkBinaryTreeNode v None None.

Definition main_root : BinaryTreeNode :=
  let left_left := mkBinaryTreeNode 6 (Some (leaf 8)) None in
  let left_right := leaf 7 in
  let left_child := mkBinaryTreeNode 2 (Some left_left) (Some left_right) in
  let right_left := mkBinaryTreeNode 9 None (Some (leaf 4)) in
  let right_right := leaf 5 in
  let right_child := mkBinaryTreeNode 3 (Some right_left) (Some right_right) in
  mkBinaryTreeNode 1 (Some left_child) (Some right_child).

End ElementSearch.

(** ** file_system_search.py *)

Module FileSystemSearch.

Section Search.
Context {State Action : Type}.
Variable problem : Problem State Action.
Variable limit : nat.

(** One turn of [while frontier:]; here the expansion is the [else] branch
    of the test on the depth. *)
Definition dls_body (st : LIFOQueue State Action * Outcome State Action)
  : LIFOQueue State Action * Outcome State Action + Outcome State Action :=
  let '(frontier, res) := st in
  match frontier with
  | [] => inr res
  | node :: frontier =>
      if is_goal problem (state node) then inr (Found node)
      else if limit <=? len node then inl (frontier, cutoff)
      else inl (append_all (expand problem node) frontier, res)
  end.
End Search.

Definition depth_limited_search {State Action} (fuel : nat)
    (problem : Problem State Action) (limit : nat) : option (Outcome State Action) :=
  while (dls_body problem limit) fuel
        ([mkNode (initial problem) None None 0], failure).

(** [for limit in range(1, sys.maxsize)] *)
Definition iterative_deepening_search {State Action} (maxsize fuel : nat)
    (problem : Problem State Action) : option (Answer State Action) :=
  for_limits (depth_limited_search fuel problem) (maxsize - 1) 1.

(** class TreeNode; add_child and add_children only build the tree before
    the search starts. *)
Inductive TreeNode := mkTreeNode {
  value : string;
  children : list TreeNode
}.

(** path_states *)
Fixpoint path_states {Action} (node : Node TreeNode Action) : list string :=
  match parent node with
  | None => [value (state node)]
  | Some p => path_states p ++ [value (state node)]
  end.

(** class FileSearchProblem(Problem) *)
Definition FileSearchProblem (initial : TreeNode) (goal : string)
  : Problem TreeNode TreeNode :=
  {| initial := initial;
     actions := λ state, children state;
     result := λ state action, action;
     is_goal := λ state, String.eqb (value state) goal;
     action_cost := λ s a s1, 1%Z |}.

(** The tree built by main. *)
Definition main_root : TreeNode :=
  let file_a := mkTreeNode "file_a" [] in
  let file_b := mkTreeNode "file_b" [] in
  let file_c := mkTreeNode "file_c" [] in
  let file_d := mkTreeNode "file_d" [] in
  let subdir_3 := mkTreeNode "subdir_3" [file_b; file_d] in
  let subdir_1 := mkTreeNode "subdir_1" [file_a; subdir_3] in
  let subdir_2 := mkTreeNode "subdir_2" [file_c] in
  mkTreeNode "root" [subdir_1; subdir_2].

End FileSystemSearch.

(** ** rights_search.py *)

Module RightsSearch.

(** class FSNode *)
Record FSNode := mkFSNode { path : string }.

Section Search.
Context {Action : Type}.
Variable problem : Problem FSNode Action.
Variable limit : nat.

(** One turn of [while frontier:].  [found_files] is the caller's list,
    appended to in place; the loop state carries its contents. *)
Definition dls_body
    (st : LIFOQueue FSNode Action * Outcome FSNode Action * list string)
  : LIFOQueue FSNode Action * Outcome FSNode Action * list string
    + Outcome FSNode Action * list string :=
  let '(frontier, res, found_files) := st in
  match frontier with
  | [] => inr (res, found_files)
  | node :: frontier =>
      let depth := len node in
      let hit := (3 <=? depth) && is_goal problem (state node) in
      let found_files :=
        if hit then found_files ++ [path (state node)] else found_files in
      if hit && (10 <=? length found_files) then inr (Found node, found_files)
      else if limit <=? depth then inl (frontier, cutoff, found_files)
      else inl (append_all (expand problem node) frontier, res, found_files)
  end.
End Search.

(** The pass returns its result; the second component is what the caller's
    list holds afterwards ([found_files=None] starts a list of its own). *)
Definition depth_limited_search {Action} (fuel : nat)
    (problem : Problem FSNode Action) (limit : nat)
    (found_files : option (list string))
  : option (Outcome FSNode Action * list string) :=
  let found_files := default [] found_files in
  while (dls_body problem limit) fuel
        ([mkNode (initial problem) None None 0], failure, found_files).

(** The body of [for limit in range(start_depth, sys.maxsize)].  The driver
    returns nothing; the result is what [found_files] holds when it ends. *)
Fixpoint ids_for {Action} (fuel : nat) (problem : Problem FSNode Action)
    (count limit : nat) (found_files : list string) : option (list string) :=
  match count with
  | O => Some found_files
  | S count' =>
      match depth_limited_search fuel problem limit (Some found_files) with
      | None => None
      | Some (res, found_files) =>
          if 10 <=? length found_files then Some found_files
          else if is_cutoff res then ids_for fuel problem count' (S limit) found_files
          else Some found_files
      end
  end.

Definition iterative_deepening_search {Action} (maxsize fuel : nat)
    (problem : Problem FSNode Action) (start_depth : nat)
    (found_files : list string) : option (list string) :=
  ids_for fuel problem (maxsize - start_depth) start_depth found_files.

(** What the adapter asks of the operating system.  [listdir] is [None]
    when os.listdir raises PermissionError or FileNotFoundError, [st_mode]
    when os.stat raises PermissionError. *)
Record OS := mkOS {
  isdir : string → bool;
  isfile : string → bool;
  listdir : string → option (list string);
  st_mode : string → option Z;
  join : string → string → string
}.

(** class WindowsFileSearchProblem(Problem) *)
Definition WindowsFileSearchProblem (os : OS) (initial : FSNode)
  : Problem FSNode FSNode :=
  {| initial := initial;
     actions := λ state,
       let path := path state in
       if isdir os path then
         match listdir os path with
         | None => []
         | Some items => map (λ item, mkFSNode (join os path item)) items
         end
       else [];
     result := λ state action, action;
     is_goal := λ state,
       let path := path state in
       if isfile os path then
         match st_mode os path with
         | Some mode => (mode =? 33206)%Z
         | None => false
         end
       else false;
     action_cost := λ s a s1, 1%Z |}.

End RightsSearch.

(** ** element_search.py over an explicit object store

    The same script once more, this time with the objects it works on kept
    in a store: every BinaryTreeNode, the Problem and every search Node is
    an object at an address, attribute reads are lookups, and a constructor
    call allocates.  This is the model in which "the search writes to no
    object that already exists" can be said at all. *)

Module ElementSearchStore.

Definition addr := nat.

(** The instances the script creates, with their attributes. *)
Inductive Obj :=
| BinaryTreeNodeObj (value : Z) (left right : option addr)
| ProblemObj (initial : addr) (goal : Z)
| NodeObj (state : addr) (parent : option addr) (action : option addr)
          (path_cost : Z).

Abbreviation Store := (gmap addr Obj).

(** What a pass returns: a reference to a Node, or one of the sentinels
    (module level constants, never written to). *)
Inductive Ref :=
| RefNode (node : addr)
| RefFailure
| RefCutoff.

(** How a run ends: with a value, or with an exception: AttributeError on
    an object of the wrong class, or a parent chain that does not end in
    the store.  The interpreter's recursion limit is left out of this
    model: a run that it stops has gone through the stores of the first
    turns of the run modelled here and written nothing else. *)
Inductive Exit :=
| Return (r : Ref)
| Raise.

(** A constructor call: the new object gets an address not in use. *)
Definition new (o : Obj) (h : Store) : addr * Store :=
  let a := fresh (dom h) in (a, <[a:=o]> h).

(** Node.__len__; [fuel] bounds the walk along the parent chain: with the
    fuel [S (size h)] that its callers give it, a chain that ends is walked
    to its end, however long it is, and only a chain that does not end
    raises. *)
Fixpoint len (fuel : nat) (h : Store) (node : addr) : option nat :=
  match fuel with
  | O => None
  | S fuel' =>
      match h !! node with
      | Some (NodeObj _ None _ _) => Some 0
      | Some (NodeObj _ (Some p) _ _) => S <$> len fuel' h p
      | _ => None
      end
  end.

(** Truth value of an object: a Node has [__len__], the other classes have
    neither [__bool__] nor [__len__]. *)
Definition truth (h : Store) (a : addr) : option bool :=
  match h !! a with
  | Some (NodeObj _ _ _ _) => (λ n, negb (n =? 0)) <$> len (S (size h)) h a
  | Some _ => Some true
  | None => None
  end.

(** [if child: moves.append(child)] *)
Definition append_if (h : Store) (child : option addr) (moves : list addr)
  : option (list addr) :=
  match child with
  | None => Some moves
  | Some c => (λ b : bool, if b then moves ++ [c] else moves) <$> truth h c
  end.

(** UserSearchProblem.actions *)
Definition actions (h : Store) (state : addr) : option (list addr) :=
  match h !! state with
  | Some (BinaryTreeNodeObj _ l r) =>
      moves ← append_if h l [];
      append_if h r moves
  | _ => None
  end.

(** Problem.is_goal: [state.value == self.goal] *)
Definition is_goal (h : Store) (problem state : addr) : option bool :=
  match h !! problem, h !! state with
  | Some (ProblemObj _ goal), Some (BinaryTreeNodeObj v _ _) => Some (v =? goal)%Z
  | _, _ => None
  end.

(** The body of [for child in expand(problem, node): frontier.append(child)]
    for one action: result is the action itself, action_cost is 1. *)
Definition push_child (node : addr) (cost : Z)
    (st : Store * list addr) (action : addr) : Store * list addr :=
  let '(h, frontier) := st in
  let '(child, h) := new (NodeObj action (Some node) (Some action) (cost + 1)) h in
  (h, child :: frontier).

(** One turn of [while frontier:]. *)
Definition dls_body (problem : addr) (limit : nat)
    (st : Store * list addr * Ref)
  : Store * list addr * Ref + Store * Exit :=
  let '(h, frontier, res) := st in
  match frontier with
  | [] => inr (h, Return res)
  | node :: frontier =>
      match h !! node with
      | Some (NodeObj s _ _ cost) =>
          match is_goal h problem s with
          | None => inr (h, Raise)
          | Some true => inr (h, Return (RefNode node))
          | Some false =>
              match len (S (size h)) h node with
              | None => inr (h, Raise)
              | Some depth =>
                  let res := if limit <=? depth then RefCutoff else res in
                  match actions h s with
                  | None => inr (h, Raise)
                  | Some acts =>
                      let '(h, frontier) :=
                        fold_left (push_child node cost) acts (h, frontier) in
                      inl (h, frontier, res)
                  end
              end
          end
      | _ => inr (h, Raise)
      end
  end.

(** depth_limited_search; when the fuel runs out the result is the state
    the loop is in. *)
Definition depth_limited_search (fuel : nat) (h : Store) (problem : addr)
    (limit : nat) : Store * list addr * Ref + Store * Exit :=
  match h !! problem with
  | Some (ProblemObj initial _) =>
      let '(root, h) := new (NodeObj initial None None 0) h in
      iterate (dls_body problem limit) fuel (h, [root], RefFailure)
  | _ => inr (h, Raise)
  end.

(** How the driver ends: with what it returns ([None] is Python's None at
    the end of the range), with an exception, or out of fuel in a pass. *)
Inductive DriverExit :=
| DriverReturn (r : option Ref)
| DriverRaise
| DriverFuel.

Fixpoint for_limits (fuel : nat) (h : Store) (problem : addr)
    (count limit : nat) : Store * DriverExit :=
  match count with
  | O => (h, DriverReturn None)
  | S count' =>
      match depth_limited_search fuel h problem limit with
      | inl (h, _, _) => (h, DriverFuel)
      | inr (h, Raise) => (h, DriverRaise)
      | inr (h, Return RefCutoff) => for_limits fuel h problem count' (S limit)
      | inr (h, Return r) => (h, DriverReturn (Some r))
      end
  end.

Definition iterative_deepening_search (maxsize fuel : nat) (h : Store)
    (problem : addr) : Store * DriverExit :=
  for_limits fuel h problem (maxsize - 1) 1.

End ElementSearchStore.


(** ** The rest of the scripts *)

(** Node.__lt__ (the same in element_search.py and file_system_search.py;
    rights_search.py has none). *)
Definition Node_lt {State Action : Type} (self other : Node State Action) : bool :=
  (path_cost self <? path_cost other)%Z.

(** main of element_search.py, from the call of the driver on. *)
Module ElementSearchMain.

Definition is_None {State Action : Type} (solution_node : Answer State Action) : bool :=
  match solution_node with RangeExhausted => true | _ => false end.

Definition is_failure {State Action : Type} (solution_node : Answer State Action) : bool :=
  match solution_node with Returned failure => true | _ => false end.

Definition is_cutoff {State Action : Type} (solution_node : Answer State Action) : bool :=
  match solution_node with Returned cutoff => true | _ => false end.

(** What main prints for the value the driver has returned. *)
Definition printed {State Action : Type} (solution_node : Answer State Action) : bool :=
  if is_None solution_node || is_failure solution_node then false
  else if is_cutoff solution_node then false
  else true.

(** main, with the tree and the goal it builds as parameters. *)
Definition main_on (maxsize fuel : nat) (root : ElementSearch.BinaryTreeNode)
    (goal : Z) : option bool :=
  let problem := ElementSearch.UserSearchProblem root goal in
  let solution_node :=
    ElementSearch.iterative_deepening_search maxsize fuel problem in
  printed <$> solution_node.

Definition main (maxsize fuel : nat) : option bool :=
  main_on maxsize fuel ElementSearch.main_root 4.

End ElementSearchMain.

(** main of file_system_search.py, from the call of the driver on. *)
Module FileSystemSearchMain.

(** What main prints: ["False"], or the route joined by [" -> "]. *)
Definition printed {Action : Type}
    (solution_node : Answer FileSystemSearch.TreeNode Action) : string :=
  if ElementSearchMain.is_None solution_node
     || ElementSearchMain.is_failure solution_node then "False"
  else if ElementSearchMain.is_cutoff solution_node then "False"
  else
    match solution_node with
    | Returned (Found node) =>
        let route := FileSystemSearch.path_states node in
        String.concat " -> " route
    | _ => "False"
    end.

(** main, with the tree and the goal it builds as parameters. *)
Definition main_on (maxsize fuel : nat) (root : FileSystemSearch.TreeNode)
    (goal : string) : option string :=
  let problem := FileSystemSearch.FileSearchProblem root goal in
  let solution_node :=
    FileSystemSearch.iterative_deepening_search maxsize fuel problem in
  printed <$> solution_node.

Definition main (maxsize fuel : nat) : option string :=
  main_on maxsize fuel FileSystemSearch.main_root "file_d".

End FileSystemSearchMain.

(** main of rights_search.py, from the call of the driver on; [os] is the
    file system it runs on and [root_path] the folder it starts from. *)
Module RightsSearchMain.

(** The lines main prints for what found_files holds in the end. *)
Definition printed (found_files : list string) : list string :=
  match found_files with
  | [] => ["Ничего не найдено."]
  | _ => "Найденные файлы (не более 10):" :: found_files
  end.

Definition main_on (os : RightsSearch.OS) (root_path : string)
    (maxsize fuel : nat) : option (list string) :=
  let start_depth := 3 in
  let problem :=
    RightsSearch.WindowsFileSearchProblem os (RightsSearch.mkFSNode root_path) in
  let found_files := [] in
  printed <$>
    RightsSearch.iterative_deepening_search maxsize fuel problem start_depth
      found_files.

End RightsSearchMain.

(** ** The scripts under the interpreter's recursion limit

    [Node.__len__] and [path_states] call themselves once for every
    ancestor of the node, and the interpreter allows only so many nested
    calls (its recursion limit, 1000 by default, less the calls already on
    the stack).  The embeddings above leave the limit out: they say what a
    run does as long as no call is refused.  The embeddings below are the
    same code with the limit in: [frames] is the number of nested calls of
    [__len__] that the interpreter still allows where a pass calls [len],
    and a call that needs more raises RecursionError, which no script
    catches. *)

(** How a call ends: with a value, or with RecursionError. *)
Inductive Run (A : Type) :=
| Done (a : A)
| RecursionError.

Arguments Done {A} a.
Arguments RecursionError {A}.

Section Limited.
Context {State Action : Type}.

(** Node.__len__ with [frames] nested calls left: the call itself takes
    one, and [len(self.parent)] goes on with the rest. *)
Fixpoint len_within (frames : nat) (n : Node State Action) : Run nat :=
  match frames with
  | O => RecursionError
  | S frames' =>
      match parent n with
      | None => Done 0
      | Some p =>
          match len_within frames' p with
          | Done depth => Done (S depth)
          | RecursionError => RecursionError
          end
      end
  end.

(** [for limit in range(limit, limit + count)], a pass that raises ending
    the driver with it. *)
Fixpoint for_limits_within (pass : nat → option (Run (Outcome State Action)))
    (count limit : nat) : option (Run (Answer State Action)) :=
  match count with
  | O => Some (Done RangeExhausted)
  | S count' =>
      match pass limit with
      | None => None
      | Some RecursionError => Some RecursionError
      | Some (Done cutoff) => for_limits_within pass count' (S limit)
      | Some (Done r) => Some (Done (Returned r))
      end
  end.
End Limited.

(** element_search.py *)
Module LimitedElementSearch.

Section Search.
Context {State Action : Type}.
Variable problem : Problem State Action.
Variable frames limit : nat.

(** One turn of [while frontier:]; [len(node)] is called on a node that
    is no goal. *)
Definition dls_body (st : LIFOQueue State Action * Outcome State Action)
  : LIFOQueue State Action * Outcome State Action + Run (Outcome State Action) :=
  let '(frontier, res) := st in
  match frontier with
  | [] => inr (Done res)
  | node :: frontier =>
      if is_goal problem (state node) then inr (Done (Found node))
      else
        match len_within frames node with
        | RecursionError => inr RecursionError
        | Done depth =>
            let res := if limit <=? depth then cutoff else res in
            inl (append_all (expand problem node) frontier, res)
        end
  end.
End Search.

Definition depth_limited_search {State Action} (frames fuel : nat)
    (problem : Problem State Action) (limit : nat)
  : option (Run (Outcome State Action)) :=
  while (dls_body problem frames limit) fuel
        ([mkNode (initial problem) None None 0], failure).

Definition iterative_deepening_search {State Action} (frames maxsize fuel : nat)
    (problem : Problem State Action) : option (Run (Answer State Action)) :=
  for_limits_within (depth_limited_search frames fuel problem) (maxsize - 1) 1.

(** main from the call of the driver on, with the tree and the goal it
    builds as parameters: what it prints, unless the driver raises. *)
Definition main_on (frames maxsize fuel : nat) (root : ElementSearch.BinaryTreeNode)
    (goal : Z) : option (Run bool) :=
  let problem := ElementSearch.UserSearchProblem root goal in
  match iterative_deepening_search frames maxsize fuel problem with
  | None => None
  | Some RecursionError => Some RecursionError
  | Some (Done solution_node) => Some (Done (ElementSearchMain.printed solution_node))
  end.

End LimitedElementSearch.

(** file_system_search.py *)
Module LimitedFileSystemSearch.

Section Search.
Context {State Action : Type}.
Variable problem : Problem State Action.
Variable frames limit : nat.

Definition dls_body (st : LIFOQueue State Action * Outcome State Action)
  : LIFOQueue State Action * Outcome State Action + Run (Outcome State Action) :=
  let '(frontier, res) := st in
  match frontier with
  | [] => inr (Done res)
  | node :: frontier =>
      if is_goal problem (state node) then inr (Done (Found node))
      else
        match len_within frames node with
        | RecursionError => inr RecursionError
        | Done depth =>
            if limit <=? depth then inl (frontier, cutoff)
            else inl (append_all (expand problem node) frontier, res)
        end
  end.
End Search.

Definition depth_limited_search {State Action} (frames fuel : nat)
    (problem : Problem State Action) (limit : nat)
  : option (Run (Outcome State Action)) :=
  while (dls_body problem frames limit) fuel
        ([mkNode (initial problem) None None 0], failure).

Definition iterative_deepening_search {State Action} (frames maxsize fuel : nat)
    (problem : Problem State Action) : option (Run (Answer State Action)) :=
  for_limits_within (depth_limited_search frames fuel problem) (maxsize - 1) 1.

(** path_states with [frames] nested calls of itself left. *)
Fixpoint path_states {Action} (frames : nat)
    (node : Node FileSystemSearch.TreeNode Action) : Run (list string) :=
  match frames with
  | O => RecursionError
  | S frames' =>
      match parent node with
      | None => Done [FileSystemSearch.value (state node)]
      | Some p =>
          match path_states frames' p with
          | Done route => Done (route ++ [FileSystemSearch.value (state node)])
          | RecursionError => RecursionError
          end
      end
  end.

(** What main prints for the value the driver has returned; [route_frames]
    is the number of nested calls of path_states allowed in main. *)
Definition printed {Action : Type} (route_frames : nat)
    (solution_node : Answer FileSystemSearch.TreeNode Action) : Run string :=
  if ElementSearchMain.is_None solution_node
     || ElementSearchMain.is_failure solution_node then Done "False"
  else if ElementSearchMain.is_cutoff solution_node then Done "False"
  else
    match solution_node with
    | Returned (Found node) =>
        match path_states route_frames node with
        | Done route => Done (String.concat " -> " route)
        | RecursionError => RecursionError
        end
    | _ => Done "False"
    end.

(** main from the call of the driver on. *)
Definition main_on (frames route_frames maxsize fuel : nat)
    (root : FileSystemSearch.TreeNode) (goal : string) : option (Run string) :=
  let problem := FileSystemSearch.FileSearchProblem root goal in
  match iterative_deepening_search frames maxsize fuel problem with
  | None => None
  | Some RecursionError => Some RecursionError
  | Some (Done solution_node) => Some (printed route_frames solution_node)
  end.

End LimitedFileSystemSearch.

(** rights_search.py *)
Module LimitedRightsSearch.

Section Search.
Context {Action : Type}.
Variable problem : Problem RightsSearch.FSNode Action.
Variable frames limit : nat.

(** One turn of [while frontier:]; [depth = len(node)] comes first, for
    every node popped. *)
Definition dls_body
    (st : LIFOQueue RightsSearch.FSNode Action *
          Outcome RightsSearch.FSNode Action * list string)
  : LIFOQueue RightsSearch.FSNode Action *
    Outcome RightsSearch.FSNode Action * list string
    + Run (Outcome RightsSearch.FSNode Action * list string) :=
  let '(frontier, res, found_files) := st in
  match frontier with
  | [] => inr (Done (res, found_files))
  | node :: frontier =>
      match len_within frames node with
      | RecursionError => inr RecursionError
      | Done depth =>
          let hit := (3 <=? depth) && is_goal problem (state node) in
          let found_files :=
            if hit then found_files ++ [RightsSearch.path (state node)]
            else found_files in
          if hit && (10 <=? length found_files)
          then inr (Done (Found node, found_files))
          else if limit <=? depth then inl (frontier, cutoff, found_files)
          else inl (append_all (expand problem node) frontier, res, found_files)
      end
  end.
End Search.

Definition depth_limited_search {Action} (frames fuel : nat)
    (problem : Problem RightsSearch.FSNode Action) (limit : nat)
    (found_files : option (list string))
  : option (Run (Outcome RightsSearch.FSNode Action * list string)) :=
  let found_files := default [] found_files in
  while (dls_body problem frames limit) fuel
        ([mkNode (initial problem) None None 0], failure, found_files).

(** The body of [for limit in range(start_depth, sys.maxsize)]; the
    result is what found_files holds when the driver returns. *)
Fixpoint ids_for {Action} (frames fuel : nat)
    (problem : Problem RightsSearch.FSNode Action)
    (count limit : nat) (found_files : list string) : option (Run (list string)) :=
  match count with
  | O => Some (Done found_files)
  | S count' =>
      match depth_limited_search frames fuel problem limit (Some found_files) with
      | None => None
      | Some RecursionError => Some RecursionError
      | Some (Done (res, found_files)) =>
          if 10 <=? length found_files then Some (Done found_files)
          else if is_cutoff res
               then ids_for frames fuel problem count' (S limit) found_files
               else Some (Done found_files)
      end
  end.

Definition iterative_deepening_search {Action} (frames maxsize fuel : nat)
    (problem : Problem RightsSearch.FSNode Action) (start_depth : nat)
    (found_files : list string) : option (Run (list string)) :=
  ids_for frames fuel problem (maxsize - start_depth) start_depth found_files.

(** main from the call of the driver on: the lines it prints, unless the
    driver raises. *)
Definition main_on (os : RightsSearch.OS) (root_path : string)
    (frames maxsize fuel : nat) : option (Run (list string)) :=
  let start_depth := 3 in
  let problem :=
    RightsSearch.WindowsFileSearchProblem os (RightsSearch.mkFSNode root_path) in
  let found_files := [] in
  match iterative_deepening_search frames maxsize fuel problem start_depth
          found_files with
  | None => None
  | Some RecursionError => Some RecursionError
  | Some (Done found_files) => Some (Done (RightsSearchMain.printed found_files))
  end.

End LimitedRightsSearch.

(** * Vocabulary of the claims *)

(** ** Binary trees *)

Module BinaryTree.
Import ElementSearch.

(** The values carried by the nodes of a tree, the root first. *)
Fixpoint tree_values (t : BinaryTreeNode) : list Z :=
  value t ::
    match left t with Some l => tree_values l | None => [] end ++
    match right t with Some r => tree_values r | None => [] end.

(** Number of nodes. *)
Fixpoint size (t : BinaryTreeNode) : nat :=
  S (match left t with Some l => size l | None => 0 end +
     match right t with Some r => size r | None => 0 end).

(** Depth of the deepest node, the root being at depth 0. *)
Fixpoint height (t : BinaryTreeNode) : nat :=
  Nat.max (match left t with Some l => S (height l) | None => 0 end)
          (match right t with Some r => S (height r) | None => 0 end).

(** The depths at which a value occurs, the root being at depth [d]. *)
Fixpoint depths_of (g : Z) (d : nat) (t : BinaryTreeNode) : list nat :=
  (if (value t =? g)%Z then [d] else []) ++
    match left t with Some l => depths_of g (S d) l | None => [] end ++
    match right t with Some r => depths_of g (S d) r | None => [] end.

End BinaryTree.
(** [sys.maxsize] of a 64-bit build. *)
Definition sys_maxsize : nat := Z.to_nat (2 ^ 63 - 1).


(** ** The search tree of a problem *)

Section SearchTree.
Context {State Action : Type}.
Variable problem : Problem State Action.

(** The nodes a search can create: the root, which wraps the initial
    state, and the children [expand] yields for a node already created. *)
Inductive in_search_tree : Node State Action → Prop :=
| in_tree_root : in_search_tree (mkNode (initial problem) None None 0)
| in_tree_child par child :
    in_search_tree par → child ∈ expand problem par → in_search_tree child.

(** The actions recorded along the parent chain, from the root down. *)
Fixpoint recorded_actions (node : Node State Action) : list Action :=
  match parent node with
  | None => []
  | Some p =>
      recorded_actions p ++
        match action node with Some a => [a] | None => [] end
  end.

(** The states passed through when the actions are applied in turn. *)
Fixpoint replay (s : State) (acts : list Action) : list State :=
  match acts with
  | [] => [s]
  | a :: acts => s :: replay (result problem s a) acts
  end.

(** Every chain of actions from [s] has at most [d] steps. *)
Fixpoint chains_bounded (d : nat) (s : State) : Prop :=
  match d with
  | O => actions problem s = []
  | S d' => ∀ a, a ∈ actions problem s → chains_bounded d' (result problem s a)
  end.

(** The space below [s] is finite: every chain of actions from [s] ends
    (a state has finitely many actions, [actions] returns a list). *)
Inductive finite_below : State → Prop :=
| finite_below_intro s :
    (∀ a, a ∈ actions problem s → finite_below (result problem s a)) →
    finite_below s.

(** A bounded pass read as a recursive descent: [visit k node res] is what
    becomes of the recorded result [res] when the subtree of [node] is
    worked through with [k] levels left below it ([inl]), or the node the
    pass returns from inside it ([inr]). *)
Fixpoint visit_all (visit : Node State Action → Outcome State Action →
                            Outcome State Action + Outcome State Action)
    (nodes : list (Node State Action)) (res : Outcome State Action)
  : Outcome State Action + Outcome State Action :=
  match nodes with
  | [] => inl res
  | node :: nodes =>
      match visit node res with
      | inl res => visit_all visit nodes res
      | inr o => inr o
      end
  end.

Fixpoint visit (k : nat) (node : Node State Action) (res : Outcome State Action)
  : Outcome State Action + Outcome State Action :=
  if is_goal problem (state node) then inr (Found node)
  else
    match k with
    | O => inl cutoff
    | S k' => visit_all (visit k') (reverse (expand problem node)) res
    end.

(** The result of the bounded pass of file_system_search.py, as a total
    function. *)
Definition pass_result (limit : nat) : Outcome State Action :=
  match visit limit (mkNode (initial problem) None None 0) failure with
  | inl res => res
  | inr o => o
  end.

(** Each action of the sequence is one [actions] offers in the state it is
    applied to. *)
Fixpoint actions_available (s : State) (acts : list Action) : Prop :=
  match acts with
  | [] => True
  | a :: acts =>
      a ∈ actions problem s ∧ actions_available (result problem s a) acts
  end.
End SearchTree.

(** ** The order of siblings on the frontier *)

Section SiblingOrder.
Context {State Action : Type}.
Variable problem : Problem State Action.

(** [x] comes after all its later siblings that are goals: those not in
    [pre] (the part of the frontier above [x]) are no goals. *)
Definition later_siblings_above (pre : list (Node State Action))
    (x : Node State Action) : Prop :=
  ∀ par, parent x = Some par →
    ∃ l1 l2, expand problem par = l1 ++ x :: l2 ∧
      ∀ y, y ∈ l2 → is_goal problem (state y) = false ∨ y ∈ pre.

Definition ordered_frontier (frontier : list (Node State Action)) : Prop :=
  ∀ pre x post, frontier = pre ++ x :: post → later_siblings_above pre x.

(** [x] is the last of the children of its parent, in the order of
    [actions], whose state is a goal. *)
Definition last_goal_sibling (x : Node State Action) : Prop :=
  ∀ par, parent x = Some par →
    ∃ l1 l2, expand problem par = l1 ++ x :: l2 ∧
      ∀ y, y ∈ l2 → is_goal problem (state y) = false.
End SiblingOrder.

(** ** The frontier of a pass of file_system_search.py *)

Section FrontierInvariant.
Context {State Action : Type}.
Variable problem : Problem State Action.
Variable limit : nat.

(** What holds of the frontier of a gated pass all along: its nodes are
    nodes of the search tree at depth at most [limit], later siblings lie
    above earlier ones, and the recorded result is a sentinel. *)
Definition file_frontier_ok
    (st : LIFOQueue State Action * Outcome State Action) : Prop :=
  (∀ n, n ∈ st.1 → in_search_tree problem n ∧ len n ≤ limit) ∧
  ordered_frontier problem st.1 ∧
  ∀ n, st.2 ≠ Found n.
End FrontierInvariant.

(** ** Matches of rights_search.py *)

Section Matches.
Context {Action : Type}.
Variable problem : Problem RightsSearch.FSNode Action.

(** The nodes of the search tree at most [d] levels below [node], in the
    order in which a pass meets them: [node] first, then what is below its
    last child, and so on down to its first child. *)
Fixpoint nodes_below (d : nat) (node : Node RightsSearch.FSNode Action)
  : list (Node RightsSearch.FSNode Action) :=
  node ::
    match d with
    | O => []
    | S d' => flat_map (nodes_below d') (reverse (expand problem node))
    end.

(** A node counts when it is at depth 3 or more and its state is a goal. *)
Definition counts (node : Node RightsSearch.FSNode Action) : bool :=
  (3 <=? len node) && is_goal problem (state node).

(** The nodes at depth 3 or more whose state is a goal, down to level [d]
    of the search tree. *)
Definition matching_nodes (d : nat) : list (Node RightsSearch.FSNode Action) :=
  filter (λ n, Is_true (counts n))
         (nodes_below d (mkNode (initial problem) None None 0)).

(** Their paths, which is what a pass that goes [d] levels below [node]
    and is not stopped puts on the list. *)
Definition paths_below (d : nat) (node : Node RightsSearch.FSNode Action)
  : list string :=
  map (λ n, RightsSearch.path (state n))
      (filter (λ n, Is_true (counts n)) (nodes_below d node)).

(** The pass of rights_search.py read as a recursive descent, with [k]
    levels left below [node]: [inl] is the recorded result and the list
    after the subtree of [node], [inr] what the pass returns from inside
    it. *)
Fixpoint rights_visit_all
    (visit : Node RightsSearch.FSNode Action →
             Outcome RightsSearch.FSNode Action * list string →
             Outcome RightsSearch.FSNode Action * list string +
             Outcome RightsSearch.FSNode Action * list string)
    (nodes : list (Node RightsSearch.FSNode Action))
    (st : Outcome RightsSearch.FSNode Action * list string)
  : Outcome RightsSearch.FSNode Action * list string +
    Outcome RightsSearch.FSNode Action * list string :=
  match nodes with
  | [] => inl st
  | node :: nodes =>
      match visit node st with
      | inl st => rights_visit_all visit nodes st
      | inr out => inr out
      end
  end.

Fixpoint rights_visit (k : nat) (node : Node RightsSearch.FSNode Action)
    (st : Outcome RightsSearch.FSNode Action * list string)
  : Outcome RightsSearch.FSNode Action * list string +
    Outcome RightsSearch.FSNode Action * list string :=
  let found_files :=
    if counts node then st.2 ++ [RightsSearch.path (state node)] else st.2 in
  if counts node && (10 <=? length found_files) then inr (Found node, found_files)
  else
    match k with
    | O => inl (cutoff, found_files)
    | S k' =>
        rights_visit_all (rights_visit k') (reverse (expand problem node))
          (st.1, found_files)
    end.

Definition rights_pass_result (limit : nat) (found_files : list string)
  : Outcome RightsSearch.FSNode Action * list string :=
  match rights_visit limit (mkNode (initial problem) None None 0)
          (failure, found_files) with
  | inl out => out
  | inr out => out
  end.

(** [s] is the path of a goal met at depth 3 or more. *)
Definition recorded_match (s : string) : Prop :=
  ∃ n, in_search_tree problem n ∧ 3 ≤ len n ∧
       is_goal problem (state n) = true ∧ s = RightsSearch.path (state n).

(** What holds all along a pass started with [found] in the list: the
    frontier holds nodes of the search tree, the list has only grown, by
    paths of matches, and it is still short of ten entries if it was at the
    start. *)
Definition rights_pass_ok (found : list string)
    (st : LIFOQueue RightsSearch.FSNode Action *
          Outcome RightsSearch.FSNode Action * list string) : Prop :=
  (∀ n, n ∈ st.1.1 → in_search_tree problem n) ∧
  ∃ new, st.2 = found ++ new ∧ Forall recorded_match new ∧
         (length found < 10 → length st.2 < 10).
End Matches.

(** ** Objects in the store *)

(** [Node.__len__] and the methods of the problem as the engine has them,
    for use next to their counterparts on the store. *)
Abbreviation node_len n := (len n).
Abbreviation problem_actions p s := (actions p s).
Abbreviation problem_is_goal p s := (is_goal p s).

Module StoreFrame.
Import ElementSearchStore.

(** The store a run has reached. *)
Definition store_of (r : Store * list addr * Ref + Store * Exit) : Store :=
  match r with
  | inl (h, _, _) => h
  | inr (h, _) => h
  end.

(** From [h] to [h'] no object of [h] was written to or dropped, and every
    object that is new is a search Node. *)
Definition only_new_nodes (h h' : Store) : Prop :=
  h ⊆ h' ∧
  ∀ a o, h' !! a = Some o → h !! a = None →
    ∃ s p act c, o = NodeObj s p act c.

(** The object at address [a] and the objects it refers to hold the tree
    [t], the search node [n], the result [o] of a pass. *)
Definition repr_opt {A : Type} (R : A → addr → Prop)
    (x : option A) (a : option addr) : Prop :=
  match x, a with
  | None, None => True
  | Some x, Some a => R x a
  | _, _ => False
  end.

Fixpoint repr_tree (h : Store) (t : ElementSearch.BinaryTreeNode) (a : addr)
  : Prop :=
  match h !! a with
  | Some (BinaryTreeNodeObj v l r) =>
      v = ElementSearch.value t ∧
      repr_opt (repr_tree h) (ElementSearch.left t) l ∧
      repr_opt (repr_tree h) (ElementSearch.right t) r
  | _ => False
  end.

Fixpoint repr_node (h : Store)
    (n : Node ElementSearch.BinaryTreeNode ElementSearch.BinaryTreeNode)
    (a : addr) : Prop :=
  match h !! a with
  | Some (NodeObj s p act c) =>
      repr_tree h (state n) s ∧
      repr_opt (repr_node h) (parent n) p ∧
      repr_opt (repr_tree h) (action n) act ∧
      c = path_cost n
  | _ => False
  end.

Definition repr_outcome (h : Store)
    (o : Outcome ElementSearch.BinaryTreeNode ElementSearch.BinaryTreeNode)
    (r : Ref) : Prop :=
  match o, r with
  | Found n, RefNode a => repr_node h n a
  | failure, RefFailure => True
  | cutoff, RefCutoff => True
  | _, _ => False
  end.

(** The loop over the store is where the loop over values is: the same
    problem, the same nodes on the frontier, the same recorded result. *)
Definition same_state (problem : addr) (initial : addr) (goal : Z)
    (sp : LIFOQueue ElementSearch.BinaryTreeNode ElementSearch.BinaryTreeNode *
          Outcome ElementSearch.BinaryTreeNode ElementSearch.BinaryTreeNode)
    (ss : Store * list addr * Ref) : Prop :=
  ss.1.1 !! problem = Some (ProblemObj initial goal) ∧
  Forall2 (λ n a, repr_node ss.1.1 n a ∧ node_len n < size ss.1.1) sp.1 ss.1.2 ∧
  repr_outcome ss.1.1 sp.2 ss.2.

(** The tree and the search node that the objects at an address stand
    for, read off the store down to [fuel] levels. *)
Fixpoint tree_at (fuel : nat) (h : Store) (a : addr)
  : option ElementSearch.BinaryTreeNode :=
  match fuel with
  | O => None
  | S fuel' =>
      match h !! a with
      | Some (BinaryTreeNodeObj v l r) =>
          l' ← match l with
               | None => Some None
               | Some la => Some <$> tree_at fuel' h la
               end;
          r' ← match r with
               | None => Some None
               | Some ra => Some <$> tree_at fuel' h ra
               end;
          Some (ElementSearch.mkBinaryTreeNode v l' r')
      | _ => None
      end
  end.

Fixpoint node_at (fuel : nat) (h : Store) (a : addr)
  : option (Node ElementSearch.BinaryTreeNode ElementSearch.BinaryTreeNode) :=
  match fuel with
  | O => None
  | S fuel' =>
      match h !! a with
      | Some (NodeObj s p act c) =>
          s' ← tree_at fuel h s;
          p' ← match p with
               | None => Some None
               | Some pa => Some <$> node_at fuel' h pa
               end;
          act' ← match act with
                 | None => Some None
                 | Some aa => Some <$> tree_at fuel h aa
                 end;
          Some (mkNode s' p' act' c)
      | _ => None
      end
  end.

End StoreFrame.

(** ** Inputs *)

(** A tree in which both children of the root carry the value 7. *)
Definition twin_root : ElementSearch.BinaryTreeNode :=
  ElementSearch.mkBinaryTreeNode 1
    (Some (ElementSearch.mkBinaryTreeNode 7 (Some (ElementSearch.leaf 8)) None))
    (Some (ElementSearch.leaf 7)).

Definition twin_problem : Problem ElementSearch.BinaryTreeNode ElementSearch.BinaryTreeNode :=
  ElementSearch.UserSearchProblem twin_root 7.

Definition twin_root_node : Node ElementSearch.BinaryTreeNode ElementSearch.BinaryTreeNode :=
  mkNode twin_root None None 0.

Definition twin_left_node : Node ElementSearch.BinaryTreeNode ElementSearch.BinaryTreeNode :=
  mkNode (ElementSearch.mkBinaryTreeNode 7 (Some (ElementSearch.leaf 8)) None)
         (Some twin_root_node)
         (Some (ElementSearch.mkBinaryTreeNode 7 (Some (ElementSearch.leaf 8)) None)) 1.

Definition twin_right_node : Node ElementSearch.BinaryTreeNode ElementSearch.BinaryTreeNode :=
  mkNode (ElementSearch.leaf 7) (Some twin_root_node) (Some (ElementSearch.leaf 7)) 1.

(** The node main gets back for file_d. *)
Definition main_solution : Node FileSystemSearch.TreeNode FileSystemSearch.TreeNode :=
  Eval vm_compute in
    match FileSystemSearch.depth_limited_search 20
            (FileSystemSearch.FileSearchProblem FileSystemSearch.main_root "file_d") 3 with
    | Some (Found n) => n
    | _ => mkNode FileSystemSearch.main_root None None 0
    end.

(** A Desktop that holds one file of mode 33206, three levels down. *)
Definition desktop : string := "C:\Users\Andrey\Desktop".
Definition desktop_a : string := "C:\Users\Andrey\Desktop\a".
Definition desktop_a_b : string := "C:\Users\Andrey\Desktop\a\b".
Definition desktop_a_b_f : string := "C:\Users\Andrey\Desktop\a\b\f.txt".

Definition desktop_os : RightsSearch.OS :=
  {| RightsSearch.isdir := λ p,
       String.eqb p desktop || String.eqb p desktop_a || String.eqb p desktop_a_b;
     RightsSearch.isfile := λ p, String.eqb p desktop_a_b_f;
     RightsSearch.listdir := λ p,
       if String.eqb p desktop then Some ["a"]
       else if String.eqb p desktop_a then Some ["b"]
       else if String.eqb p desktop_a_b then Some ["f.txt"]
       else None;
     RightsSearch.st_mode := λ p,
       if String.eqb p desktop_a_b_f then Some 33206%Z else None;
     RightsSearch.join := λ p item, String.append p (String.append "\" item) |}.

Definition desktop_problem : Problem RightsSearch.FSNode RightsSearch.FSNode :=
  RightsSearch.WindowsFileSearchProblem desktop_os (RightsSearch.mkFSNode desktop).

(** The objects main of element_search.py has built when it calls the
    driver: the problem at address 0, the nine tree nodes after it. *)
Definition main_store : gmap ElementSearchStore.addr ElementSearchStore.Obj :=
  list_to_map
    [(0, ElementSearchStore.ProblemObj 1 4);
     (1, ElementSearchStore.BinaryTreeNodeObj 1 (Some 2) (Some 3));
     (2, ElementSearchStore.BinaryTreeNodeObj 2 (Some 4) (Some 5));
     (3, ElementSearchStore.BinaryTreeNodeObj 3 (Some 6) (Some 7));
     (4, ElementSearchStore.BinaryTreeNodeObj 6 (Some 8) None);
     (5, ElementSearchStore.BinaryTreeNodeObj 7 None None);
     (6, ElementSearchStore.BinaryTreeNodeObj 9 None (Some 9));
     (7, ElementSearchStore.BinaryTreeNodeObj 5 None None);
     (8, ElementSearchStore.BinaryTreeNodeObj 8 None None);
     (9, ElementSearchStore.BinaryTreeNodeObj 4 None None)].

(** * Vocabulary of the further properties *)

Section Descent.
Context {State Action : Type}.
Variable problem : Problem State Action.

(** [x] is [node] or lies below it in the search tree. *)
Inductive descends : Node State Action → Node State Action → Prop :=
| descends_here node : descends node node
| descends_child node child x :
    child ∈ expand problem node → descends child x → descends node x.

(** [x] is in the subtree of one of [nodes]. *)
Definition below (nodes : list (Node State Action)) (x : Node State Action) : Prop :=
  ∃ c, c ∈ nodes ∧ descends c x.

(** What the pass of element_search.py does with the nodes on top of its
    frontier when the subtrees below them are finite: it returns a goal
    from one of the subtrees, or, when they hold none, it comes back to the
    rest of the frontier after some turns of the loop, with a cutoff
    recorded exactly when a node at depth [limit] or deeper was met. *)
Definition element_sweeps (limit : nat) (nodes : list (Node State Action)) : Prop :=
  ∀ (rest : list (Node State Action)) (res : Outcome State Action),
    (∃ x steps, below nodes x ∧ is_goal problem (state x) = true ∧
       ∀ f, while (ElementSearch.dls_body problem limit) (steps + f)
              (nodes ++ rest, res) = Some (Found x)) ∨
    ((∀ x, below nodes x → is_goal problem (state x) = false) ∧
     ∃ steps res',
       (∀ f, while (ElementSearch.dls_body problem limit) (steps + f)
               (nodes ++ rest, res) =
             while (ElementSearch.dls_body problem limit) f (rest, res')) ∧
       ((res' = cutoff ∧ ∃ x, below nodes x ∧ limit ≤ len x) ∨
        (res' = res ∧ ∀ x, below nodes x → len x < limit))).
End Descent.

(** ** Trees of file_system_search.py *)

Module FileTree.
Import FileSystemSearch.

(** [route_to t l u]: [l] lists the names met on a way down the tree [t],
    from [t] itself to its subtree [u], each step going from a node to one
    of its children. *)
Inductive route_to : TreeNode → list string → TreeNode → Prop :=
| route_here t : route_to t [value t] t
| route_down t c l u :
    c ∈ children t → route_to c l u → route_to t (value t :: l) u.

(** Depth of the deepest node, the root being at depth 0. *)
Fixpoint height (t : TreeNode) : nat :=
  match t with
  | mkTreeNode _ cs => foldr Nat.max 0 (map (λ c, S (height c)) cs)
  end.

End FileTree.

(** ** Paths of rights_search.py *)

(** [listed os n p q]: the path [q] is reached from [p] in [n] steps, each
    from a directory that can be listed to one of the items of its listing,
    joined to the path of the directory. *)
Inductive listed (os : RightsSearch.OS) : nat → string → string → Prop :=
| listed_here p : listed os 0 p p
| listed_step n p q items item :
    listed os n p q →
    RightsSearch.isdir os q = true →
    RightsSearch.listdir os q = Some items →
    item ∈ items →
    listed os (S n) p (RightsSearch.join os q item).

(** ** Further inputs *)

(** The frontier of the pass with limit 2 on the tree of main of
    file_system_search.py, after two turns of the loop. *)
Definition main_frontier_after_two
  : LIFOQueue FileSystemSearch.TreeNode FileSystemSearch.TreeNode :=
  Eval vm_compute in
    match iterate (FileSystemSearch.dls_body
                     (FileSystemSearch.FileSearchProblem
                        FileSystemSearch.main_root "file_d") 2) 2
            ([mkNode FileSystemSearch.main_root None None 0], failure) with
    | inl (frontier, _) => frontier
    | inr _ => []
    end.

(** A space of one state with one action that leads back to it, and no
    goal. *)
Definition one_room : Problem unit unit :=
  {| initial := tt;
     actions := λ _, [tt];
     result := λ _ _, tt;
     is_goal := λ _, false;
     action_cost := λ _ _ _, 1%Z |}.

(** ** Deep inputs and the default recursion limit *)

(** The nested calls of [Node.__len__] that CPython allows inside a pass
    when a script is run as it is, under the default recursion limit of
    1000: the calls from the module down to the pass take the rest. *)
Definition default_frames : nat := 995.

(** A binary tree that is one chain of left children, [n] levels deep,
    with the value [bottom] at its end and 0 everywhere above. *)
Fixpoint left_chain (n : nat) (bottom : Z) : ElementSearch.BinaryTreeNode :=
  match n with
  | O => ElementSearch.leaf bottom
  | S n' =>
      ElementSearch.mkBinaryTreeNode 0 (Some (left_chain n' bottom)) None
  end.

(** A tree of directories that is one chain, [n] levels deep, with a file
    at its end. *)
Fixpoint dir_chain (n : nat) : FileSystemSearch.TreeNode :=
  match n with
  | O => FileSystemSearch.mkTreeNode "file" []
  | S n' => FileSystemSearch.mkTreeNode "dir" [dir_chain n']
  end.

(** A turn of a loop in which no call was refused: what the turn does
    without the recursion limit, as a turn of the loop that has it. *)
Definition unraised {St Res : Type} (x : St + Res) : St + Run Res :=
  match x with
  | inl s => inl s
  | inr r => inr (Done r)
  end.

(** * Theorems *)

(** ** Facts about loops *)

Section WhileFacts.
Context {St Res : Type}.
Variable body : St → St + Res.

Lemma while_more_fuel fuel extra s r :
  while body fuel s = Some r → while body (fuel + extra) s = Some r.
Proof.
  revert s. induction fuel as [|fuel IH]; intros s H; simpl in *; [discriminate|].
  destruct (body s) as [s'|r']; auto.
Qed.

Lemma while_fuel_le fuel fuel' s r :
  fuel ≤ fuel' → while body fuel s = Some r → while body fuel' s = Some r.
Proof.
  intros Hle H. replace fuel' with (fuel + (fuel' - fuel)) by lia.
  by apply while_more_fuel.
Qed.

(** A loop that returns did so after some number of iterations, and every
    state it went through is one [iterate] reaches. *)
Lemma while_iterate fuel s r :
  while body fuel s = Some r → ∃ k, k ≤ fuel ∧ iterate body k s = inr r.
Proof.
  revert s. induction fuel as [|fuel IH]; intros s H; simpl in *; [discriminate|].
  destruct (body s) as [s'|r'] eqn:Hb.
  - destruct (IH _ H) as (k & Hk & Hit). exists (S k). split; [lia|].
    simpl. by rewrite Hb.
  - exists 1. split; [lia|]. simpl. rewrite Hb. congruence.
Qed.

(** Invariants: what holds at the start and is kept by the body holds of
    every state reached, and of the state the loop returns from. *)
Lemma iterate_invariant (Inv : St → Prop) :
  (∀ s s', Inv s → body s = inl s' → Inv s') →
  ∀ k s s', Inv s → iterate body k s = inl s' → Inv s'.
Proof.
  intros Hstep. induction k as [|k IH]; intros s s' Hs H; simpl in H.
  - congruence.
  - destruct (body s) as [s1|r] eqn:Hb; [|discriminate]. eauto.
Qed.

Lemma while_invariant (Inv : St → Prop) (Post : Res → Prop) :
  (∀ s s', Inv s → body s = inl s' → Inv s') →
  (∀ s r, Inv s → body s = inr r → Post r) →
  ∀ fuel s r, Inv s → while body fuel s = Some r → Post r.
Proof.
  intros Hstep Hret. induction fuel as [|fuel IH]; intros s r Hs H; simpl in H.
  - discriminate.
  - destruct (body s) as [s1|r1] eqn:Hb.
    + eapply IH; [|exact H]. eauto.
    + inversion H; subst. eauto.
Qed.
End WhileFacts.

Section DriverFacts.
Context {State Action : Type}.
Implicit Types pass : nat → option (Outcome State Action).

(** The driver never hands the cutoff sentinel back. *)
Lemma for_limits_not_cutoff pass count limit r :
  for_limits pass count limit = Some (Returned r) → r ≠ cutoff.
Proof.
  revert limit. induction count as [|count IH]; intros limit H; simpl in H.
  - discriminate.
  - destruct (pass limit) as [[n| |]|] eqn:Hp; try discriminate; eauto;
      inversion H; subst; discriminate.
Qed.

(** What the driver returns is what one of its passes returned, and all
    the passes before that one were cut off. *)
Lemma for_limits_returned pass count limit r :
  for_limits pass count limit = Some (Returned r) →
  ∃ k, k < count ∧ pass (limit + k) = Some r ∧
       ∀ i, i < k → pass (limit + i) = Some cutoff.
Proof.
  revert limit. induction count as [|count IH]; intros limit H; simpl in H.
  - discriminate.
  - destruct (pass limit) as [o|] eqn:Hp; [|discriminate].
    destruct (is_cutoff o) eqn:Hc.
    + destruct o; try discriminate.
      destruct (IH _ H) as (k & Hk & Hr & Hbefore).
      exists (S k). split; [lia|]. split.
      * by replace (limit + S k) with (S limit + k) by lia.
      * intros [|i] Hi; [by rewrite Nat.add_0_r|].
        replace (limit + S i) with (S limit + i) by lia. apply Hbefore. lia.
    + exists 0. rewrite Nat.add_0_r. split; [lia|]. split.
      * destruct o; try discriminate; inversion H; by subst.
      * intros i Hi. lia.
Qed.

(** The range of limits runs out only when every pass was cut off. *)
Lemma for_limits_exhausted pass count limit :
  for_limits pass count limit = Some RangeExhausted →
  ∀ i, i < count → pass (limit + i) = Some cutoff.
Proof.
  revert limit. induction count as [|count IH]; intros limit H i Hi; [lia|].
  simpl in H. destruct (pass limit) as [[n| |]|] eqn:Hp; try discriminate.
  destruct i as [|i]; [by rewrite Nat.add_0_r|].
  replace (limit + S i) with (S limit + i) by lia. apply IH; [done|lia].
Qed.

(** The first pass that is not cut off decides. *)
Lemma for_limits_first pass count limit k r :
  k < count →
  (∀ i, i < k → pass (limit + i) = Some cutoff) →
  pass (limit + k) = Some r → r ≠ cutoff →
  for_limits pass count limit = Some (Returned r).
Proof.
  revert count limit. induction k as [|k IH]; intros count limit Hk Hbefore Hr Hne.
  - destruct count as [|count]; [lia|]. simpl.
    rewrite Nat.add_0_r in Hr. rewrite Hr. by destruct r.
  - destruct count as [|count]; [lia|]. simpl.
    rewrite <- (Nat.add_0_r limit) at 1. rewrite (Hbefore 0) by lia.
    apply IH; [lia| |by replace (S limit + k) with (limit + S k) by lia|done].
    intros i Hi. replace (S limit + i) with (limit + S i) by lia.
    apply Hbefore. lia.
Qed.
End DriverFacts.

(** ** Facts about the engine *)

Section EngineFacts.
Context {State Action : Type}.
Implicit Types (problem : Problem State Action) (node : Node State Action).

Lemma append_all_rev (children frontier : LIFOQueue State Action) :
  append_all children frontier = reverse children ++ frontier.
Proof.
  unfold append_all. revert frontier.
  induction children as [|c cs IH]; intros frontier; simpl; [done|].
  rewrite IH, reverse_cons. unfold append. by rewrite <- app_assoc.
Qed.

Lemma expand_parent problem node child :
  child ∈ expand problem node → parent child = Some node.
Proof.
  unfold expand. intros Hin. apply list_elem_of_fmap in Hin.
  destruct Hin as (a & -> & _). done.
Qed.

Lemma expand_len problem node child :
  child ∈ expand problem node → len child = S (len node).
Proof.
  intros Hin. apply expand_parent in Hin.
  destruct child as [s p a c]. simpl in *. by subst.
Qed.
End EngineFacts.

(** ** element_search.py on binary trees *)

Section ElementSearchOnTrees.
Import ElementSearch BinaryTree.

Lemma BinaryTreeNode_induction (P : BinaryTreeNode → Prop) :
  (∀ v l r,
      (∀ t, l = Some t → P t) → (∀ t, r = Some t → P t) →
      P (mkBinaryTreeNode v l r)) →
  ∀ t, P t.
Proof.
  intros Hnode. fix IH 1. intros [v l r].
  apply Hnode; [destruct l as [c|] | destruct r as [c|]];
    intros t Heq; try discriminate; injection Heq as <-; apply IH.
Qed.

Variable root : BinaryTreeNode.
Variable goal : Z.
Variable limit : nat.

Local Abbreviation body := (dls_body (UserSearchProblem root goal) limit).

(** A pass of element_search.py works through the whole subtree below
    the node on top of the frontier: it returns a node carrying the goal
    if there is one, and otherwise comes back to the rest of the frontier,
    cut off if the subtree reaches down to the limit. *)
Lemma subtree_pass t :
  ∀ node rest res, state node = t →
    (goal ∈ tree_values t →
     ∃ x, value (state x) = goal ∧
          ∀ f, while body (size t + f) (node :: rest, res) = Some (Found x)) ∧
    (goal ∉ tree_values t →
     ∀ f, while body (size t + f) (node :: rest, res) =
          while body f
            (rest, if limit <=? len node + height t then cutoff else res)).
Proof.
  induction t as [v l r IHl IHr] using BinaryTreeNode_induction.
  intros node rest res Hst.
  destruct (decide (v = goal)) as [Hv|Hv].
  { split.
    - intros _. exists node. split; [by rewrite Hst|]. intros f. simpl.
      rewrite Hst. simpl. by rewrite (proj2 (Z.eqb_eq _ _) Hv).
    - intros Hnot. exfalso. apply Hnot. subst v. simpl. apply elem_of_cons. by left. }
  assert (Hstep : ∀ f, while body (S f) (node :: rest, res) =
            while body f
              (append_all (expand (UserSearchProblem root goal) node) rest,
               if limit <=? len node then cutoff else res)).
  { intros f. simpl. rewrite Hst. simpl.
    by rewrite (proj2 (Z.eqb_neq _ _) Hv). }
  set (child := λ c : BinaryTreeNode, mkNode c (Some node) (Some c) (path_cost node + 1)).
  assert (Hexp : expand (UserSearchProblem root goal) node =
            match l with Some tl => [child tl] | None => [] end ++
            match r with Some tr => [child tr] | None => [] end).
  { unfold expand. rewrite Hst. simpl. by destruct l, r. }
  rewrite Hexp in Hstep. clear Hexp.
  assert (Hl : ∀ tl, l = Some tl → ∀ rest res,
            (goal ∈ tree_values tl →
             ∃ x, value (state x) = goal ∧
               ∀ f, while body (size tl + f) (child tl :: rest, res) = Some (Found x)) ∧
            (goal ∉ tree_values tl →
             ∀ f, while body (size tl + f) (child tl :: rest, res) =
               while body f (rest, if limit <=? S (len node) + height tl then cutoff else res))).
  { intros tl Htl rest' res'. by apply (IHl tl Htl (child tl)). }
  assert (Hr : ∀ tr, r = Some tr → ∀ rest res,
            (goal ∈ tree_values tr →
             ∃ x, value (state x) = goal ∧
               ∀ f, while body (size tr + f) (child tr :: rest, res) = Some (Found x)) ∧
            (goal ∉ tree_values tr →
             ∀ f, while body (size tr + f) (child tr :: rest, res) =
               while body f (rest, if limit <=? S (len node) + height tr then cutoff else res))).
  { intros tr Htr rest' res'. by apply (IHr tr Htr (child tr)). }
  clear IHl IHr Hst. clearbody child.
  simpl tree_values. simpl size. simpl height.
  rewrite elem_of_cons, elem_of_app.
  destruct l as [tl|], r as [tr|];
    unfold append_all, append in Hstep; cbn [app fold_left] in Hstep;
    try (specialize (Hl _ eq_refl)); try (specialize (Hr _ eq_refl)).
  - (* two children: the right one is on top *)
    split.
    + intros Hin.
      destruct (decide (goal ∈ tree_values tr)) as [Htr|Htr].
      * destruct (proj1 (Hr (child tl :: rest) (if limit <=? len node then cutoff else res)) Htr)
          as (x & Hx & Hrun).
        exists x. split; [done|]. intros f. cbn [Nat.add]. rewrite Hstep.
        replace (size tl + size tr + f) with (size tr + (size tl + f)) by lia.
        apply Hrun.
      * assert (Htl : goal ∈ tree_values tl) by (destruct Hin as [?|[?|?]]; done).
        destruct (proj1 (Hl rest (if limit <=? S (len node) + height tr then cutoff
                                  else if limit <=? len node then cutoff else res)) Htl)
          as (x & Hx & Hrun).
        exists x. split; [done|]. intros f. cbn [Nat.add]. rewrite Hstep.
        replace (size tl + size tr + f) with (size tr + (size tl + f)) by lia.
        rewrite (proj2 (Hr _ _) Htr). apply Hrun.
    + intros Hnot f. cbn [Nat.add]. rewrite Hstep.
      replace (size tl + size tr + f) with (size tr + (size tl + f)) by lia.
      rewrite (proj2 (Hr _ _)) by tauto. rewrite (proj2 (Hl _ _)) by tauto.
      do 2 f_equal.
      repeat match goal with |- context [?a <=? ?b] => destruct (Nat.leb_spec a b) end;
        try done; lia.
  - (* only a left child *)
    split.
    + intros Hin.
      assert (Htl : goal ∈ tree_values tl).
      { destruct Hin as [?|[?|Hnil]]; [done|done|by apply elem_of_nil in Hnil]. }
      destruct (proj1 (Hl rest (if limit <=? len node then cutoff else res)) Htl)
        as (x & Hx & Hrun).
      exists x. split; [done|]. intros f. cbn [Nat.add]. rewrite Hstep.
      replace (size tl + 0 + f) with (size tl + f) by lia. apply Hrun.
    + intros Hnot f. cbn [Nat.add]. rewrite Hstep.
      replace (size tl + 0 + f) with (size tl + f) by lia.
      rewrite (proj2 (Hl _ _)) by tauto.
      do 2 f_equal.
      repeat match goal with |- context [?a <=? ?b] => destruct (Nat.leb_spec a b) end;
        try done; lia.
  - (* only a right child *)
    split.
    + intros Hin.
      assert (Htr : goal ∈ tree_values tr).
      { destruct Hin as [?|[Hnil|?]]; [done|by apply elem_of_nil in Hnil|done]. }
      destruct (proj1 (Hr rest (if limit <=? len node then cutoff else res)) Htr)
        as (x & Hx & Hrun).
      exists x. split; [done|]. intros f. cbn [Nat.add]. rewrite Hstep. apply Hrun.
    + intros Hnot f. cbn [Nat.add]. rewrite Hstep.
      rewrite (proj2 (Hr _ _)) by tauto.
      do 2 f_equal.
      repeat match goal with |- context [?a <=? ?b] => destruct (Nat.leb_spec a b) end;
        try done; lia.
  - (* a leaf *)
    split.
    + intros [?|[Hnil|Hnil]]; [done|by apply elem_of_nil in Hnil..].
    + intros _ f. cbn [Nat.add]. rewrite Hstep. do 2 f_equal.
      by rewrite Nat.add_0_r.
Qed.

Lemma pass_finds_value t :
  goal ∈ tree_values t →
  ∃ x, value (state x) = goal ∧
    ∀ fuel, size t ≤ fuel →
      while body fuel ([mkNode t None None 0], failure) = Some (Found x).
Proof.
  intros Hin.
  destruct (proj1 (subtree_pass t (mkNode t None None 0) [] failure eq_refl) Hin)
    as (x & Hx & Hrun).
  exists x. split; [done|]. intros fuel Hfuel.
  replace fuel with (size t + (fuel - size t)) by lia. apply Hrun.
Qed.

Lemma pass_without_value t :
  goal ∉ tree_values t →
  ∀ fuel, size t < fuel →
    while body fuel ([mkNode t None None 0], failure) =
    Some (if limit <=? height t then cutoff else failure).
Proof.
  intros Hnot fuel Hfuel.
  replace fuel with (size t + S (fuel - size t - 1)) by lia.
  rewrite (proj2 (subtree_pass t (mkNode t None None 0) [] failure eq_refl) Hnot).
  done.
Qed.

End ElementSearchOnTrees.

Lemma sys_maxsize_large : 1000 < sys_maxsize.
Proof. unfold sys_maxsize. lia. Qed.

(** Without the recursion limit: on a binary tree the driver of
    element_search.py returns a node carrying the goal value exactly when
    some node of the tree carries it, and the failure sentinel otherwise,
    as soon as the range of limits reaches past the height of the tree. *)
Lemma unlimited_element_driver_on_tree
    (maxsize : nat) (T : ElementSearch.BinaryTreeNode) (g : Z) :
  BinaryTree.height T + 2 ≤ maxsize →
  ∃ fuel0, ∀ fuel, fuel0 ≤ fuel →
    let answer :=
      ElementSearch.iterative_deepening_search maxsize fuel
        (ElementSearch.UserSearchProblem T g) in
    ((∃ n, answer = Some (Returned (Found n)) ∧
           ElementSearch.value (state n) = g)
     ↔ g ∈ BinaryTree.tree_values T) ∧
    (g ∉ BinaryTree.tree_values T → answer = Some (Returned failure)).
Proof.
  intros Hmax. exists (S (BinaryTree.size T)). intros fuel Hfuel answer.
  destruct (decide (g ∈ BinaryTree.tree_values T)) as [Hin|Hnot].
  - destruct (pass_finds_value T g 1 T Hin) as (x & Hx & Hrun).
    assert (Hans : answer = Some (Returned (Found x))).
    { apply (for_limits_first _ _ _ 0); [lia|intros; lia| |done].
      unfold ElementSearch.depth_limited_search. simpl. apply Hrun. lia. }
    split; [|done]. split; [done|]. intros _. by exists x.
  - assert (Hans : answer = Some (Returned failure)).
    { apply (for_limits_first _ _ _ (BinaryTree.height T)); [lia| | |done].
      - intros i Hi. unfold ElementSearch.depth_limited_search. simpl.
        rewrite (pass_without_value T g (1 + i) T Hnot) by lia.
        destruct (Nat.leb_spec (1 + i) (BinaryTree.height T)); [done|lia].
      - unfold ElementSearch.depth_limited_search. simpl.
        rewrite (pass_without_value T g (1 + BinaryTree.height T) T Hnot) by lia.
        destruct (Nat.leb_spec (1 + BinaryTree.height T) (BinaryTree.height T)); [lia|done]. }
    split; [|done]. split; [|done].
    intros (n & Hn & _). rewrite Hans in Hn. discriminate.
Qed.


(** ** The order in which a pass visits siblings *)

Section Order.
Context {State Action : Type}.
Variable problem : Problem State Action.

Lemma ordered_root s : ordered_frontier problem [mkNode s None None 0].
Proof.
  intros pre x post Heq par Hpar.
  destruct pre as [|? [|? ?]]; simplify_eq/=.
Qed.

Lemma ordered_pop node rest :
  is_goal problem (state node) = false →
  ordered_frontier problem (node :: rest) → ordered_frontier problem rest.
Proof.
  intros Hgoal Hord pre x post -> par Hpar.
  destruct (Hord (node :: pre) x post eq_refl par Hpar) as (l1 & l2 & Hexp & Hl2).
  exists l1, l2. split; [done|]. intros y Hy.
  destruct (Hl2 y Hy) as [?|Hin]; [by left|].
  apply elem_of_cons in Hin as [->|?]; auto.
Qed.

Lemma ordered_push node rest :
  ordered_frontier problem rest →
  ordered_frontier problem (reverse (expand problem node) ++ rest).
Proof.
  intros Hord pre x post Heq par Hpar.
  apply app_eq_inv in Heq as [(k & Hrev & Hk)|(k & Hpre & Hrest)].
  - destruct k as [|x' k'].
    + (* [x] was on top of the frontier before *)
      rewrite app_nil_r in Hrev. simpl in Hk. subst rest.
      destruct (Hord [] x post eq_refl par Hpar) as (l1 & l2 & Hexp & Hl2).
      exists l1, l2. split; [done|]. intros y Hy.
      destruct (Hl2 y Hy) as [?|Hin]; [by left|by apply elem_of_nil in Hin].
    + (* [x] is one of the children just pushed *)
      simpl in Hk. injection Hk as <- _.
      assert (Hexp : expand problem node = reverse k' ++ x :: reverse pre).
      { rewrite <- (reverse_involutive (expand problem node)), Hrev.
        by rewrite reverse_app, reverse_cons, <- app_assoc. }
      assert (par = node) as ->.
      { assert (Hin : x ∈ expand problem node).
        { rewrite Hexp. apply elem_of_app. right. apply elem_of_cons. by left. }
        apply expand_parent in Hin. congruence. }
      exists (reverse k'), (reverse pre). split; [done|].
      intros y Hy. right. by apply elem_of_reverse.
  - (* [x] was further down the frontier before *)
    destruct (Hord k x post Hrest par Hpar) as (l1 & l2 & Hexp & Hl2).
    exists l1, l2. split; [done|]. intros y Hy.
    destruct (Hl2 y Hy) as [?|Hin]; [by left|].
    right. rewrite Hpre. apply elem_of_app. by right.
Qed.

Lemma ordered_top x post :
  ordered_frontier problem (x :: post) → last_goal_sibling problem x.
Proof.
  intros Hord par Hpar.
  destruct (Hord [] x post eq_refl par Hpar) as (l1 & l2 & Hexp & Hl2).
  exists l1, l2. split; [done|]. intros y Hy.
  destruct (Hl2 y Hy) as [?|Hin]; [done|by apply elem_of_nil in Hin].
Qed.
End Order.

(** ** Passes and drivers of element_search.py, any problem *)

Section ElementSearchFacts.
Context {State Action : Type}.
Variable problem : Problem State Action.
Variable limit : nat.

Lemma element_body_unfold node rest res :
  ElementSearch.dls_body problem limit (node :: rest, res) =
  if is_goal problem (state node) then inr (Found node)
  else inl (reverse (expand problem node) ++ rest,
            if limit <=? len node then cutoff else res).
Proof. simpl. by rewrite append_all_rev. Qed.

(** What a pass hands back as a node is a goal, and the last goal among
    its siblings. *)
Lemma element_pass_found fuel x :
  ElementSearch.depth_limited_search fuel problem limit = Some (Found x) →
  is_goal problem (state x) = true ∧ last_goal_sibling problem x.
Proof.
  unfold ElementSearch.depth_limited_search. intros Hrun.
  refine (while_invariant (ElementSearch.dls_body problem limit)
    (λ st, ordered_frontier problem st.1 ∧ ∀ n, st.2 ≠ Found n)
    (λ o, ∀ n, o = Found n →
       is_goal problem (state n) = true ∧ last_goal_sibling problem n)
    _ _ fuel _ _ _ Hrun x eq_refl).
  - intros [fr res] s' [Hord Hres]. destruct fr as [|node rest]; [done|].
    rewrite element_body_unfold.
    destruct (is_goal problem (state node)) eqn:Hg; [done|].
    intros [= <-]. simpl. split.
    + apply ordered_push. by eapply ordered_pop.
    + intros n. by destruct (limit <=? len node).
  - intros [fr res] r [Hord Hres]. destruct fr as [|node rest].
    + simpl. intros [= <-] n Hn. by destruct (Hres n).
    + rewrite element_body_unfold.
      destruct (is_goal problem (state node)) eqn:Hg; [|done].
      intros [= <-] n [= <-]. split; [done|]. by eapply ordered_top.
  - simpl. split; [apply ordered_root|done].
Qed.
End ElementSearchFacts.


Section SearchTreeFacts.
Context {State Action : Type}.
Variable problem : Problem State Action.

Lemma replay_snoc s acts a :
  replay problem s (acts ++ [a]) =
  replay problem s acts ++
    [result problem (fold_left (result problem) acts s) a].
Proof.
  revert s. induction acts as [|b acts IH]; intros s; simpl; [done|].
  by rewrite IH.
Qed.

Lemma expand_inv node child :
  child ∈ expand problem node →
  ∃ a, a ∈ actions problem (state node) ∧
    child = mkNode (result problem (state node) a) (Some node) (Some a)
              (path_cost node +
               action_cost problem (state node) a (result problem (state node) a)).
Proof.
  unfold expand. intros Hin. apply list_elem_of_fmap in Hin.
  destruct Hin as (a & -> & Ha). by exists a.
Qed.

(** Walking the parent chain of a node of the search tree gives back the
    actions that lead to it from the initial state. *)
Lemma in_search_tree_replay node :
  in_search_tree problem node →
  fold_left (result problem) (recorded_actions node) (initial problem) = state node ∧
  length (recorded_actions node) = len node.
Proof.
  induction 1 as [|par child Hpar [IH1 IH2] Hchild]; [done|].
  apply expand_inv in Hchild as (a & Ha & ->). simpl.
  rewrite fold_left_app, length_app, IH1, IH2. simpl. split; [done|lia].
Qed.

Lemma chains_bounded_S d s :
  chains_bounded problem d s → chains_bounded problem (S d) s.
Proof.
  revert s. induction d as [|d IH]; intros s H.
  - simpl in *. rewrite H. intros a Ha. by apply elem_of_nil in Ha.
  - intros a Ha. apply IH. by apply H.
Qed.

Lemma chains_bounded_le d d' s :
  d ≤ d' → chains_bounded problem d s → chains_bounded problem d' s.
Proof. induction 1; auto using chains_bounded_S. Qed.

(** A finite space has a deepest level. *)
Lemma finite_below_bounded s :
  finite_below problem s → ∃ d, chains_bounded problem d s.
Proof.
  induction 1 as [s _ IH].
  assert (Hall : ∀ acts : list Action, (∀ a, a ∈ acts → a ∈ actions problem s) →
            ∃ d, ∀ a, a ∈ acts → chains_bounded problem d (result problem s a)).
  { induction acts as [|a acts IHacts]; intros Hsub.
    - exists 0. intros a Ha. by apply elem_of_nil in Ha.
    - destruct IHacts as [d1 Hd1].
      { intros b Hb. apply Hsub, elem_of_cons. by right. }
      destruct (IH a) as [d2 Hd2].
      { apply Hsub, elem_of_cons. by left. }
      exists (d1 `max` d2). intros b Hb. apply elem_of_cons in Hb as [->|Hb].
      + eapply chains_bounded_le; [|exact Hd2]. lia.
      + eapply chains_bounded_le; [|exact (Hd1 b Hb)]. lia. }
  destruct (Hall (actions problem s)) as [d Hd]; [done|].
  exists (S d). exact Hd.
Qed.
End SearchTreeFacts.

(** ** Passes of file_system_search.py, any problem *)

Section FileSystemSearchFacts.
Context {State Action : Type}.
Variable problem : Problem State Action.
Variable limit : nat.

Local Abbreviation body := (FileSystemSearch.dls_body problem limit).

Lemma file_body_unfold node rest res :
  body (node :: rest, res) =
  if is_goal problem (state node) then inr (Found node)
  else if limit <=? len node then inl (rest, cutoff)
  else inl (reverse (expand problem node) ++ rest, res).
Proof. simpl. by rewrite append_all_rev. Qed.

Lemma file_frontier_ok_init :
  (file_frontier_ok problem limit) ([mkNode (initial problem) None None 0], failure).
Proof.
  split; [|split; [apply ordered_root|done]].
  intros n Hn. apply list_elem_of_singleton in Hn as ->.
  split; [constructor|simpl; lia].
Qed.

Lemma file_frontier_ok_step st st' :
  (file_frontier_ok problem limit) st → body st = inl st' → (file_frontier_ok problem limit) st'.
Proof.
  destruct st as [[|node rest] res]; [done|].
  intros (Hfr & Hord & Hres). rewrite file_body_unfold.
  destruct (is_goal problem (state node)) eqn:Hg; [done|].
  assert (Hrest : ∀ n, n ∈ rest → in_search_tree problem n ∧ len n ≤ limit).
  { intros n Hn. apply Hfr. simpl. apply elem_of_cons. by right. }
  destruct (Nat.leb_spec limit (len node)) as [Hle|Hlt]; intros [= <-].
  - split; [done|]. split; [by eapply ordered_pop|done].
  - split; [|split; [apply ordered_push; by eapply ordered_pop|done]].
    simpl. intros n Hn. apply elem_of_app in Hn as [Hn|Hn]; [|by apply Hrest].
    rewrite elem_of_reverse in Hn.
    destruct (Hfr node) as [Htree _]; [simpl; apply elem_of_cons; by left|].
    split; [by apply (in_tree_child problem node)|]. rewrite (expand_len _ _ _ Hn). lia.
Qed.

(** The node a gated pass returns is a goal, a node of the search tree, at
    depth at most [limit], and the last goal among its siblings. *)
Lemma file_pass_found fuel x :
  FileSystemSearch.depth_limited_search fuel problem limit = Some (Found x) →
  is_goal problem (state x) = true ∧ in_search_tree problem x ∧
  len x ≤ limit ∧ last_goal_sibling problem x.
Proof.
  unfold FileSystemSearch.depth_limited_search. intros Hrun.
  refine (while_invariant body (file_frontier_ok problem limit)
    (λ o, ∀ n, o = Found n →
       is_goal problem (state n) = true ∧ in_search_tree problem n ∧
       len n ≤ limit ∧ last_goal_sibling problem n)
    file_frontier_ok_step _ fuel _ _ file_frontier_ok_init Hrun x eq_refl).
  intros [[|node rest] res] r (Hfr & Hord & Hres).
  - simpl. intros [= <-] n Hn. by destruct (Hres n).
  - rewrite file_body_unfold.
    destruct (is_goal problem (state node)) eqn:Hg.
    + intros [= <-] n [= <-].
      destruct (Hfr node) as [Htree Hlen]; [simpl; apply elem_of_cons; by left|].
      repeat split; try done. by eapply ordered_top.
    + by destruct (limit <=? len node).
Qed.

(** The loop with its stack does what the recursive descent does. *)
Lemma visit_refines k :
  ∀ node rest res, limit = len node + k →
    ∃ steps, ∀ f,
      while body (steps + f) (node :: rest, res) =
      match visit problem k node res with
      | inl res' => while body f (rest, res')
      | inr o => Some o
      end.
Proof.
  induction k as [|k IH]; intros node rest res Hk.
  - exists 1. intros f. cbn [Nat.add while]. rewrite file_body_unfold. simpl.
    destruct (is_goal problem (state node)); [done|].
    by destruct (Nat.leb_spec limit (len node)); [|lia].
  - assert (Hall : ∀ nodes rest res,
              (∀ c, c ∈ nodes → len c = S (len node)) →
              ∃ steps, ∀ f,
                while body (steps + f) (nodes ++ rest, res) =
                match visit_all (visit problem k) nodes res with
                | inl res' => while body f (rest, res')
                | inr o => Some o
                end).
    { clear rest res. induction nodes as [|c nodes IHnodes]; intros rest res Hlen.
      - exists 0. done.
      - destruct (IH c (nodes ++ rest) res) as [s1 Hs1].
        { rewrite (Hlen c) by (apply elem_of_cons; by left). lia. }
        simpl visit_all. destruct (visit problem k c res) as [res'|o] eqn:Hv.
        + destruct (IHnodes rest res') as [s2 Hs2].
          { intros c' Hc'. apply Hlen, elem_of_cons. by right. }
          exists (s1 + s2). intros f. rewrite <- Nat.add_assoc.
          simpl app. by rewrite Hs1, Hs2.
        + exists s1. intros f. simpl app. by rewrite Hs1. }
    destruct (Hall (reverse (expand problem node)) rest res) as [steps Hsteps].
    { intros c Hc. rewrite elem_of_reverse in Hc. by eapply expand_len. }
    exists (S steps). intros f. cbn [Nat.add while]. rewrite file_body_unfold.
    simpl visit. destruct (is_goal problem (state node)); [done|].
    destruct (Nat.leb_spec limit (len node)); [lia|]. apply Hsteps.
Qed.

(** A gated pass always ends, whatever the problem, and returns
    [pass_result]. *)
Lemma file_pass_total :
  ∃ fuel0, ∀ fuel, fuel0 ≤ fuel →
    FileSystemSearch.depth_limited_search fuel problem limit =
    Some (pass_result problem limit).
Proof.
  destruct (visit_refines limit (mkNode (initial problem) None None 0) [] failure)
    as [steps Hsteps]; [done|].
  exists (S steps). intros fuel Hfuel.
  unfold FileSystemSearch.depth_limited_search, pass_result.
  replace fuel with (steps + S (fuel - S steps)) by lia.
  rewrite Hsteps. by destruct (visit problem limit _ failure).
Qed.
End FileSystemSearchFacts.

(** ** The driver of file_system_search.py on finite spaces *)

Section FileSystemDriverFacts.
Context {State Action : Type}.
Variable problem : Problem State Action.

(** With more levels left than the space has, the descent prunes
    nothing: the recorded result is left as it was. *)
Lemma visit_no_cutoff k :
  ∀ d node res res',
    chains_bounded problem d (state node) → d < k →
    visit problem k node res = inl res' → res' = res.
Proof.
  induction k as [|k IH]; intros d node res res' Hd Hlt; [lia|].
  simpl. destruct (is_goal problem (state node)); [done|].
  assert (Hall : ∀ nodes res res',
            (∀ c, c ∈ nodes → c ∈ expand problem node) →
            visit_all (visit problem k) nodes res = inl res' → res' = res).
  { induction nodes as [|c nodes IHnodes]; intros r r' Hsub; simpl.
    - congruence.
    - destruct (visit problem k c r) as [r1|] eqn:Hv; [|done].
      intros Hrest. apply IHnodes in Hrest.
      2:{ intros c' Hc'. apply Hsub, elem_of_cons. by right. }
      subst r'.
      destruct (expand_inv problem node c) as (a & Ha & ->).
      { apply Hsub, elem_of_cons. by left. }
      destruct d as [|d].
      + simpl in Hd. rewrite Hd in Ha. by apply elem_of_nil in Ha.
      + eapply (IH d); [|lia|exact Hv]. simpl. by apply Hd. }
  apply Hall. intros c Hc. by rewrite elem_of_reverse in Hc.
Qed.

(** What the descent returns from inside a subtree is a node. *)
Lemma visit_returns_node k :
  ∀ node res o, visit problem k node res = inr o → ∃ n, o = Found n.
Proof.
  induction k as [|k IH]; intros node res o; simpl;
    destruct (is_goal problem (state node)); try (intros [= <-]; by eexists);
    try done.
  generalize (reverse (expand problem node)). intros nodes. revert res.
  induction nodes as [|c nodes IHnodes]; intros res; simpl; [done|].
  destruct (visit problem k c res) as [r1|o1] eqn:Hc; [by apply IHnodes|].
  intros [= <-]. by eapply IH.
Qed.

Lemma pass_result_beyond_depth d limit :
  chains_bounded problem d (initial problem) → d < limit →
  pass_result problem limit ≠ cutoff.
Proof.
  intros Hd Hlt. unfold pass_result.
  destruct (visit problem limit _ failure) as [res|o] eqn:Hv.
  - eapply visit_no_cutoff in Hv; [|exact Hd|exact Hlt]. by subst.
  - apply visit_returns_node in Hv as [n ->]. done.
Qed.

(** One amount of fuel is enough for all the passes up to a limit. *)
Lemma file_passes_total L :
  ∃ fuel0, ∀ limit fuel, limit ≤ L → fuel0 ≤ fuel →
    FileSystemSearch.depth_limited_search fuel problem limit =
    Some (pass_result problem limit).
Proof.
  induction L as [|L [F HF]].
  - destruct (file_pass_total problem 0) as [F HF]. exists F.
    intros limit fuel Hl Hfuel. replace limit with 0 by lia. by apply HF.
  - destruct (file_pass_total problem (S L)) as [F' HF'].
    exists (F `max` F'). intros limit fuel Hl Hfuel.
    destruct (decide (limit = S L)) as [->|Hne].
    + apply HF'. lia.
    + apply HF; lia.
Qed.

(** Among the results of the passes there is a first one that is not a
    cutoff, as soon as there is one at all. *)
Lemma first_not_cutoff (pass : nat → Outcome State Action) lo n :
  pass (lo + n) ≠ cutoff →
  ∃ k, k ≤ n ∧ pass (lo + k) ≠ cutoff ∧ ∀ i, i < k → pass (lo + i) = cutoff.
Proof.
  revert lo. induction n as [|n IH]; intros lo Hn.
  - exists 0. split; [lia|]. split; [done|]. intros i Hi. lia.
  - destruct (is_cutoff (pass lo)) eqn:Hc.
    + destruct (IH (S lo)) as (k & Hk & Hne & Hbefore).
      { by replace (S lo + n) with (lo + S n) by lia. }
      exists (S k). split; [lia|]. split.
      * by replace (lo + S k) with (S lo + k) by lia.
      * intros [|i] Hi.
        -- rewrite Nat.add_0_r. by destruct (pass lo).
        -- replace (lo + S i) with (S lo + i) by lia. apply Hbefore. lia.
    + exists 0. split; [lia|]. rewrite Nat.add_0_r. split.
      * intros Heq. by rewrite Heq in Hc.
      * intros i Hi. lia.
Qed.
End FileSystemDriverFacts.

Section Drivers.
Context {State Action : Type}.
Variable problem : Problem State Action.

Lemma returned_goal_or_failure (r : Outcome State Action) :
  r ≠ cutoff →
  (∀ n, r = Found n → is_goal problem (state n) = true) →
  r = failure ∨ ∃ n, r = Found n ∧ is_goal problem (state n) = true.
Proof. destruct r as [n| |]; intros Hne Hgoal; [right|by left|done]. eauto. Qed.

(** In a pass with a limit beyond the depth of the space no node is
    pruned: the recorded result stays [failure] all along. *)
Lemma file_pass_never_prunes d limit k frontier res :
  chains_bounded problem d (initial problem) → d < limit →
  iterate (FileSystemSearch.dls_body problem limit) k
    ([mkNode (initial problem) None None 0], failure) = inl (frontier, res) →
  res = failure.
Proof.
  intros Hd Hlt Hit.
  refine (proj2 (iterate_invariant (FileSystemSearch.dls_body problem limit)
    (λ st, (∀ n, n ∈ st.1 →
              ∃ e, chains_bounded problem e (state n) ∧ len n + e ≤ d) ∧
           st.2 = failure) _ k _ _ _ Hit)).
  - intros [[|node rest] r] st' [Hfr Hr]; [done|]. simpl in Hr. subst r.
    rewrite file_body_unfold.
    destruct (is_goal problem (state node)); [done|].
    destruct (Hfr node) as (e & He & Hlen); [simpl; apply elem_of_cons; by left|].
    destruct (Nat.leb_spec limit (len node)); [lia|]. intros [= <-].
    split; [|done]. simpl. intros n Hn.
    apply elem_of_app in Hn as [Hn|Hn].
    + rewrite elem_of_reverse in Hn.
      rewrite (expand_len _ _ _ Hn).
      apply expand_inv in Hn as (a & Ha & ->). simpl.
      destruct e as [|e].
      * simpl in He. rewrite He in Ha. by apply elem_of_nil in Ha.
      * exists e. split; [by apply He|lia].
    + apply Hfr. simpl. apply elem_of_cons. by right.
  - split; [|done]. simpl. intros n Hn.
    apply list_elem_of_singleton in Hn as ->. exists d. split; [done|simpl; lia].
Qed.
End Drivers.

(** C8: the cutoff sentinel never reaches the caller of the driver.  What
    the drivers of element_search.py and file_system_search.py return from
    a pass is the failure sentinel or a node whose state is a goal. *)
Theorem cutoff_never_surfaced {State Action : Type} (maxsize fuel : nat)
    (problem : Problem State Action) (r : Outcome State Action) :
  ElementSearch.iterative_deepening_search maxsize fuel problem = Some (Returned r) ∨
  FileSystemSearch.iterative_deepening_search maxsize fuel problem = Some (Returned r) →
  r ≠ cutoff ∧
  (r = failure ∨ ∃ n, r = Found n ∧ is_goal problem (state n) = true).
Proof.
  intros [Hret|Hret].
  - pose proof (for_limits_not_cutoff _ _ _ _ Hret) as Hne.
    split; [done|]. apply returned_goal_or_failure; [done|]. intros n ->.
    apply for_limits_returned in Hret as (k & _ & Hpass & _).
    by apply element_pass_found in Hpass as [? _].
  - pose proof (for_limits_not_cutoff _ _ _ _ Hret) as Hne.
    split; [done|]. apply returned_goal_or_failure; [done|]. intros n ->.
    apply for_limits_returned in Hret as (k & _ & Hpass & _).
    by apply file_pass_found in Hpass as [? _].
Qed.

(** Without the recursion limit: on a finite space of depth [D] a pass
    with a limit beyond [D] prunes nothing, and the driver of
    file_system_search.py returns the result of the first pass that does
    not end in a cutoff, which comes at a limit of at most [D + 1]. *)
Lemma unlimited_file_driver_terminates {State Action : Type} (maxsize : nat)
    (problem : Problem State Action) :
  finite_below problem (initial problem) →
  (∃ D, chains_bounded problem D (initial problem)) ∧
  ∀ D, chains_bounded problem D (initial problem) → D + 2 ≤ maxsize →
    (∀ limit k frontier res, D < limit →
       iterate (FileSystemSearch.dls_body problem limit) k
         ([mkNode (initial problem) None None 0], failure) = inl (frontier, res) →
       res = failure) ∧
    ∃ L r, 1 ≤ L ≤ D + 1 ∧ r ≠ cutoff ∧
      (r = failure ∨ ∃ n, r = Found n ∧ is_goal problem (state n) = true) ∧
      ∃ fuel0, ∀ fuel, fuel0 ≤ fuel →
        FileSystemSearch.depth_limited_search fuel problem L = Some r ∧
        (∀ limit, 1 ≤ limit < L →
           FileSystemSearch.depth_limited_search fuel problem limit = Some cutoff) ∧
        FileSystemSearch.iterative_deepening_search maxsize fuel problem =
        Some (Returned r).
Proof.
  intros Hfin. split; [by apply finite_below_bounded|].
  intros D HD Hmax. split.
  { intros limit k frontier res Hlt Hit. by eapply file_pass_never_prunes. }
  destruct (first_not_cutoff (pass_result problem) 1 D) as (k & Hk & Hne & Hbefore).
  { eapply pass_result_beyond_depth; [exact HD|lia]. }
  destruct (file_passes_total problem (D + 1)) as [F HF].
  exists (1 + k), (pass_result problem (1 + k)).
  split; [lia|]. split; [done|].
  assert (Hpass : ∀ fuel, F ≤ fuel →
            FileSystemSearch.depth_limited_search fuel problem (1 + k) =
            Some (pass_result problem (1 + k))).
  { intros fuel Hfuel. apply HF; lia. }
  split.
  { apply returned_goal_or_failure; [done|]. intros n Hn.
    specialize (Hpass F (Nat.le_refl _)). rewrite Hn in Hpass.
    by apply file_pass_found in Hpass as [? _]. }
  exists F. intros fuel Hfuel. split; [by apply Hpass|]. split.
  - intros limit Hlimit. rewrite HF by lia.
    replace limit with (1 + (limit - 1)) by lia. rewrite Hbefore by lia. done.
  - apply (for_limits_first _ _ _ k); [lia| |by apply Hpass|done].
    intros i Hi. rewrite HF by lia. by rewrite Hbefore.
Qed.

(** ** Paths of file_system_search.py *)

Section Paths.
Context {State Action : Type}.
Variable problem : Problem State Action.

Lemma actions_available_snoc s acts a :
  actions_available problem s acts →
  a ∈ actions problem (fold_left (result problem) acts s) →
  actions_available problem s (acts ++ [a]).
Proof.
  revert s. induction acts as [|b acts IH]; intros s; simpl; [done|].
  intros [Hb Hrest] Ha. split; [done|]. by apply IH.
Qed.

Lemma in_search_tree_actions node :
  in_search_tree problem node →
  actions_available problem (initial problem) (recorded_actions node).
Proof.
  induction 1 as [|par child Hpar IH Hchild]; [done|].
  destruct (in_search_tree_replay problem par Hpar) as [Hstate _].
  apply expand_inv in Hchild as (a & Ha & ->). simpl.
  apply actions_available_snoc; [done|]. by rewrite Hstate.
Qed.
End Paths.

Lemma path_states_replay {Action : Type}
    (problem : Problem FileSystemSearch.TreeNode Action)
    (node : Node FileSystemSearch.TreeNode Action) :
  in_search_tree problem node →
  FileSystemSearch.path_states node =
  map FileSystemSearch.value
    (replay problem (initial problem) (recorded_actions node)).
Proof.
  induction 1 as [|par child Hpar IH Hchild]; [done|].
  destruct (in_search_tree_replay problem par Hpar) as [Hstate _].
  apply expand_inv in Hchild as (a & Ha & ->). simpl.
  rewrite IH, replay_snoc, map_app, Hstate. done.
Qed.

(** C7: for a node the search of file_system_search.py returns,
    path_states is the sequence of the states (their values) passed through
    from the initial state when the recorded actions are applied in turn;
    each of these actions was available where it was taken, there are as
    many as the node is deep, and applying them to the initial state gives
    the state of the node. *)
Theorem path_states_round_trip {Action : Type} (maxsize fuel limit : nat)
    (problem : Problem FileSystemSearch.TreeNode Action)
    (node : Node FileSystemSearch.TreeNode Action) :
  FileSystemSearch.depth_limited_search fuel problem limit = Some (Found node) ∨
  FileSystemSearch.iterative_deepening_search maxsize fuel problem =
    Some (Returned (Found node)) →
  FileSystemSearch.path_states node =
    map FileSystemSearch.value
      (replay problem (initial problem) (recorded_actions node)) ∧
  actions_available problem (initial problem) (recorded_actions node) ∧
  length (recorded_actions node) = len node ∧
  fold_left (result problem) (recorded_actions node) (initial problem) =
    state node.
Proof.
  intros Hret.
  assert (Htree : in_search_tree problem node).
  { destruct Hret as [Hpass|Hdrv].
    - by apply file_pass_found in Hpass as (_ & ? & _).
    - apply for_limits_returned in Hdrv as (k & _ & Hpass & _).
      by apply file_pass_found in Hpass as (_ & ? & _). }
  destruct (in_search_tree_replay problem node Htree) as [Hstate Hlen].
  split; [by apply path_states_replay|].
  split; [by apply in_search_tree_actions|]. done.
Qed.

(** ** The depth bound *)

Section DepthBound.
Context {State Action : Type}.
Variable problem : Problem State Action.
Variable limit : nat.

(** In file_system_search.py every node that is ever on the frontier is at
    depth at most [limit]. *)
Lemma file_frontier_within_limit k frontier res :
  iterate (FileSystemSearch.dls_body problem limit) k
    ([mkNode (initial problem) None None 0], failure) = inl (frontier, res) →
  ∀ n, n ∈ frontier → len n ≤ limit.
Proof.
  intros Hit n Hn.
  pose proof (iterate_invariant _ _ (file_frontier_ok_step problem limit)
                k _ _ (file_frontier_ok_init problem limit) Hit) as (Hfr & _).
  by apply Hfr.
Qed.

(** There a node at the limit is dropped without being expanded. *)
Lemma file_node_at_limit_not_expanded node rest res :
  is_goal problem (state node) = false → limit ≤ len node →
  FileSystemSearch.dls_body problem limit (node :: rest, res) = inl (rest, cutoff).
Proof.
  intros Hg Hle. rewrite file_body_unfold, Hg.
  by destruct (Nat.leb_spec limit (len node)); [|lia].
Qed.

(** There a pass with a limit below the depth of the shallowest goal
    returns no node. *)
Lemma file_pass_below_goal_depth d fuel n :
  (∀ x, in_search_tree problem x → is_goal problem (state x) = true → d ≤ len x) →
  limit < d →
  FileSystemSearch.depth_limited_search fuel problem limit ≠ Some (Found n).
Proof.
  intros Hd Hlt Hpass.
  apply file_pass_found in Hpass as (Hg & Htree & Hlen & _).
  specialize (Hd n Htree Hg). lia.
Qed.

(** With a goal for initial state both passes return the root. *)
Lemma pass_on_goal_root fuel :
  is_goal problem (initial problem) = true →
  ElementSearch.depth_limited_search (S fuel) problem limit =
    Some (Found (mkNode (initial problem) None None 0)) ∧
  FileSystemSearch.depth_limited_search (S fuel) problem limit =
    Some (Found (mkNode (initial problem) None None 0)).
Proof.
  intros Hg. unfold ElementSearch.depth_limited_search,
    FileSystemSearch.depth_limited_search. simpl. by rewrite Hg.
Qed.
End DepthBound.

(** In file_system_search.py the pass with limit 0 on an initial state
    that is no goal is cut off. *)
Lemma file_pass_limit_zero {State Action : Type}
    (problem : Problem State Action) fuel :
  is_goal problem (initial problem) = false →
  FileSystemSearch.depth_limited_search (S (S fuel)) problem 0 = Some cutoff.
Proof.
  intros Hg. unfold FileSystemSearch.depth_limited_search. simpl. by rewrite Hg.
Qed.

(** In file_system_search.py the driver returns a goal from a pass whose
    limit is at least the depth of the shallowest goal. *)
Lemma file_driver_limit_reaches_goal {State Action : Type}
    (problem : Problem State Action) maxsize fuel d n :
  (∀ x, in_search_tree problem x → is_goal problem (state x) = true → d ≤ len x) →
  FileSystemSearch.iterative_deepening_search maxsize fuel problem =
    Some (Returned (Found n)) →
  ∃ limit, d ≤ limit ∧
    FileSystemSearch.depth_limited_search fuel problem limit = Some (Found n).
Proof.
  intros Hd Hdrv.
  apply for_limits_returned in Hdrv as (k & _ & Hpass & _).
  exists (1 + k). split; [|done].
  destruct (decide (d ≤ 1 + k)) as [|Hlt]; [done|].
  exfalso. eapply file_pass_below_goal_depth; [exact Hd| |exact Hpass]. lia.
Qed.

(** ** element_search.py on the tree of its main *)

Lemma for_limits_more_limits {State Action : Type}
    (pass : nat → option (Outcome State Action)) count count' limit r :
  for_limits pass count limit = Some (Returned r) → count ≤ count' →
  for_limits pass count' limit = Some (Returned r).
Proof.
  intros Hret Hle.
  pose proof (for_limits_not_cutoff _ _ _ _ Hret) as Hne.
  apply for_limits_returned in Hret as (k & Hk & Hpass & Hbefore).
  apply (for_limits_first _ _ _ k); [lia|done..].
Qed.

(** C2, at the input where element_search.py breaks it: in the pass with
    limit 1 on the tree of main the node 9, at depth 2, is expanded, and
    after four turns of the loop its child 4, at depth 3, is on top of the
    frontier. *)
Theorem element_search_expands_past_limit :
  ∃ node rest res,
    iterate (ElementSearch.dls_body
               (ElementSearch.UserSearchProblem ElementSearch.main_root 99) 1) 4
      ([mkNode ElementSearch.main_root None None 0], failure) =
      inl (node :: rest, res) ∧
    ElementSearch.value (state node) = 4%Z ∧
    len node = 3 ∧
    (len <$> parent node) = Some 2.
Proof. do 3 eexists. split; [vm_compute; reflexivity|]. done. Qed.

(** C3, at the input where element_search.py breaks it: the goal 4 occurs
    in the tree of main at depth 3 only, and the pass with limit 1 returns
    it; the driver returns from that pass, its first. *)
Theorem element_search_match_below_limit :
  BinaryTree.depths_of 4 0 ElementSearch.main_root = [3] ∧
  ∃ node,
    ElementSearch.depth_limited_search 10
      (ElementSearch.UserSearchProblem ElementSearch.main_root 4) 1 =
      Some (Found node) ∧
    ElementSearch.value (state node) = 4%Z ∧
    len node = 3 ∧
    ElementSearch.iterative_deepening_search sys_maxsize 10
      (ElementSearch.UserSearchProblem ElementSearch.main_root 4) =
      Some (Returned (Found node)).
Proof.
  split; [done|]. eexists. split; [vm_compute; reflexivity|].
  split; [done|]. split; [done|].
  unfold ElementSearch.iterative_deepening_search.
  apply (for_limits_more_limits _ 1); [vm_compute; reflexivity|].
  pose proof sys_maxsize_large. lia.
Qed.

(** C6, at the input where element_search.py breaks it: on the tree of
    main with goal 2 the initial state is no goal and has two actions, and
    the pass with limit 0 returns the node of 2 instead of the cutoff
    sentinel. *)
Theorem element_search_limit_zero_finds_goal :
  let problem := ElementSearch.UserSearchProblem ElementSearch.main_root 2 in
  is_goal problem (initial problem) = false ∧
  length (actions problem (initial problem)) = 2 ∧
  ∃ node,
    ElementSearch.depth_limited_search 10 problem 0 = Some (Found node) ∧
    ElementSearch.value (state node) = 2%Z ∧ len node = 1.
Proof.
  split; [done|]. split; [done|]. eexists. split; [vm_compute; reflexivity|done].
Qed.

(** C5: in a pass of element_search.py the children of the node popped go
    on top of the frontier in the reverse of the order of [actions]; so the
    child pushed last is the next node popped, and is returned if it is a
    goal; and a node a pass returns is the last goal among its siblings: no
    child that comes later in the order of [actions] is a goal. *)
Theorem siblings_visited_in_reverse {State Action : Type}
    (problem : Problem State Action) (limit : nat) :
  (∀ node rest res,
     ElementSearch.dls_body problem limit (node :: rest, res) =
     if is_goal problem (state node) then inr (Found node)
     else inl (reverse (expand problem node) ++ rest,
               if limit <=? len node then cutoff else res)) ∧
  (∀ node rest res children last fuel,
     is_goal problem (state node) = false →
     expand problem node = children ++ [last] →
     iterate (ElementSearch.dls_body problem limit) 1 (node :: rest, res) =
       inl (last :: reverse children ++ rest,
            if limit <=? len node then cutoff else res) ∧
     (is_goal problem (state last) = true →
      while (ElementSearch.dls_body problem limit) (S (S fuel)) (node :: rest, res) =
        Some (Found last))) ∧
  (∀ fuel x,
     ElementSearch.depth_limited_search fuel problem limit = Some (Found x) →
     last_goal_sibling problem x).
Proof.
  split; [apply element_body_unfold|]. split.
  - intros node rest res children last fuel Hg Hexp.
    assert (Hstep : ElementSearch.dls_body problem limit (node :: rest, res) =
              inl (last :: reverse children ++ rest,
                   if limit <=? len node then cutoff else res)).
    { rewrite element_body_unfold, Hg, Hexp, reverse_app. done. }
    split.
    + cbn [iterate]. by rewrite Hstep.
    + intros Hlast. cbn [while]. rewrite Hstep.
      rewrite element_body_unfold, Hlast. done.
  - intros fuel x Hpass. by apply element_pass_found in Hpass as [_ ?].
Qed.

Lemma siblings_visited_in_reverse_witness :
  while (ElementSearch.dls_body twin_problem 1) 2 ([twin_root_node], failure) =
    Some (Found twin_right_node) ∧
  last_goal_sibling twin_problem twin_right_node.
Proof.
  destruct (siblings_visited_in_reverse twin_problem 1) as (_ & Hlast & Hret).
  split.
  - apply (Hlast twin_root_node [] failure [twin_left_node] twin_right_node 0);
      reflexivity.
  - apply (Hret 5 twin_right_node). vm_compute. reflexivity.
Defined.

Lemma cutoff_never_surfaced_witness :
  ElementSearch.iterative_deepening_search sys_maxsize 20
    (ElementSearch.UserSearchProblem ElementSearch.main_root 99) =
    Some (Returned failure) ∧
  (failure : Outcome ElementSearch.BinaryTreeNode ElementSearch.BinaryTreeNode) ≠ cutoff ∧
  ((failure : Outcome ElementSearch.BinaryTreeNode ElementSearch.BinaryTreeNode) = failure ∨
   ∃ n : Node ElementSearch.BinaryTreeNode ElementSearch.BinaryTreeNode,
     failure = Found n ∧
     is_goal (ElementSearch.UserSearchProblem ElementSearch.main_root 99)
             (state n) = true).
Proof.
  assert (H : ElementSearch.iterative_deepening_search sys_maxsize 20
                (ElementSearch.UserSearchProblem ElementSearch.main_root 99) =
              Some (Returned failure)).
  { unfold ElementSearch.iterative_deepening_search.
    apply (for_limits_more_limits _ 9); [vm_compute; reflexivity|].
    pose proof sys_maxsize_large. lia. }
  split; [exact H|].
  exact (cutoff_never_surfaced sys_maxsize 20 _ failure (or_introl H)).
Defined.

(** ** file_system_search.py on trees of TreeNodes *)

Lemma TreeNode_induction (P : FileSystemSearch.TreeNode → Prop) :
  (∀ v cs, Forall P cs → P (FileSystemSearch.mkTreeNode v cs)) →
  ∀ t, P t.
Proof.
  intros Hnode. fix IH 1. intros [v cs]. apply Hnode.
  induction cs as [|c cs IHcs]; constructor; [apply IH|exact IHcs].
Qed.

(** A tree of TreeNodes is a finite space. *)
Lemma tree_finite_below root goal t :
  finite_below (FileSystemSearch.FileSearchProblem root goal) t.
Proof.
  induction t as [v cs IH] using TreeNode_induction.
  constructor. simpl. intros a Ha.
  rewrite Forall_forall in IH. by apply IH.
Qed.

Lemma main_solution_returned :
  FileSystemSearch.iterative_deepening_search sys_maxsize 20
    (FileSystemSearch.FileSearchProblem FileSystemSearch.main_root "file_d") =
  Some (Returned (Found main_solution)).
Proof.
  unfold FileSystemSearch.iterative_deepening_search.
  apply (for_limits_more_limits _ 5); [vm_compute; reflexivity|].
  pose proof sys_maxsize_large. lia.
Qed.

Lemma path_states_round_trip_witness :
  let problem :=
    FileSystemSearch.FileSearchProblem FileSystemSearch.main_root "file_d" in
  FileSystemSearch.path_states main_solution =
    map FileSystemSearch.value
      (replay problem (initial problem) (recorded_actions main_solution)) ∧
  actions_available problem (initial problem) (recorded_actions main_solution) ∧
  length (recorded_actions main_solution) = len main_solution ∧
  fold_left (result problem) (recorded_actions main_solution) (initial problem) =
    state main_solution.
Proof.
  exact (path_states_round_trip sys_maxsize 20 0 _ main_solution
           (or_intror main_solution_returned)).
Defined.

(** The scenario of main: the route to file_d. *)
Example main_route :
  FileSystemSearch.path_states main_solution =
  ["root"; "subdir_1"; "subdir_3"; "file_d"].
Proof. reflexivity. Qed.

(** The tree of main is three levels deep. *)
Lemma main_root_three_deep goal :
  chains_bounded
    (FileSystemSearch.FileSearchProblem FileSystemSearch.main_root goal) 3
    FileSystemSearch.main_root.
Proof.
  repeat (let a := fresh "a" in let Ha := fresh "Ha" in
          intros a Ha; simpl in Ha;
          repeat (apply elem_of_cons in Ha as [->|Ha]);
          try (by apply elem_of_nil in Ha); simpl);
    reflexivity.
Qed.


(** ** element_search.py and the objects it finds in the store *)

Module StoreFacts.
Import ElementSearchStore StoreFrame.

Lemma only_new_nodes_refl h : only_new_nodes h h.
Proof. split; [done|]. intros a o Ho Hnone. congruence. Qed.

Lemma only_new_nodes_trans h1 h2 h3 :
  only_new_nodes h1 h2 → only_new_nodes h2 h3 → only_new_nodes h1 h3.
Proof.
  intros [Hsub12 Hnew12] [Hsub23 Hnew23]. split; [by etrans|].
  intros a o Ho Hnone. destruct (h2 !! a) as [o2|] eqn:H2.
  - pose proof (lookup_weaken _ _ _ _ H2 Hsub23) as H3.
    assert (o2 = o) as -> by congruence. by eapply Hnew12.
  - by eapply Hnew23.
Qed.

Lemma new_node s p act c h a h' :
  new (NodeObj s p act c) h = (a, h') → only_new_nodes h h'.
Proof.
  unfold new. intros [= <- <-].
  assert (Hfresh : h !! fresh (dom h) = None).
  { apply not_elem_of_dom, is_fresh. }
  split; [by apply insert_subseteq|].
  intros a o Ho Hnone. destruct (decide (a = fresh (dom h))) as [->|Hne].
  - rewrite lookup_insert_eq in Ho. injection Ho as <-. by do 4 eexists.
  - rewrite lookup_insert_ne in Ho by done. congruence.
Qed.

Lemma push_child_only_new node cost h frontier action :
  only_new_nodes h (push_child node cost (h, frontier) action).1.
Proof.
  unfold push_child.
  destruct (new (NodeObj action (Some node) (Some action) (cost + 1)) h)
    as [child h'] eqn:Hnew.
  simpl. by eapply new_node.
Qed.

Lemma push_children_only_new node cost acts h frontier :
  only_new_nodes h (fold_left (push_child node cost) acts (h, frontier)).1.
Proof.
  revert h frontier.
  induction acts as [|a acts IH]; intros h frontier; cbn [fold_left].
  - apply only_new_nodes_refl.
  - pose proof (push_child_only_new node cost h frontier a) as H.
    destruct (push_child node cost (h, frontier) a) as [h1 fr1].
    eapply only_new_nodes_trans; [exact H|apply IH].
Qed.

(** One turn of the loop. *)
Lemma dls_body_only_new problem limit h frontier res :
  only_new_nodes h (store_of (dls_body problem limit (h, frontier, res))).
Proof.
  unfold dls_body.
  destruct frontier as [|node frontier]; [apply only_new_nodes_refl|].
  destruct (h !! node) as [[| |s p act cost]|]; try apply only_new_nodes_refl.
  destruct (is_goal h problem s) as [[|]|]; try apply only_new_nodes_refl.
  destruct (len (S (size h)) h node) as [depth|]; [|apply only_new_nodes_refl].
  destruct (actions h s) as [acts|]; [|apply only_new_nodes_refl].
  pose proof (push_children_only_new node cost acts h frontier) as H.
  destruct (fold_left (push_child node cost) acts (h, frontier)) as [h' fr'].
  exact H.
Qed.

Lemma iterate_only_new problem limit k h frontier res :
  only_new_nodes h
    (store_of (iterate (dls_body problem limit) k (h, frontier, res))).
Proof.
  revert h frontier res.
  induction k as [|k IH]; intros h frontier res; cbn [iterate].
  - apply only_new_nodes_refl.
  - pose proof (dls_body_only_new problem limit h frontier res) as Hstep.
    destruct (dls_body problem limit (h, frontier, res))
      as [[[h' fr'] res']|[h' e]]; cbn [store_of] in *.
    + eapply only_new_nodes_trans; [exact Hstep|apply IH].
    + done.
Qed.

Lemma iterate_split {St Res} (body : St → St + Res) k j s :
  iterate body (k + j) s =
  match iterate body k s with
  | inl s' => iterate body j s'
  | inr r => inr r
  end.
Proof.
  revert s. induction k as [|k IH]; intros s; simpl; [done|].
  destruct (body s); [apply IH|done].
Qed.

Lemma pass_only_new fuel h problem limit :
  only_new_nodes h (store_of (depth_limited_search fuel h problem limit)).
Proof.
  unfold depth_limited_search.
  destruct (h !! problem) as [[|initial goal|]|]; try apply only_new_nodes_refl.
  destruct (new (NodeObj initial None None 0) h) as [root h1] eqn:Hnew.
  eapply only_new_nodes_trans; [by eapply new_node|].
  apply iterate_only_new.
Qed.

Lemma pass_only_new_later fuel extra h problem limit :
  only_new_nodes (store_of (depth_limited_search fuel h problem limit))
                 (store_of (depth_limited_search (fuel + extra) h problem limit)).
Proof.
  unfold depth_limited_search.
  destruct (h !! problem) as [[|initial goal|]|]; try apply only_new_nodes_refl.
  destruct (new (NodeObj initial None None 0) h) as [root h1].
  rewrite iterate_split.
  destruct (iterate (dls_body problem limit) fuel (h1, [root], RefFailure))
    as [st|[h2 e]]; [|apply only_new_nodes_refl].
  destruct st as [[h2 fr] res]. apply iterate_only_new.
Qed.

Lemma driver_only_new fuel h problem count limit :
  only_new_nodes h (for_limits fuel h problem count limit).1.
Proof.
  revert h limit. induction count as [|count IH]; intros h limit; simpl.
  - apply only_new_nodes_refl.
  - pose proof (pass_only_new fuel h problem limit) as Hpass.
    destruct (depth_limited_search fuel h problem limit)
      as [[[h1 fr] res]|[h1 [[n| |]|]]]; simpl in *; try done.
    eapply only_new_nodes_trans; [exact Hpass|apply IH].
Qed.

End StoreFacts.

(** C10: a pass and the driver of element_search.py leave every object
    they find in the store as it is (the Problem, the BinaryTreeNodes, and
    the Nodes of earlier passes), a Node once constructed is not written to
    later in the pass, and all they add to the store are new Nodes.  The
    frontier is the only thing that changes, and it is not in the store. *)
Theorem search_writes_to_no_object (maxsize fuel extra : nat)
    (h : gmap ElementSearchStore.addr ElementSearchStore.Obj)
    (problem : ElementSearchStore.addr) (limit : nat) :
  StoreFrame.only_new_nodes h
    (StoreFrame.store_of
       (ElementSearchStore.depth_limited_search fuel h problem limit)) ∧
  StoreFrame.only_new_nodes
    (StoreFrame.store_of
       (ElementSearchStore.depth_limited_search fuel h problem limit))
    (StoreFrame.store_of
       (ElementSearchStore.depth_limited_search (fuel + extra) h problem limit)) ∧
  StoreFrame.only_new_nodes h
    (ElementSearchStore.iterative_deepening_search maxsize fuel h problem).1.
Proof.
  split; [apply StoreFacts.pass_only_new|].
  split; [apply StoreFacts.pass_only_new_later|].
  apply StoreFacts.driver_only_new.
Qed.

(** ** rights_search.py *)


(** C4, at an input where rights_search.py breaks it: the Desktop above
    is three levels deep and has one node that matches at depth 3 or more,
    yet the driver, started as in main with an empty list, leaves the path
    of that file in found_files twice: once from the pass with limit 3,
    which is cut off, and once more from the pass with limit 4. *)
Theorem rights_search_counts_a_file_twice :
  chains_bounded desktop_problem 3 (initial desktop_problem) ∧
  length (matching_nodes desktop_problem 3) = 1 ∧
  RightsSearch.depth_limited_search 20 desktop_problem 3 (Some []) =
    Some (cutoff, [desktop_a_b_f]) ∧
  RightsSearch.depth_limited_search 20 desktop_problem 4 (Some [desktop_a_b_f]) =
    Some (failure, [desktop_a_b_f; desktop_a_b_f]) ∧
  RightsSearch.iterative_deepening_search sys_maxsize 20 desktop_problem 3 [] =
    Some [desktop_a_b_f; desktop_a_b_f].
Proof.
  assert (H3 : RightsSearch.depth_limited_search 20 desktop_problem 3 (Some []) =
               Some (cutoff, [desktop_a_b_f])) by (vm_compute; reflexivity).
  assert (H4 : RightsSearch.depth_limited_search 20 desktop_problem 4
                 (Some [desktop_a_b_f]) =
               Some (failure, [desktop_a_b_f; desktop_a_b_f]))
    by (vm_compute; reflexivity).
  split.
  { repeat (let a := fresh "a" in let Ha := fresh "Ha" in
            intros a Ha; vm_compute in Ha;
            repeat (apply elem_of_cons in Ha as [->|Ha]);
            try (by apply elem_of_nil in Ha); simpl);
      reflexivity. }
  split; [vm_compute; reflexivity|]. split; [exact H3|]. split; [exact H4|].
  unfold RightsSearch.iterative_deepening_search.
  replace (sys_maxsize - 3) with (S (S (sys_maxsize - 5)))
    by (pose proof sys_maxsize_large; lia).
  cbn [RightsSearch.ids_for]. rewrite H3.
  cbn [RightsSearch.ids_for length Nat.leb is_cutoff]. rewrite H4. done.
Qed.

Section RightsSearchFacts.
Context {Action : Type}.
Variable problem : Problem RightsSearch.FSNode Action.

Lemma rights_pass_sound fuel limit found res found' :
  RightsSearch.depth_limited_search fuel problem limit (Some found) =
    Some (res, found') →
  ∃ new, found' = found ++ new ∧ Forall (recorded_match problem) new ∧
         (length found < 10 → length found' ≤ 10).
Proof.
  unfold RightsSearch.depth_limited_search. simpl. intros Hrun.
  refine (while_invariant (RightsSearch.dls_body problem limit)
    (rights_pass_ok problem found)
    (λ r, ∃ new, r.2 = found ++ new ∧ Forall (recorded_match problem) new ∧
                 (length found < 10 → length r.2 ≤ 10))
    _ _ fuel _ _ _ Hrun).
  - (* the body keeps the invariant *)
    intros [[[|node rest] r] acc] st' (Hfr & new & Hacc & Hnew & Hlen); [done|].
    simpl in Hfr, Hacc, Hlen. subst acc. cbn [RightsSearch.dls_body].
    assert (Hnode : in_search_tree problem node).
    { apply Hfr, elem_of_cons. by left. }
    assert (Hrest : ∀ n, n ∈ rest → in_search_tree problem n).
    { intros n Hn. apply Hfr, elem_of_cons. by right. }
    assert (Hpush : ∀ n, n ∈ append_all (expand problem node) rest →
              in_search_tree problem n).
    { intros n. rewrite append_all_rev, elem_of_app, elem_of_reverse.
      intros [Hn|Hn]; [by apply (in_tree_child problem node)|by apply Hrest]. }
    destruct ((3 <=? len node) && is_goal problem (state node)) eqn:Hhit.
    + apply andb_true_iff in Hhit as [Hdepth Hgoal].
      apply Nat.leb_le in Hdepth.
      assert (Hnew' : Forall (recorded_match problem) (new ++ [RightsSearch.path (state node)])).
      { apply Forall_app. split; [done|]. constructor; [|done]. by exists node. }
      destruct (Nat.leb_spec 10
                  (length ((found ++ new) ++ [RightsSearch.path (state node)])))
        as [Hfull|Hroom]; [done|].
      simpl andb.
      destruct (limit <=? len node); intros [= <-]; simpl;
        (split; [done|]); exists (new ++ [RightsSearch.path (state node)]);
        rewrite app_assoc; done.
    + simpl andb.
      destruct (limit <=? len node); intros [= <-]; simpl;
        (split; [done|]); by exists new.
  - (* what the body returns *)
    intros [[[|node rest] r] acc] out (Hfr & new & Hacc & Hnew & Hlen).
    + simpl. intros [= <-]. simpl in *. exists new.
      split; [done|]. split; [done|]. intros Hf. specialize (Hlen Hf). lia.
    + simpl in Hfr, Hacc, Hlen. subst acc. cbn [RightsSearch.dls_body].
      destruct ((3 <=? len node) && is_goal problem (state node)) eqn:Hhit.
      * apply andb_true_iff in Hhit as [Hdepth Hgoal].
        apply Nat.leb_le in Hdepth.
        destruct (Nat.leb_spec 10
                    (length ((found ++ new) ++ [RightsSearch.path (state node)])))
          as [Hfull|Hroom]; simpl andb.
        -- intros [= <-]. simpl.
           exists (new ++ [RightsSearch.path (state node)]).
           split; [by rewrite app_assoc|]. split.
           ++ apply Forall_app. split; [done|]. constructor; [|done].
              exists node. repeat split; try done.
              apply Hfr, elem_of_cons. by left.
           ++ intros Hf. specialize (Hlen Hf).
              rewrite length_app. simpl. lia.
        -- by destruct (limit <=? len node).
      * simpl andb. by destruct (limit <=? len node).
  - split.
    + simpl. intros n Hn. apply list_elem_of_singleton in Hn as ->. constructor.
    + exists []. simpl. rewrite app_nil_r. done.
Qed.

(** The driver leaves in found_files what was there, followed by paths of
    matches, and no more than ten entries if it was started with fewer. *)
Lemma rights_driver_sound fuel count limit found out :
  RightsSearch.ids_for fuel problem count limit found = Some out →
  ∃ new, out = found ++ new ∧ Forall (recorded_match problem) new ∧
         (length found < 10 → length out ≤ 10).
Proof.
  revert limit found.
  induction count as [|count IH]; intros limit found; cbn [RightsSearch.ids_for].
  - intros [= Heq]. subst out. exists []. rewrite app_nil_r. split; [done|].
    split; [done|lia].
  - destruct (RightsSearch.depth_limited_search fuel problem limit (Some found))
      as [[res found']|] eqn:Hpass; [|done].
    apply rights_pass_sound in Hpass as (new & -> & Hnew & Hlen).
    destruct (Nat.leb_spec 10 (length (found ++ new))) as [Hfull|Hroom].
    { intros [= Heq]. subst out. by exists new. }
    destruct (is_cutoff res).
    + intros Hrest. apply IH in Hrest as (new' & -> & Hnew' & Hlen').
      exists (new ++ new'). rewrite app_assoc. split; [done|].
      split; [by apply Forall_app|]. intros _. by apply Hlen'.
    + intros [= Heq]. subst out. by exists new.
Qed.
End RightsSearchFacts.

(** On the objects of main the pass over the store and the pass over
    values return the same node: the one of value 4, three levels down. *)
Example main_store_pass :
  ∃ h node,
    ElementSearchStore.depth_limited_search 20 main_store 0 1 =
      inr (h, ElementSearchStore.Return (ElementSearchStore.RefNode node)) ∧
    StoreFrame.tree_at 20 main_store 1 = Some ElementSearch.main_root ∧
    Found <$> StoreFrame.node_at 20 h node =
      ElementSearch.depth_limited_search 20
        (ElementSearch.UserSearchProblem ElementSearch.main_root 4) 1 ∧
    ElementSearchStore.len 20 h node = Some 3.
Proof. do 2 eexists. split; [vm_compute; reflexivity|]. split; [vm_compute; reflexivity|]. split; [vm_compute; reflexivity|]. vm_compute; reflexivity. Qed.

(** ** The pass over the store and the pass over values *)

Module StoreSimulation.
Import ElementSearchStore StoreFrame.

Lemma Node_induction {State Action : Type} (P : Node State Action → Prop) :
  (∀ s p a c, (∀ n, p = Some n → P n) → P (mkNode s p a c)) →
  ∀ n, P n.
Proof.
  intros Hnode. fix IH 1. intros [s p a c]. apply Hnode.
  destruct p as [q|]; intros n Heq; [|discriminate].
  injection Heq as <-. apply IH.
Qed.

Lemma repr_tree_unfold h t a :
  repr_tree h t a ↔
  ∃ l r, h !! a = Some (BinaryTreeNodeObj (ElementSearch.value t) l r) ∧
         repr_opt (repr_tree h) (ElementSearch.left t) l ∧
         repr_opt (repr_tree h) (ElementSearch.right t) r.
Proof.
  destruct t as [v tl tr]. cbn [repr_tree ElementSearch.value
    ElementSearch.left ElementSearch.right].
  destruct (h !! a) as [[v' l r| |]|]; split;
    try (intros (l' & r' & Heq & _); discriminate); try done.
  - intros (-> & Hl & Hr). by exists l, r.
  - intros (l' & r' & [= -> <- <-] & Hl & Hr). done.
Qed.

Lemma repr_node_unfold h n a :
  repr_node h n a ↔
  ∃ s p act, h !! a = Some (NodeObj s p act (path_cost n)) ∧
             repr_tree h (state n) s ∧
             repr_opt (repr_node h) (parent n) p ∧
             repr_opt (repr_tree h) (action n) act.
Proof.
  destruct n as [st par ac c]. cbn [repr_node state parent action path_cost].
  destruct (h !! a) as [[| |s p act c']|]; split;
    try (intros (s' & p' & act' & Heq & _); discriminate); try done.
  - intros (Hs & Hp & Hact & ->). by exists s, p, act.
  - intros (s' & p' & act' & [= <- <- <- <-] & Hs & Hp & Hact). done.
Qed.

Lemma repr_tree_mono h h' t a :
  h ⊆ h' → repr_tree h t a → repr_tree h' t a.
Proof.
  intros Hsub. revert a.
  induction t as [v tl tr IHl IHr] using BinaryTreeNode_induction.
  intros a. rewrite !repr_tree_unfold. simpl.
  intros (l & r & Ha & Hl & Hr). exists l, r.
  split; [by eapply lookup_weaken|]. split.
  - destruct tl as [t|], l as [la|]; try done. simpl in *. by apply (IHl t).
  - destruct tr as [t|], r as [ra|]; try done. simpl in *. by apply (IHr t).
Qed.

Lemma repr_node_mono h h' n a :
  h ⊆ h' → repr_node h n a → repr_node h' n a.
Proof.
  intros Hsub. revert a.
  induction n as [st par ac c IH] using Node_induction.
  intros a. rewrite !repr_node_unfold. simpl.
  intros (s & p & act & Ha & Hs & Hp & Hact). exists s, p, act.
  split; [by eapply lookup_weaken|]. split; [by eapply repr_tree_mono|]. split.
  - destruct par as [n|], p as [pa|]; try done. simpl in *. by apply (IH n).
  - destruct ac as [t|], act as [aa|]; try done. simpl in *.
    by eapply repr_tree_mono.
Qed.

(** [__len__] over the store follows the parent chain of the node. *)
Lemma len_agrees h n a fuel :
  repr_node h n a → node_len n < fuel → len fuel h a = Some (node_len n).
Proof.
  revert a fuel. induction n as [st par ac c IH] using Node_induction.
  intros a fuel. rewrite repr_node_unfold. simpl.
  intros (s & p & act & Ha & _ & Hp & _) Hfuel.
  destruct fuel as [|fuel]; [lia|]. simpl. rewrite Ha.
  destruct par as [n|], p as [pa|]; try done. simpl in *.
  rewrite (IH n eq_refl pa fuel Hp) by lia. done.
Qed.

Lemma truth_of_tree h t a : repr_tree h t a → truth h a = Some true.
Proof.
  rewrite repr_tree_unfold. intros (l & r & Ha & _). unfold truth. by rewrite Ha.
Qed.

(** UserSearchProblem.actions over the store gives the addresses of the
    children that the method over values gives. *)
Lemma actions_agree h root goal t s :
  repr_tree h t s →
  ∃ acts, actions h s = Some acts ∧
    Forall2 (repr_tree h)
      (problem_actions (ElementSearch.UserSearchProblem root goal) t) acts.
Proof.
  intros Ht. pose proof Ht as Ht'. rewrite repr_tree_unfold in Ht'.
  destruct Ht' as (l & r & Hs & Hl & Hr).
  unfold actions. rewrite Hs. simpl.
  destruct t as [v tl tr]. simpl in *.
  destruct tl as [t1|], l as [la|]; try done;
    destruct tr as [t2|], r as [ra|]; try done; simpl in *;
    rewrite ?(truth_of_tree h t1 la Hl), ?(truth_of_tree h t2 ra Hr); simpl;
    eexists; (split; [reflexivity|]); repeat constructor; done.
Qed.

Lemma is_goal_agrees h problem initial root goal t s :
  h !! problem = Some (ProblemObj initial goal) →
  repr_tree h t s →
  is_goal h problem s =
  Some (problem_is_goal (ElementSearch.UserSearchProblem root goal) t).
Proof.
  intros Hp. rewrite repr_tree_unfold. intros (l & r & Hs & _).
  unfold is_goal. by rewrite Hp, Hs.
Qed.

(** Pushing the children: the same nodes end up on both frontiers. *)
Lemma push_children_agree h0 n a ts addrs :
  Forall2 (repr_tree h0) ts addrs →
  ∀ h frontier frontier',
    h0 ⊆ h → repr_node h n a → node_len n < size h →
    Forall2 (λ n a, repr_node h n a ∧ node_len n < size h) frontier frontier' →
    let st := fold_left (push_child a (path_cost n)) addrs (h, frontier') in
    h ⊆ st.1 ∧
    Forall2 (λ n a, repr_node st.1 n a ∧ node_len n < size st.1)
      (append_all
         (map (λ t, mkNode t (Some n) (Some t) (path_cost n + 1)) ts) frontier)
      st.2.
Proof.
  induction 1 as [|t ta ts addrs Ht Hts IH];
    intros h frontier frontier' Hsub Hn Hlen Hfr.
  - simpl. done.
  - cbn [fold_left map append_all]. unfold push_child at 2, new.
    set (child := fresh (dom h)).
    set (h1 := <[child:=NodeObj ta (Some a) (Some ta) (path_cost n + 1)]> h).
    assert (Hfresh : h !! child = None) by apply not_elem_of_dom, is_fresh.
    assert (Hsub1 : h ⊆ h1) by by apply insert_subseteq.
    assert (Hsize : size h1 = S (size h)) by by apply map_size_insert_None.
    assert (Hn1 : repr_node h1 n a) by by eapply repr_node_mono.
    destruct (IH h1 (append frontier (mkNode t (Some n) (Some t) (path_cost n + 1)))
                (child :: frontier')) as [Hsub' Hall].
    + by etrans.
    + done.
    + lia.
    + constructor.
      * split; [|simpl; lia]. apply repr_node_unfold. simpl.
        exists ta, (Some a), (Some ta).
        assert (Hta : repr_tree h1 t ta).
        { eapply repr_tree_mono; [|exact Ht]. by etrans. }
        split; [apply lookup_insert_eq|].
        split; [exact Hta|]. split; [exact Hn1|exact Hta].
      * eapply Forall2_impl; [exact Hfr|]. intros n' a' [Hrep Hl].
        split; [by eapply repr_node_mono|lia].
    + split; [by etrans|exact Hall].
Qed.

(** One turn of the loop over the store does what one turn of the loop
    over values does. *)
Lemma body_agrees problem initial root goal limit sp ss :
  same_state problem initial goal sp ss →
  match ElementSearch.dls_body (ElementSearch.UserSearchProblem root goal) limit sp,
        dls_body problem limit ss with
  | inl sp', inl ss' => same_state problem initial goal sp' ss'
  | inr o, inr (h', Return r) => repr_outcome h' o r
  | _, _ => False
  end.
Proof.
  destruct sp as [frontier res], ss as [[h frontier'] res'].
  intros (Hp & Hfr & Hres). simpl in Hp, Hfr, Hres.
  destruct Hfr as [|n a frontier frontier' [Hn Hlen] Hfr]; [done|].
  pose proof Hn as Hn'. rewrite repr_node_unfold in Hn'.
  destruct Hn' as (s & p & act & Ha & Hs & _).
  cbn [ElementSearch.dls_body dls_body]. rewrite Ha.
  rewrite (is_goal_agrees h problem initial root goal (state n) s Hp Hs).
  destruct (problem_is_goal (ElementSearch.UserSearchProblem root goal) (state n));
    [exact Hn|].
  rewrite (len_agrees h n a (S (size h)) Hn) by lia.
  destruct (actions_agree h root goal (state n) s Hs) as (acts & Hacts & Hall).
  rewrite Hacts.
  pose proof (push_children_agree h n a _ acts Hall h frontier frontier'
                (reflexivity h) Hn Hlen Hfr) as Hpush.
  destruct (fold_left (push_child a (path_cost n)) acts (h, frontier'))
    as [h1 frontier1].
  destruct Hpush as [Hsub Hfr1]. simpl in Hsub, Hfr1.
  split; [by eapply lookup_weaken|]. split; [exact Hfr1|]. simpl.
  destruct (limit <=? node_len n); [done|].
  destruct res, res'; try done. simpl in *. by eapply repr_node_mono.
Qed.

Lemma iterate_agrees problem initial root goal limit k :
  ∀ sp ss, same_state problem initial goal sp ss →
    match iterate (ElementSearch.dls_body
                     (ElementSearch.UserSearchProblem root goal) limit) k sp,
          iterate (dls_body problem limit) k ss with
    | inl sp', inl ss' => same_state problem initial goal sp' ss'
    | inr o, inr (h', Return r) => repr_outcome h' o r
    | _, _ => False
    end.
Proof.
  induction k as [|k IH]; intros sp ss Hsame; [done|].
  pose proof (body_agrees problem initial root goal limit sp ss Hsame) as Hstep.
  cbn [iterate].
  destruct (ElementSearch.dls_body _ limit sp) as [sp'|o],
           (dls_body problem limit ss) as [ss'|[h' [r|]]]; try done.
  by apply IH.
Qed.

Lemma while_as_iterate {St Res} (body : St → St + Res) fuel s :
  while body fuel s =
  match iterate body fuel s with inl _ => None | inr r => Some r end.
Proof.
  revert s. induction fuel as [|fuel IH]; intros s; simpl; [done|].
  destruct (body s); [apply IH|done].
Qed.

(** On a store that holds the problem and its tree, the pass over the
    store and the pass over values run in step: with the same fuel both are
    unfinished, or both return, the same sentinel or the same node; the
    pass over the store raises nothing. *)
Theorem store_pass_agrees fuel h problem init goal root limit :
  h !! problem = Some (ProblemObj init goal) →
  repr_tree h root init →
  match depth_limited_search fuel h problem limit,
        ElementSearch.depth_limited_search fuel
          (ElementSearch.UserSearchProblem root goal) limit with
  | inl _, None => True
  | inr (h', Return r), Some o => repr_outcome h' o r
  | _, _ => False
  end.
Proof.
  intros Hp Hroot.
  unfold depth_limited_search, ElementSearch.depth_limited_search.
  rewrite Hp, while_as_iterate. unfold new.
  set (a := fresh (dom h)). set (h1 := <[a:=NodeObj init None None 0]> h).
  assert (Hfresh : h !! a = None) by apply not_elem_of_dom, is_fresh.
  assert (Hsub : h ⊆ h1) by by apply insert_subseteq.
  pose proof (iterate_agrees problem init root goal limit fuel
                ([mkNode root None None 0], failure) (h1, [a], RefFailure)) as Hsim.
  cbn [initial ElementSearch.UserSearchProblem].
  destruct (iterate (ElementSearch.dls_body _ limit) fuel _) as [sp'|o],
           (iterate (dls_body problem limit) fuel _) as [ss'|[h' [r|]]];
    try done; apply Hsim.
  all: split; [by eapply lookup_weaken|]; split; [|done]; simpl;
    constructor; [|done]; split;
    [apply repr_node_unfold; simpl; exists init, None, None;
     split; [apply lookup_insert_eq|];
     split; [by eapply repr_tree_mono|split; exact I]
    |unfold h1; rewrite map_size_insert_None by done; simpl; lia].
Qed.

(** The same for the drivers. *)
Theorem store_driver_agrees maxsize fuel h problem init goal root :
  h !! problem = Some (ProblemObj init goal) →
  repr_tree h root init →
  match iterative_deepening_search maxsize fuel h problem,
        ElementSearch.iterative_deepening_search maxsize fuel
          (ElementSearch.UserSearchProblem root goal) with
  | (_, DriverFuel), None => True
  | (_, DriverReturn None), Some RangeExhausted => True
  | (h', DriverReturn (Some r)), Some (Returned o) => repr_outcome h' o r
  | _, _ => False
  end.
Proof.
  unfold iterative_deepening_search, ElementSearch.iterative_deepening_search.
  generalize (maxsize - 1) as count. generalize 1 as limit. intros limit count.
  revert h limit. induction count as [|count IH]; intros h limit Hp Hroot.
  - done.
  - cbn [for_limits]. simpl.
    pose proof (store_pass_agrees fuel h problem init goal root limit Hp Hroot)
      as Hpass.
    pose proof (StoreFacts.pass_only_new fuel h problem limit) as [Hsub _].
    destruct (depth_limited_search fuel h problem limit)
      as [[[h1 fr] res]|[h1 [r|]]],
      (ElementSearch.depth_limited_search fuel
         (ElementSearch.UserSearchProblem root goal) limit) as [o|];
      try done; simpl in Hsub.
    destruct o as [n| |], r as [a| |]; try done.
    apply IH; [by eapply lookup_weaken|by eapply repr_tree_mono].
Qed.

End StoreSimulation.

(** ** rights_search.py on finite spaces *)

Section RightsSearchPass.
Context {Action : Type}.
Variable problem : Problem RightsSearch.FSNode Action.
Variable limit : nat.

Local Abbreviation body := (RightsSearch.dls_body problem limit).

Lemma rights_body_unfold node rest res found_files :
  body (node :: rest, res, found_files) =
  let found_files :=
    if counts problem node
    then found_files ++ [RightsSearch.path (state node)] else found_files in
  if counts problem node && (10 <=? length found_files)
  then inr (Found node, found_files)
  else if limit <=? len node then inl (rest, cutoff, found_files)
  else inl (reverse (expand problem node) ++ rest, res, found_files).
Proof. cbn [RightsSearch.dls_body]. by rewrite append_all_rev. Qed.

(** The loop with its stack does what the recursive descent does. *)
Lemma rights_visit_refines k :
  ∀ node rest res found_files, limit = len node + k →
    ∃ steps, ∀ f,
      while body (steps + f) (node :: rest, res, found_files) =
      match rights_visit problem k node (res, found_files) with
      | inl (res', found_files') => while body f (rest, res', found_files')
      | inr out => Some out
      end.
Proof.
  induction k as [|k IH]; intros node rest res acc Hk.
  - exists 1. intros f. cbn [Nat.add while]. rewrite rights_body_unfold.
    cbn [rights_visit fst snd]. cbv zeta.
    destruct (counts problem node && _); [done|].
    by destruct (Nat.leb_spec limit (len node)); [|lia].
  - assert (Hall : ∀ nodes rest res acc,
              (∀ c, c ∈ nodes → len c = S (len node)) →
              ∃ steps, ∀ f,
                while body (steps + f) (nodes ++ rest, res, acc) =
                match rights_visit_all (rights_visit problem k) nodes (res, acc) with
                | inl (res', acc') => while body f (rest, res', acc')
                | inr out => Some out
                end).
    { clear rest res acc.
      induction nodes as [|c nodes IHnodes]; intros rest res acc Hlen.
      - exists 0. done.
      - destruct (IH c (nodes ++ rest) res acc) as [s1 Hs1].
        { rewrite (Hlen c) by (apply elem_of_cons; by left). lia. }
        cbn [rights_visit_all].
        destruct (rights_visit problem k c (res, acc)) as [[res' acc']|out] eqn:Hv.
        + destruct (IHnodes rest res' acc') as [s2 Hs2].
          { intros c' Hc'. apply Hlen, elem_of_cons. by right. }
          exists (s1 + s2). intros f. rewrite <- Nat.add_assoc.
          simpl app. by rewrite Hs1, Hs2.
        + exists s1. intros f. simpl app. by rewrite Hs1. }
    set (acc1 := if counts problem node
                 then acc ++ [RightsSearch.path (state node)] else acc).
    destruct (Hall (reverse (expand problem node)) rest res acc1) as [steps Hsteps].
    { intros c Hc. rewrite elem_of_reverse in Hc. by eapply expand_len. }
    exists (S steps). intros f. cbn [Nat.add while]. rewrite rights_body_unfold.
    cbn [rights_visit fst snd]. cbv zeta. fold acc1.
    destruct (counts problem node && _); [done|].
    destruct (Nat.leb_spec limit (len node)); [lia|]. apply Hsteps.
Qed.

(** A pass always ends, and returns [rights_pass_result]. *)
Lemma rights_pass_total found_files :
  ∃ fuel0, ∀ fuel, fuel0 ≤ fuel →
    RightsSearch.depth_limited_search fuel problem limit (Some found_files) =
    Some (rights_pass_result problem limit found_files).
Proof.
  destruct (rights_visit_refines limit (mkNode (initial problem) None None 0)
              [] failure found_files) as [steps Hsteps]; [done|].
  exists (S steps). intros fuel Hfuel.
  unfold RightsSearch.depth_limited_search, rights_pass_result.
  cbn [default]. replace fuel with (steps + S (fuel - S steps)) by lia.
  rewrite Hsteps.
  by destruct (rights_visit problem limit _ (failure, found_files)) as [[? ?]|?].
Qed.
End RightsSearchPass.

Section RightsSearchFinite.
Context {Action : Type}.
Variable problem : Problem RightsSearch.FSNode Action.

Lemma paths_below_unfold d node :
  paths_below problem d node =
  (if counts problem node then [RightsSearch.path (state node)] else []) ++
  match d with
  | O => []
  | S d' => flat_map (paths_below problem d') (reverse (expand problem node))
  end.
Proof.
  unfold paths_below at 1.
  assert (Hflat : ∀ d' l,
            map (λ n, RightsSearch.path (state n))
              (filter (λ n, Is_true (counts problem n))
                 (flat_map (nodes_below problem d') l)) =
            flat_map (paths_below problem d') l).
  { intros d' l. induction l as [|c l IH]; [done|].
    simpl. by rewrite filter_app, map_app, IH. }
  destruct d as [|d]; cbn [nodes_below]; rewrite filter_cons;
    destruct (decide (Is_true (counts problem node))) as [Hc|Hc].
  - apply Is_true_true in Hc. by rewrite Hc.
  - apply Is_true_false in Hc. by rewrite Hc.
  - apply Is_true_true in Hc. rewrite Hc. simpl. by rewrite Hflat.
  - apply Is_true_false in Hc. rewrite Hc. simpl. by rewrite Hflat.
Qed.

(** What the descent leaves on the list when it comes back from a
    subtree: the paths of all the nodes in it that count. *)
Lemma rights_visit_records k :
  ∀ node res acc res' acc',
    rights_visit problem k node (res, acc) = inl (res', acc') →
    acc' = acc ++ paths_below problem k node.
Proof.
  induction k as [|k IH]; intros node res acc res' acc';
    rewrite paths_below_unfold; cbn [rights_visit fst snd]; cbv zeta.
  - destruct (counts problem node); cbn [andb app].
    + destruct (10 <=? _); [done|]. by intros [= <- <-].
    + intros [= <- <-]. by rewrite app_nil_r.
  - set (acc1 := if counts problem node
                 then acc ++ [RightsSearch.path (state node)] else acc).
    assert (Hall : ∀ nodes res acc res' acc',
              rights_visit_all (rights_visit problem k) nodes (res, acc) =
                inl (res', acc') →
              acc' = acc ++ flat_map (paths_below problem k) nodes).
    { clear res acc res' acc' acc1.
      induction nodes as [|c nodes IHnodes]; intros res acc res' acc'; simpl.
      - intros [= <- <-]. by rewrite app_nil_r.
      - destruct (rights_visit problem k c (res, acc)) as [[r1 a1]|] eqn:Hc;
          [|done].
        intros Hrest. apply IHnodes in Hrest. apply IH in Hc. subst.
        by rewrite app_assoc. }
    destruct (counts problem node && _); [done|].
    intros Hv. apply Hall in Hv. subst acc'. unfold acc1.
    destruct (counts problem node); [by rewrite <- app_assoc|done].
Qed.

(** What the descent returns from inside a subtree is a list of at least
    ten entries. *)
Lemma rights_visit_returns_full k :
  ∀ node st o acc',
    rights_visit problem k node st = inr (o, acc') → 10 ≤ length acc'.
Proof.
  induction k as [|k IH]; intros node st o acc';
    cbn [rights_visit]; cbv zeta.
  - destruct (counts problem node); cbn [andb]; [|done].
    destruct (Nat.leb_spec 10 (length (st.2 ++ [RightsSearch.path (state node)])));
      [|done].
    by intros [= <- <-].
  - destruct (counts problem node); cbn [andb].
    + destruct (Nat.leb_spec 10 (length (st.2 ++ [RightsSearch.path (state node)]))).
      * by intros [= <- <-].
      * generalize (reverse (expand problem node)).
        generalize (st.1, st.2 ++ [RightsSearch.path (state node)]).
        intros st1 nodes. revert st1.
        induction nodes as [|c nodes IHnodes]; intros st1; simpl; [done|].
        destruct (rights_visit problem k c st1) as [st2|[o2 a2]] eqn:Hc;
          [apply IHnodes|].
        intros [= <- <-]. by eapply IH.
    + generalize (reverse (expand problem node)).
      generalize (st.1, st.2). intros st1 nodes. revert st1.
      induction nodes as [|c nodes IHnodes]; intros st1; simpl; [done|].
      destruct (rights_visit problem k c st1) as [st2|[o2 a2]] eqn:Hc;
        [apply IHnodes|].
      intros [= <- <-]. by eapply IH.
Qed.
Lemma flat_map_agree {A B : Type} (f g : A → list B) (l : list A) :
  (∀ x, x ∈ l → f x = g x) → flat_map f l = flat_map g l.
Proof.
  induction l as [|x l IH]; intros Hfg; simpl; [done|].
  rewrite (Hfg x) by (apply elem_of_cons; by left).
  rewrite IH; [done|]. intros y Hy. apply Hfg, elem_of_cons. by right.
Qed.

(** Nothing counts in the first three levels. *)
Lemma paths_below_shallow d node :
  len node + d < 3 → paths_below problem d node = [].
Proof.
  revert node. induction d as [|d IH]; intros node Hlen;
    rewrite paths_below_unfold; unfold counts;
    (destruct (Nat.leb_spec 3 (len node)); [lia|]); simpl; [done|].
  rewrite (flat_map_agree _ (λ _, [])).
  - generalize (reverse (expand problem node)).
    intros l. by induction l.
  - intros c Hc. rewrite elem_of_reverse in Hc. apply IH.
    rewrite (expand_len _ _ _ Hc). lia.
Qed.

(** A descent that comes back without a cutoff recorded has found all of
    the subtree within its levels, and nothing of it on the last one. *)
Lemma rights_visit_complete k :
  ∀ node res acc res' acc',
    rights_visit problem k node (res, acc) = inl (res', acc') →
    res' ≠ cutoff →
    res' = res ∧
    (∀ k', k ≤ k' → nodes_below problem k' node = nodes_below problem k node) ∧
    nodes_below problem k node = nodes_below problem (pred k) node.
Proof.
  induction k as [|k IH]; intros node res acc res' acc';
    cbn [rights_visit fst snd]; cbv zeta.
  - destruct (counts problem node && _); [done|]. by intros [= <- <-].
  - destruct (counts problem node && _); [done|].
    set (acc1 := if counts problem node then _ else _). clearbody acc1.
    assert (Hall : ∀ nodes res acc res' acc',
              rights_visit_all (rights_visit problem k) nodes (res, acc) =
                inl (res', acc') →
              res' ≠ cutoff →
              res' = res ∧
              ∀ c, c ∈ nodes →
                (∀ k', k ≤ k' →
                   nodes_below problem k' c = nodes_below problem k c) ∧
                nodes_below problem k c = nodes_below problem (pred k) c).
    { clear res acc res' acc' acc1.
      induction nodes as [|c nodes IHnodes]; intros res acc res' acc'; simpl.
      - intros [= <- <-] _. split; [done|]. intros c Hc. by apply elem_of_nil in Hc.
      - destruct (rights_visit problem k c (res, acc)) as [[r1 a1]|] eqn:Hc;
          [|done].
        intros Hrest Hne. destruct (IHnodes _ _ _ _ Hrest Hne) as [-> Hnodes].
        destruct (IH _ _ _ _ _ Hc Hne) as (-> & Hup & Hdown).
        split; [done|]. intros c' Hc'.
        apply elem_of_cons in Hc' as [->|Hc']; [done|by apply Hnodes]. }
    intros Hv Hne. destruct (Hall _ _ _ _ _ Hv Hne) as [-> Hnodes].
    split; [done|]. split.
    + intros [|k'] Hk'; [lia|]. cbn [nodes_below]. f_equal.
      apply flat_map_agree. intros c Hc. apply Hnodes; [done|lia].
    + cbn [pred]. destruct k as [|k0].
      * cbn [nodes_below]. f_equal.
        destruct (reverse (expand problem node)) as [|c l]; [done|].
        exfalso. revert Hv. cbn [rights_visit_all rights_visit fst snd]. cbv zeta.
        destruct (counts problem c && _); [done|].
        generalize (if counts problem c
                    then acc1 ++ [RightsSearch.path (state c)] else acc1).
        intros a Hl.
        assert (Hsticky : ∀ nodes a r a',
                  rights_visit_all (rights_visit problem 0) nodes (cutoff, a) =
                    inl (r, a') → r = cutoff).
        { clear. induction nodes as [|c' nodes IHn]; intros a r a'; simpl.
          - by intros [= <- _].
          - destruct (counts problem c' && _); [done|]. apply IHn. }
        apply Hsticky in Hl. done.
      * cbn [nodes_below]. f_equal. apply flat_map_agree.
        intros c Hc. by apply Hnodes.
Qed.

(** Below the deepest level there is nothing more to find. *)
Lemma nodes_below_beyond_depth d :
  ∀ node k, chains_bounded problem d (state node) → d ≤ k →
    nodes_below problem k node = nodes_below problem d node.
Proof.
  induction d as [|d IH]; intros node k Hd Hk.
  - simpl in Hd. destruct k as [|k]; [done|]. cbn [nodes_below].
    unfold expand. by rewrite Hd.
  - destruct k as [|k]; [lia|]. cbn [nodes_below]. f_equal.
    apply flat_map_agree. intros c Hc. rewrite elem_of_reverse in Hc.
    apply expand_inv in Hc as (a & Ha & ->). apply IH; [|lia]. simpl.
    by apply Hd.
Qed.

(** With more levels left than the space has, the descent prunes
    nothing. *)
Lemma rights_visit_no_cutoff k :
  ∀ d node res acc res' acc',
    chains_bounded problem d (state node) → d < k →
    rights_visit problem k node (res, acc) = inl (res', acc') → res' = res.
Proof.
  induction k as [|k IH]; intros d node res acc res' acc' Hd Hlt; [lia|].
  cbn [rights_visit fst snd]. cbv zeta.
  destruct (counts problem node && _); [done|].
  set (acc1 := if counts problem node then _ else _). clearbody acc1.
  assert (Hall : ∀ nodes res acc res' acc',
            (∀ c, c ∈ nodes → c ∈ expand problem node) →
            rights_visit_all (rights_visit problem k) nodes (res, acc) =
              inl (res', acc') → res' = res).
  { clear res acc res' acc' acc1.
    induction nodes as [|c nodes IHnodes]; intros res acc res' acc' Hsub; simpl.
    - by intros [= <- _].
    - destruct (rights_visit problem k c (res, acc)) as [[r1 a1]|] eqn:Hc;
        [|done].
      intros Hrest. apply IHnodes in Hrest.
      2:{ intros c' Hc'. apply Hsub, elem_of_cons. by right. }
      subst res'.
      destruct (expand_inv problem node c) as (a & Ha & ->).
      { apply Hsub, elem_of_cons. by left. }
      destruct d as [|d].
      + simpl in Hd. rewrite Hd in Ha. by apply elem_of_nil in Ha.
      + eapply (IH d); [|lia|exact Hc]. simpl. by apply Hd. }
  apply Hall. intros c Hc. by rewrite elem_of_reverse in Hc.
Qed.
Lemma paths_below_matching d :
  length (paths_below problem d (mkNode (initial problem) None None 0)) =
  length (matching_nodes problem d).
Proof. unfold paths_below, matching_nodes. by rewrite length_map. Qed.

(** The driver from some limit on, with [j] more limits to go to get past
    the depth [D] of the space: it ends, with ten entries, or with fewer
    and then at least twice as many as there are matches. *)
Lemma rights_driver_finite D :
  chains_bounded problem D (initial problem) →
  ∀ j limit acc count,
    D + 1 ≤ limit + j → j < count → length acc < 10 →
    length (paths_below problem (pred limit)
              (mkNode (initial problem) None None 0)) ≤ length acc →
    ∃ fuel0, ∀ fuel, fuel0 ≤ fuel →
      ∃ out, RightsSearch.ids_for fuel problem count limit acc = Some out ∧
        (length out = 10 ∨
         length out < 10 ∧ 2 * length (matching_nodes problem D) ≤ length out).
Proof.
  intros HD. set (root := mkNode (initial problem) None None 0).
  induction j as [|j IH]; intros limit acc count Hj Hcount Hacc Hprev;
    (destruct count as [|count]; [lia|]);
    destruct (rights_pass_total problem limit acc) as [F1 HF1];
    pose proof (HF1 F1 (Nat.le_refl _)) as Hrun;
    destruct (rights_pass_result problem limit acc) as [res acc'] eqn:Hres;
    pose proof (rights_pass_sound problem F1 limit acc res acc' Hrun)
      as (new & Hnew & _ & Hle);
    specialize (Hle Hacc);
    unfold rights_pass_result in Hres; fold root in Hres;
    destruct (rights_visit problem limit root (failure, acc))
      as [[r a]|[o a]] eqn:Hv; injection Hres as -> ->.
  all: try (
    (* the pass returned from inside the tree: the list is full *)
    apply rights_visit_returns_full in Hv;
    exists F1; intros fuel Hfuel; exists acc';
    cbn [RightsSearch.ids_for]; rewrite (HF1 fuel Hfuel);
    destruct (Nat.leb_spec 10 (length acc')); [|lia];
    split; [done|left; lia]).
  all: pose proof (rights_visit_records _ _ _ _ _ _ Hv) as Hacc';
    destruct (Nat.leb_spec 10 (length acc')) as [Hfull|Hroom].
  all: try (
    exists F1; intros fuel Hfuel; exists acc';
    cbn [RightsSearch.ids_for]; rewrite (HF1 fuel Hfuel);
    destruct (Nat.leb_spec 10 (length acc')); [|lia];
    split; [done|left; lia]).
  all: destruct (is_cutoff res) eqn:Hcut.
  - (* limit past the depth, yet a cutoff: impossible *)
    destruct res; try discriminate.
    apply (rights_visit_no_cutoff limit D) in Hv; [done|done|lia].
  - (* the pass went through the whole tree *)
    assert (Hne : res ≠ cutoff) by (intros ->; discriminate).
    destruct (rights_visit_complete _ _ _ _ _ _ Hv Hne)
      as (_ & Hup & Hdown).
    assert (HD' : nodes_below problem limit root = nodes_below problem D root).
    { destruct (decide (limit ≤ D)); [symmetry; apply Hup; lia|].
      apply nodes_below_beyond_depth; [done|lia]. }
    exists F1. intros fuel Hfuel. exists acc'.
    cbn [RightsSearch.ids_for]. rewrite (HF1 fuel Hfuel).
    destruct (Nat.leb_spec 10 (length acc')); [lia|]. rewrite Hcut.
    split; [done|]. right. split; [done|].
    rewrite <- paths_below_matching. fold root.
    assert (Hsame : paths_below problem limit root = paths_below problem D root).
    { unfold paths_below. by rewrite HD'. }
    assert (Hsame' : paths_below problem (pred limit) root =
                     paths_below problem D root).
    { unfold paths_below. by rewrite <- Hdown, HD'. }
    rewrite Hsame' in Hprev. rewrite Hacc', Hsame, length_app. lia.
  - (* cut off: on to the next limit *)
    destruct (IH (S limit) acc' count) as [F2 HF2]; [lia|lia|done| |].
    { cbn [pred]. rewrite Hacc', length_app. lia. }
    exists (F1 `max` F2). intros fuel Hfuel.
    destruct (HF2 fuel) as (out & Hout & Hlen); [lia|].
    exists out. cbn [RightsSearch.ids_for]. rewrite (HF1 fuel) by lia.
    destruct (Nat.leb_spec 10 (length acc')); [lia|]. rewrite Hcut. done.
  - (* the pass went through the whole tree *)
    assert (Hne : res ≠ cutoff) by (intros ->; discriminate).
    destruct (rights_visit_complete _ _ _ _ _ _ Hv Hne)
      as (_ & Hup & Hdown).
    assert (HD' : nodes_below problem limit root = nodes_below problem D root).
    { destruct (decide (limit ≤ D)); [symmetry; apply Hup; lia|].
      apply nodes_below_beyond_depth; [done|lia]. }
    exists F1. intros fuel Hfuel. exists acc'.
    cbn [RightsSearch.ids_for]. rewrite (HF1 fuel Hfuel).
    destruct (Nat.leb_spec 10 (length acc')); [lia|]. rewrite Hcut.
    split; [done|]. right. split; [done|].
    rewrite <- paths_below_matching. fold root.
    assert (Hsame : paths_below problem limit root = paths_below problem D root).
    { unfold paths_below. by rewrite HD'. }
    assert (Hsame' : paths_below problem (pred limit) root =
                     paths_below problem D root).
    { unfold paths_below. by rewrite <- Hdown, HD'. }
    rewrite Hsame' in Hprev. rewrite Hacc', Hsame, length_app. lia.
Qed.

(** On a finite space the driver, started as in main, ends.  found_files
    then holds paths of matches, ten at most; exactly ten when there are
    ten matches or more; and more entries than there are matches when
    there are between one and nine, each of them being recorded by more
    than one pass. *)
Theorem rights_driver_on_finite_space maxsize D :
  chains_bounded problem D (initial problem) →
  D + 2 ≤ maxsize → 4 ≤ maxsize →
  ∃ fuel0, ∀ fuel, fuel0 ≤ fuel →
    ∃ out,
      RightsSearch.iterative_deepening_search maxsize fuel problem 3 [] =
        Some out ∧
      Forall (recorded_match problem) out ∧
      length out ≤ 10 ∧
      (10 ≤ length (matching_nodes problem D) → length out = 10) ∧
      (1 ≤ length (matching_nodes problem D) < 10 →
       length (matching_nodes problem D) < length out).
Proof.
  intros HD Hmax Hmax'.
  destruct (rights_driver_finite D HD (D + 1 - 3) 3 [] (maxsize - 3))
    as [F HF]; [lia|lia|simpl; lia| |].
  { rewrite paths_below_shallow; simpl; lia. }
  exists F. intros fuel Hfuel. destruct (HF fuel Hfuel) as (out & Hout & Hlen).
  exists out. split; [exact Hout|].
  destruct (rights_driver_sound problem _ _ _ _ _ Hout) as (new & -> & Hnew & Hle).
  simpl in *. split; [done|]. split; [apply Hle; lia|]. split; lia.
Qed.
End RightsSearchFinite.

(** * Further properties of the scripts *)

Section DescentFacts.
Context {State Action : Type}.
Variable problem : Problem State Action.

Lemma descends_snoc node y z :
  descends problem node y → z ∈ expand problem y → descends problem node z.
Proof.
  induction 1 as [n|n c x Hc Hx IH]; intros Hz.
  - eapply descends_child; [exact Hz|constructor].
  - eapply descends_child; [exact Hc|by apply IH].
Qed.

Lemma in_search_tree_descends x :
  in_search_tree problem x →
  descends problem (mkNode (initial problem) None None 0) x.
Proof.
  induction 1 as [|par child Hpar IH Hchild]; [constructor|].
  by eapply descends_snoc.
Qed.

Lemma descends_len node x : descends problem node x → len node ≤ len x.
Proof.
  induction 1 as [n|n c x Hc Hx IH]; [done|].
  rewrite (expand_len _ _ _ Hc) in IH. lia.
Qed.

(** A list of nodes one of which the descent returns from, whatever it is
    given, is a list the descent returns from. *)
Lemma visit_all_returns k (nodes : list (Node State Action)) c res :
  c ∈ nodes →
  (∀ r, ∃ o, visit problem k c r = inr o) →
  ∃ o, visit_all (visit problem k) nodes res = inr o.
Proof.
  intros Hin Hc. revert res.
  induction nodes as [|n nodes IH]; intros res; [by apply elem_of_nil in Hin|].
  simpl. destruct (visit problem k n res) as [r|o] eqn:Hn; [|by exists o].
  apply elem_of_cons in Hin as [->|Hin].
  - destruct (Hc res) as [o Ho]. congruence.
  - by apply IH.
Qed.

(** The descent finds a goal that is within its levels. *)
Lemma visit_finds_goal node x :
  descends problem node x → is_goal problem (state x) = true →
  ∀ k res, len x ≤ len node + k → ∃ o, visit problem k node res = inr o.
Proof.
  induction 1 as [n|n c x Hc Hx IH]; intros Hgoal k res Hlen.
  - exists (Found n). destruct k; simpl; by rewrite Hgoal.
  - destruct (is_goal problem (state n)) eqn:Hn.
    { exists (Found n). destruct k; simpl; by rewrite Hn. }
    pose proof (descends_len _ _ Hx) as Hcx.
    rewrite (expand_len _ _ _ Hc) in Hcx, IH.
    destruct k as [|k]; [lia|]. simpl. rewrite Hn.
    apply (visit_all_returns k _ c).
    + by rewrite elem_of_reverse.
    + intros r. apply IH; [done|lia].
Qed.

(** A cutoff once recorded stays. *)
Lemma visit_keeps_cutoff k :
  ∀ node r, visit problem k node cutoff = inl r → r = cutoff.
Proof.
  induction k as [|k IH]; intros node r; simpl;
    destruct (is_goal problem (state node)); try done.
  - by intros [= <-].
  - generalize (reverse (expand problem node)). intros nodes.
    assert (Hall : ∀ nodes r,
              visit_all (visit problem k) nodes cutoff = inl r → r = cutoff).
    { clear nodes r. induction nodes as [|c nodes IHn]; intros r; simpl.
      - by intros [= <-].
      - destruct (visit problem k c cutoff) as [r1|] eqn:Hc; [|done].
        apply IH in Hc as ->. apply IHn. }
    apply Hall.
Qed.

Lemma visit_all_keeps_cutoff k (nodes : list (Node State Action)) r :
  visit_all (visit problem k) nodes cutoff = inl r → r = cutoff.
Proof.
  revert r. induction nodes as [|c nodes IH]; intros r; simpl.
  - by intros [= <-].
  - destruct (visit problem k c cutoff) as [r1|] eqn:Hc; [|done].
    apply visit_keeps_cutoff in Hc as ->. apply IH.
Qed.

(** The descent that stops above a node of the tree records a cutoff,
    unless it returns. *)
Lemma visit_cut_above node x :
  descends problem node x →
  ∀ k res r, len node + k ≤ len x →
    visit problem k node res = inl r → r = cutoff.
Proof.
  induction 1 as [n|n c x Hc Hx IH]; intros k res r Hlen.
  - assert (k = 0) as -> by lia. simpl.
    destruct (is_goal problem (state n)); [done|]. by intros [= <-].
  - destruct k as [|k]; simpl;
      destruct (is_goal problem (state n)); try done.
    { by intros [= <-]. }
    rewrite (expand_len _ _ _ Hc) in IH.
    assert (Hin : c ∈ reverse (expand problem n)) by by rewrite elem_of_reverse.
    revert Hin. generalize (reverse (expand problem n)). intros nodes Hin.
    revert res. induction nodes as [|d nodes IHn]; intros res;
      [by apply elem_of_nil in Hin|].
    simpl. destruct (visit problem k d res) as [r1|] eqn:Hd; [|done].
    apply elem_of_cons in Hin as [->|Hin].
    + apply IH in Hd as ->; [|lia]. apply visit_all_keeps_cutoff.
    + by apply IHn.
Qed.
End DescentFacts.

Section FileSystemAnswers.
Context {State Action : Type}.
Variable problem : Problem State Action.

(** Whatever the fuel, a pass that returns has returned [pass_result]. *)
Lemma file_pass_is_pass_result fuel limit r :
  FileSystemSearch.depth_limited_search fuel problem limit = Some r →
  r = pass_result problem limit.
Proof.
  intros Hrun. destruct (file_pass_total problem limit) as [F HF].
  specialize (HF (fuel `max` F) ltac:(lia)).
  unfold FileSystemSearch.depth_limited_search in *.
  eapply (while_fuel_le _ fuel (fuel `max` F)) in Hrun; [|lia]. congruence.
Qed.

Lemma in_search_tree_root x :
  in_search_tree problem x → len x = 0 →
  x = mkNode (initial problem) None None 0.
Proof.
  destruct 1 as [|par child Hpar Hchild]; [done|].
  rewrite (expand_len _ _ _ Hchild). lia.
Qed.

(** A pass that ends in a sentinel has met no goal within its limit, and a
    pass that ends in [failure] has seen the whole search tree. *)
Lemma pass_result_sentinel limit y :
  in_search_tree problem y →
  (pass_result problem limit = cutoff →
   len y ≤ limit → is_goal problem (state y) = false) ∧
  (pass_result problem limit = failure →
   len y < limit ∧ is_goal problem (state y) = false).
Proof.
  intros Hy. apply in_search_tree_descends in Hy.
  set (root := mkNode (initial problem) None None 0) in *.
  assert (Hno : ∀ r, visit problem limit root failure = inl r →
            len y ≤ limit → is_goal problem (state y) = false).
  { intros r Hv Hlen. destruct (is_goal problem (state y)) eqn:Hg; [|done].
    destruct (visit_finds_goal problem root y Hy Hg limit failure) as [o Ho];
      [simpl; lia|]. congruence. }
  unfold pass_result. fold root.
  destruct (visit problem limit root failure) as [r|o] eqn:Hv.
  - split; intros ->.
    + by apply (Hno cutoff).
    + assert (Hlt : len y < limit).
      { destruct (decide (len y < limit)) as [|Hge]; [done|].
        apply (visit_cut_above problem root y Hy) in Hv; [done|simpl; lia]. }
      split; [done|]. apply (Hno failure); [done|lia].
  - apply visit_returns_node in Hv as [n ->]. split; discriminate.
Qed.
End FileSystemAnswers.

(** X1: in a pass of file_system_search.py every node that is ever on the
    frontier is a node of the search tree at depth at most [limit]: the
    depth bound gates the expansion. *)
Theorem file_system_frontier_obeys_limit {State Action : Type}
    (problem : Problem State Action) (limit k : nat)
    (frontier : LIFOQueue State Action) (res : Outcome State Action) :
  iterate (FileSystemSearch.dls_body problem limit) k
    ([mkNode (initial problem) None None 0], failure) = inl (frontier, res) →
  (∀ n, n ∈ frontier → in_search_tree problem n ∧ len n ≤ limit) ∧
  (res = failure ∨ res = cutoff).
Proof.
  intros Hit.
  pose proof (iterate_invariant _ _ (file_frontier_ok_step problem limit)
                k _ _ (file_frontier_ok_init problem limit) Hit)
    as (Hfr & _ & Hres).
  split; [exact Hfr|]. simpl in Hres. destruct res as [n| |]; [|by left|by right].
  by destruct (Hres n).
Qed.


(** X3: the node a pass of file_system_search.py returns is a goal, a node
    of the search tree, at depth at most [limit], and the last goal among
    the children of its parent in the order of [actions]. *)
Theorem file_system_pass_returns_goal_within_limit {State Action : Type}
    (problem : Problem State Action) (fuel limit : nat) (x : Node State Action) :
  FileSystemSearch.depth_limited_search fuel problem limit = Some (Found x) →
  is_goal problem (state x) = true ∧ in_search_tree problem x ∧
  len x ≤ limit ∧ last_goal_sibling problem x.
Proof. apply file_pass_found. Qed.


(** The driver returns a goal of least depth, from the pass at that depth. *)
Lemma file_driver_shallowest {State Action : Type}
    (problem : Problem State Action) (maxsize : nat) (x : Node State Action) :
  in_search_tree problem x → is_goal problem (state x) = true →
  (∀ y, in_search_tree problem y → is_goal problem (state y) = true →
        len x ≤ len y) →
  len x `max` 1 < maxsize →
  ∃ fuel0, ∀ fuel, fuel0 ≤ fuel →
    ∃ n,
      FileSystemSearch.iterative_deepening_search maxsize fuel problem =
        Some (Returned (Found n)) ∧
      FileSystemSearch.depth_limited_search fuel problem (len x `max` 1) =
        Some (Found n) ∧
      (∀ limit, 1 ≤ limit < len x →
         FileSystemSearch.depth_limited_search fuel problem limit = Some cutoff) ∧
      is_goal problem (state n) = true ∧ in_search_tree problem n ∧
      len n = len x.
Proof.
  intros Hx Hgoal Hmin Hmax.
  set (L := len x `max` 1).
  destruct (file_passes_total problem L) as [F HF].
  set (root := mkNode (initial problem) None None 0 : Node State Action).
  (* the passes below the depth of [x] are cut off *)
  assert (Hcut : ∀ limit, limit < len x → pass_result problem limit = cutoff).
  { intros limit Hlt. unfold pass_result. fold root.
    destruct (visit problem limit root failure) as [r|o] eqn:Hv.
    - apply (visit_cut_above problem root x) in Hv; [done| |simpl; lia].
      by apply in_search_tree_descends.
    - exfalso. apply visit_returns_node in Hv as Hn. destruct Hn as [n ->].
      assert (Hrun : FileSystemSearch.depth_limited_search F problem limit =
                     Some (Found n)).
      { rewrite HF by (unfold L; lia). unfold pass_result. fold root.
        by rewrite Hv. }
      apply file_pass_found in Hrun as (Hg & Ht & Hl & _).
      specialize (Hmin n Ht Hg). lia. }
  (* the pass at the depth of [x] returns a node *)
  destruct (visit_finds_goal problem root x
              (in_search_tree_descends problem x Hx) Hgoal L failure)
    as [o Ho]; [unfold L; simpl; lia|].
  apply visit_returns_node in Ho as Hn. destruct Hn as [n ->].
  assert (Hres : pass_result problem L = Found n).
  { unfold pass_result. fold root. by rewrite Ho. }
  assert (Hrun : ∀ fuel, F ≤ fuel →
            FileSystemSearch.depth_limited_search fuel problem L = Some (Found n)).
  { intros fuel Hfuel. rewrite HF by lia. by rewrite Hres. }
  destruct (file_pass_found problem L F n (Hrun F (Nat.le_refl _)))
    as (Hg & Ht & Hl & _).
  assert (Hlen : len n = len x).
  { specialize (Hmin n Ht Hg). destruct (decide (len x = 0)) as [H0|H0].
    - pose proof (in_search_tree_root problem x Hx H0) as ->.
      simpl in Hgoal. revert Ho. unfold root.
      destruct L; simpl; rewrite Hgoal; by intros [= <-].
    - unfold L in Hl. lia. }
  exists F. intros fuel Hfuel. exists n.
  split; [|split; [by apply Hrun|split; [|done]]].
  - apply (for_limits_first _ _ _ (L - 1)); [unfold L in *; lia| | |done].
    + intros i Hi. rewrite HF by lia. rewrite Hcut; [done|unfold L in *; lia].
    + replace (1 + (L - 1)) with L by (unfold L; lia). by apply Hrun.
  - intros limit Hlimit. rewrite HF by (unfold L; lia). by rewrite Hcut by lia.
Qed.


Lemma main_solution_in_tree :
  in_search_tree
    (FileSystemSearch.FileSearchProblem FileSystemSearch.main_root "file_d")
    main_solution.
Proof.
  assert (H : FileSystemSearch.depth_limited_search 20
                (FileSystemSearch.FileSearchProblem
                   FileSystemSearch.main_root "file_d") 3 =
              Some (Found main_solution)) by (vm_compute; reflexivity).
  by apply file_pass_found in H as (_ & ? & _).
Qed.

Lemma main_goal_not_above_three y :
  in_search_tree
    (FileSystemSearch.FileSearchProblem FileSystemSearch.main_root "file_d") y →
  is_goal (FileSystemSearch.FileSearchProblem FileSystemSearch.main_root "file_d")
    (state y) = true →
  3 ≤ len y.
Proof.
  intros Hy Hg. destruct (decide (3 ≤ len y)) as [|Hlt]; [done|].
  assert (Hcut : pass_result
                   (FileSystemSearch.FileSearchProblem
                      FileSystemSearch.main_root "file_d") 2 = cutoff)
    by (vm_compute; reflexivity).
  apply (pass_result_sentinel _ 2 y Hy) in Hcut; [congruence|lia].
Qed.

Lemma file_system_frontier_obeys_limit_witness :
  iterate (FileSystemSearch.dls_body
             (FileSystemSearch.FileSearchProblem
                FileSystemSearch.main_root "file_d") 2) 2
    ([mkNode FileSystemSearch.main_root None None 0], failure) =
    inl (main_frontier_after_two, failure) ∧
  (∀ n, n ∈ main_frontier_after_two →
     in_search_tree
       (FileSystemSearch.FileSearchProblem FileSystemSearch.main_root "file_d") n ∧
     len n ≤ 2) ∧
  ((failure : Outcome FileSystemSearch.TreeNode FileSystemSearch.TreeNode) = failure ∨
   (failure : Outcome FileSystemSearch.TreeNode FileSystemSearch.TreeNode) = cutoff).
Proof.
  assert (H : iterate (FileSystemSearch.dls_body
                (FileSystemSearch.FileSearchProblem
                   FileSystemSearch.main_root "file_d") 2) 2
                ([mkNode FileSystemSearch.main_root None None 0], failure) =
              inl (main_frontier_after_two, failure)) by (vm_compute; reflexivity).
  split; [exact H|].
  exact (file_system_frontier_obeys_limit _ 2 2 main_frontier_after_two failure H).
Defined.

Lemma file_system_pass_returns_goal_within_limit_witness :
  FileSystemSearch.depth_limited_search 20
    (FileSystemSearch.FileSearchProblem FileSystemSearch.main_root "file_d") 3 =
    Some (Found main_solution) ∧
  is_goal (FileSystemSearch.FileSearchProblem FileSystemSearch.main_root "file_d")
    (state main_solution) = true ∧
  in_search_tree
    (FileSystemSearch.FileSearchProblem FileSystemSearch.main_root "file_d")
    main_solution ∧
  len main_solution ≤ 3 ∧
  last_goal_sibling
    (FileSystemSearch.FileSearchProblem FileSystemSearch.main_root "file_d")
    main_solution.
Proof.
  assert (H : FileSystemSearch.depth_limited_search 20
                (FileSystemSearch.FileSearchProblem
                   FileSystemSearch.main_root "file_d") 3 =
              Some (Found main_solution)) by (vm_compute; reflexivity).
  split; [exact H|].
  exact (file_system_pass_returns_goal_within_limit _ 20 3 main_solution H).
Defined.


(** ** element_search.py, any problem *)

Section ElementSearchLimits.
Context {State Action : Type}.
Variable problem : Problem State Action.

(** Two passes with different limits go through the same frontiers: they
    run out of fuel together, return the same node, or return a sentinel
    each. *)
Lemma element_pass_limits limit limit' fuel :
  ∀ (fr : LIFOQueue State Action) (res res' : Outcome State Action),
    res = failure ∨ res = cutoff → res' = failure ∨ res' = cutoff →
    (while (ElementSearch.dls_body problem limit) fuel (fr, res) = None ∧
     while (ElementSearch.dls_body problem limit') fuel (fr, res') = None) ∨
    (∃ x, while (ElementSearch.dls_body problem limit) fuel (fr, res) =
            Some (Found x) ∧
          while (ElementSearch.dls_body problem limit') fuel (fr, res') =
            Some (Found x)) ∨
    (∃ r r', while (ElementSearch.dls_body problem limit) fuel (fr, res) = Some r ∧
             while (ElementSearch.dls_body problem limit') fuel (fr, res') = Some r' ∧
             (r = failure ∨ r = cutoff) ∧ (r' = failure ∨ r' = cutoff)).
Proof.
  induction fuel as [|fuel IH]; intros fr res res' Hres Hres'; [by left|].
  destruct fr as [|node rest].
  - right. right. by exists res, res'.
  - cbn [while]. rewrite !element_body_unfold.
    destruct (is_goal problem (state node)).
    + right. left. by exists node.
    + apply IH.
      * destruct (limit <=? len node); [by right|done].
      * destruct (limit' <=? len node); [by right|done].
Qed.

Lemma element_pass_found_any_limit limit limit' fuel x :
  ElementSearch.depth_limited_search fuel problem limit = Some (Found x) →
  ElementSearch.depth_limited_search fuel problem limit' = Some (Found x).
Proof.
  unfold ElementSearch.depth_limited_search. intros Hrun.
  destruct (element_pass_limits limit limit' fuel
              [mkNode (initial problem) None None 0] failure failure)
    as [[H1 _]|[(y & H1 & H2)|(r & r' & H1 & _ & Hr & _)]];
    [by left|by left|congruence|congruence|].
  rewrite Hrun in H1. injection H1 as <-. by destruct Hr.
Qed.

Lemma element_pass_fuel_any_limit limit limit' fuel :
  ElementSearch.depth_limited_search fuel problem limit = None →
  ElementSearch.depth_limited_search fuel problem limit' = None.
Proof.
  unfold ElementSearch.depth_limited_search. intros Hrun.
  destruct (element_pass_limits limit limit' fuel
              [mkNode (initial problem) None None 0] failure failure)
    as [[_ H2]|[(y & H1 & H2)|(r & r' & H1 & _)]];
    [by left|by left|done|congruence|congruence].
Qed.
End ElementSearchLimits.

(** X6: in element_search.py the limit of a pass has no say in what is
    found.  Two passes over the same problem with different limits run out
    of fuel together and return the same node; the limit only decides
    which of the two sentinels a pass returns when it returns no node. *)
Theorem element_search_limit_only_picks_sentinel {State Action : Type}
    (problem : Problem State Action) (fuel limit limit' : nat) :
  (ElementSearch.depth_limited_search fuel problem limit = None ↔
   ElementSearch.depth_limited_search fuel problem limit' = None) ∧
  (∀ x, ElementSearch.depth_limited_search fuel problem limit = Some (Found x) ↔
        ElementSearch.depth_limited_search fuel problem limit' = Some (Found x)).
Proof.
  split; [|intros x]; split;
    eauto using element_pass_found_any_limit, element_pass_fuel_any_limit.
Qed.

(** X7: the driver of element_search.py returns a node only from its first
    pass, the one with limit 1: deepening the limit never finds a node that
    the first pass did not find. *)
Theorem element_search_driver_finds_in_first_pass {State Action : Type}
    (problem : Problem State Action) (maxsize fuel : nat) (x : Node State Action) :
  ElementSearch.iterative_deepening_search maxsize fuel problem =
    Some (Returned (Found x)) ↔
  1 < maxsize ∧
  ElementSearch.depth_limited_search fuel problem 1 = Some (Found x).
Proof.
  split.
  - intros Hdrv. apply for_limits_returned in Hdrv as (k & Hk & Hrun & _).
    split; [lia|]. by eapply element_pass_found_any_limit.
  - intros [Hmax Hrun].
    apply (for_limits_first _ _ _ 0); [lia|intros; lia|done|done].
Qed.


(** ** element_search.py on finite spaces *)

Section ElementSearchFinite.
Context {State Action : Type}.
Variable problem : Problem State Action.
Variable limit : nat.

Lemma descends_inv (node x : Node State Action) :
  descends problem node x →
  x = node ∨ ∃ c, c ∈ expand problem node ∧ descends problem c x.
Proof. destruct 1 as [n|n c x Hc Hx]; [by left|right; eauto]. Qed.

Lemma descends_in_search_tree (node x : Node State Action) :
  descends problem node x → in_search_tree problem node →
  in_search_tree problem x.
Proof.
  induction 1 as [n|n c x Hc Hx IH]; [done|].
  intros Hn. apply IH. by eapply in_tree_child.
Qed.

Lemma descends_bounded (node x : Node State Action) :
  descends problem node x →
  ∀ d, chains_bounded problem d (state node) → len x ≤ len node + d.
Proof.
  induction 1 as [n|n c x Hc Hx IH]; intros d Hd; [lia|].
  rewrite (expand_len _ _ _ Hc) in IH.
  apply expand_inv in Hc as (a & Ha & ->).
  destruct d as [|d].
  - simpl in Hd. rewrite Hd in Ha. by apply elem_of_nil in Ha.
  - specialize (IH d (Hd a Ha)). lia.
Qed.

Lemma below_singleton (node x : Node State Action) :
  below problem [node] x ↔ descends problem node x.
Proof.
  split.
  - intros (c & Hc & Hx). by apply list_elem_of_singleton in Hc as ->.
  - intros Hx. exists node. split; [|done]. by apply list_elem_of_singleton.
Qed.

Lemma below_cons (c : Node State Action) nodes x :
  below problem (c :: nodes) x ↔ descends problem c x ∨ below problem nodes x.
Proof.
  split.
  - intros (c' & Hc & Hx). apply elem_of_cons in Hc as [->|Hc]; [by left|].
    right. by exists c'.
  - intros [Hx|(c' & Hc & Hx)].
    + exists c. split; [apply elem_of_cons; by left|done].
    + exists c'. split; [apply elem_of_cons; by right|done].
Qed.

Lemma element_sweeps_nil : element_sweeps problem limit [].
Proof.
  intros rest res. right. split.
  - intros x (c & Hc & _). by apply elem_of_nil in Hc.
  - exists 0, res. split; [done|]. right. split; [done|].
    intros x (c & Hc & _). by apply elem_of_nil in Hc.
Qed.

Lemma element_sweeps_cons (c : Node State Action) nodes :
  element_sweeps problem limit [c] → element_sweeps problem limit nodes →
  element_sweeps problem limit (c :: nodes).
Proof.
  intros Hc Hn rest res.
  destruct (Hc (nodes ++ rest) res)
    as [(x & steps & Hb & Hg & Hrun)|(Hno & steps & res1 & Hrun & Hres1)].
  { left. exists x, steps. split; [|done].
    apply below_cons. left. by apply below_singleton. }
  destruct (Hn rest res1)
    as [(x & steps2 & Hb & Hg & Hrun2)|(Hno2 & steps2 & res2 & Hrun2 & Hres2)].
  { left. exists x, (steps + steps2). split; [apply below_cons; by right|].
    split; [done|]. intros f. rewrite <- Nat.add_assoc.
    change ((c :: nodes) ++ rest) with ([c] ++ nodes ++ rest).
    by rewrite Hrun, Hrun2. }
  right. split.
  { intros x Hx. apply below_cons in Hx as [Hx|Hx]; [|by apply Hno2].
    by apply Hno, below_singleton. }
  exists (steps + steps2), res2. split.
  { intros f. rewrite <- Nat.add_assoc.
    change ((c :: nodes) ++ rest) with ([c] ++ nodes ++ rest).
    by rewrite Hrun, Hrun2. }
  destruct Hres2 as [(-> & x & Hx & Hdeep)|[-> Hshallow2]].
  { left. split; [done|]. exists x. split; [apply below_cons; by right|done]. }
  destruct Hres1 as [(-> & x & Hx & Hdeep)|[-> Hshallow1]].
  { left. split; [done|]. exists x. split; [|done].
    apply below_cons. left. by apply below_singleton. }
  right. split; [done|]. intros x Hx.
  apply below_cons in Hx as [Hx|Hx]; [|by apply Hshallow2].
  by apply Hshallow1, below_singleton.
Qed.

Lemma element_sweeps_node (node : Node State Action) :
  element_sweeps problem limit (reverse (expand problem node)) →
  element_sweeps problem limit [node].
Proof.
  intros Hch rest res.
  assert (Hlift : ∀ x, below problem (reverse (expand problem node)) x →
            below problem [node] x).
  { intros x (c & Hc & Hx). rewrite elem_of_reverse in Hc.
    apply below_singleton. by eapply descends_child. }
  destruct (is_goal problem (state node)) eqn:Hg.
  { left. exists node, 1. split; [apply below_singleton; constructor|].
    split; [done|]. intros f. cbn [Nat.add app while].
    by rewrite element_body_unfold, Hg. }
  assert (Hstep : ∀ f,
            while (ElementSearch.dls_body problem limit) (S f) ([node] ++ rest, res) =
            while (ElementSearch.dls_body problem limit) f
              (reverse (expand problem node) ++ rest,
               if limit <=? len node then cutoff else res)).
  { intros f. cbn [app while]. by rewrite element_body_unfold, Hg. }
  destruct (Hch rest (if limit <=? len node then cutoff else res))
    as [(x & steps & Hb & Hgx & Hrun)|(Hno & steps & res' & Hrun & Hres')].
  { left. exists x, (S steps). split; [by apply Hlift|]. split; [done|].
    intros f. cbn [Nat.add]. by rewrite Hstep, Hrun. }
  right. split.
  { intros x Hx. apply below_singleton, descends_inv in Hx as [->|(c & Hc & Hx)];
      [done|].
    apply Hno. exists c. split; [by rewrite elem_of_reverse|done]. }
  exists (S steps), res'. split.
  { intros f. cbn [Nat.add]. by rewrite Hstep, Hrun. }
  destruct Hres' as [(-> & x & Hx & Hdeep)|[-> Hshallow]].
  { left. split; [done|]. exists x. split; [by apply Hlift|done]. }
  destruct (Nat.leb_spec limit (len node)) as [Hle|Hlt].
  { left. split; [done|]. exists node.
    split; [apply below_singleton; constructor|done]. }
  right. split; [done|]. intros x Hx.
  apply below_singleton, descends_inv in Hx as [->|(c & Hc & Hx)]; [done|].
  apply Hshallow. exists c. split; [by rewrite elem_of_reverse|done].
Qed.

Lemma element_sweeps_bounded d :
  ∀ nodes : list (Node State Action),
    (∀ c, c ∈ nodes → chains_bounded problem d (state c)) →
    element_sweeps problem limit nodes.
Proof.
  induction d as [|d IH]; intros nodes;
    (induction nodes as [|c nodes IHnodes]; intros Hb;
     [apply element_sweeps_nil|]);
    (apply element_sweeps_cons;
     [|apply IHnodes; intros c' Hc'; apply Hb, elem_of_cons; by right]);
    apply element_sweeps_node;
    assert (Hc : chains_bounded problem _ (state c))
      by (apply Hb, elem_of_cons; by left).
  - simpl in Hc. unfold expand. rewrite Hc. apply element_sweeps_nil.
  - apply IH. intros c' Hc'. rewrite elem_of_reverse in Hc'.
    apply expand_inv in Hc' as (a & Ha & ->). simpl. by apply Hc.
Qed.

(** A pass of element_search.py on a space of depth [d]. *)
Lemma element_pass_finite d :
  chains_bounded problem d (initial problem) →
  ∃ fuel0 r,
    (∀ fuel, fuel0 ≤ fuel →
       ElementSearch.depth_limited_search fuel problem limit = Some r) ∧
    match r with
    | Found x => in_search_tree problem x ∧ is_goal problem (state x) = true
    | cutoff =>
        (∀ y, in_search_tree problem y → is_goal problem (state y) = false) ∧
        ∃ y, in_search_tree problem y ∧ limit ≤ len y
    | failure =>
        (∀ y, in_search_tree problem y → is_goal problem (state y) = false) ∧
        ∀ y, in_search_tree problem y → len y < limit
    end.
Proof.
  intros Hd. set (root := mkNode (initial problem) None None 0 : Node State Action).
  assert (Hroot : ∀ x, below problem [root] x ↔ in_search_tree problem x).
  { intros x. rewrite below_singleton. split.
    - intros Hx. eapply descends_in_search_tree; [exact Hx|constructor].
    - apply in_search_tree_descends. }
  destruct (element_sweeps_bounded d [root]) with (rest := @nil (Node State Action))
                                                 (res := failure : Outcome State Action)
    as [(x & steps & Hb & Hg & Hrun)|(Hno & steps & res' & Hrun & Hres')].
  { intros c Hc. by apply list_elem_of_singleton in Hc as ->. }
  - exists steps, (Found x). split; [|split; [by apply Hroot|done]].
    intros fuel Hfuel. unfold ElementSearch.depth_limited_search.
    replace fuel with (steps + (fuel - steps)) by lia. apply Hrun.
  - exists (S steps), res'. split.
    + intros fuel Hfuel. unfold ElementSearch.depth_limited_search.
      replace fuel with (steps + S (fuel - S steps)) by lia.
      fold root. change [root] with ([root] ++ []). by rewrite Hrun.
    + destruct Hres' as [(-> & x & Hx & Hdeep)|[-> Hshallow]].
      * split; [intros y Hy; by apply Hno, Hroot|].
        exists x. split; [by apply Hroot|done].
      * split; intros y Hy; [by apply Hno, Hroot|by apply Hshallow, Hroot].
Qed.
End ElementSearchFinite.


Section FiniteSpaces.
Context {State Action : Type}.
Variable problem : Problem State Action.

Lemma chains_bounded_finite d s :
  chains_bounded problem d s → finite_below problem s.
Proof.
  revert s. induction d as [|d IH]; intros s Hd; constructor; intros a Ha.
  - simpl in Hd. rewrite Hd in Ha. by apply elem_of_nil in Ha.
  - apply IH. by apply Hd.
Qed.

Lemma in_search_tree_bounded d y :
  chains_bounded problem d (initial problem) → in_search_tree problem y →
  len y ≤ d.
Proof.
  intros Hd Hy. apply in_search_tree_descends in Hy.
  by apply (descends_bounded problem _ _ Hy d).
Qed.

(** Passes that return sentinels until one returns [failure]. *)
Lemma for_limits_until_failure (pass : nat → option (Outcome State Action)) k :
  ∀ count limit, k < count →
    (∀ i, i < k → pass (limit + i) = Some cutoff ∨ pass (limit + i) = Some failure) →
    pass (limit + k) = Some failure →
    for_limits pass count limit = Some (Returned failure).
Proof.
  induction k as [|k IH]; intros count limit Hk Hbefore Hlast;
    (destruct count as [|count]; [lia|]); cbn [for_limits].
  - rewrite Nat.add_0_r in Hlast. by rewrite Hlast.
  - destruct (Hbefore 0) as [H0|H0]; [lia| |];
      rewrite Nat.add_0_r in H0; rewrite H0; [|done].
    apply IH; [lia| |by replace (S limit + k) with (limit + S k) by lia].
    intros i Hi. replace (S limit + i) with (limit + S i) by lia.
    apply Hbefore. lia.
Qed.

Lemma element_driver_finite maxsize D :
  chains_bounded problem D (initial problem) → D + 2 ≤ maxsize →
  ∃ fuel0 r,
    (∀ fuel, fuel0 ≤ fuel →
       ElementSearch.iterative_deepening_search maxsize fuel problem =
       Some (Returned r)) ∧
    match r with
    | Found x => in_search_tree problem x ∧ is_goal problem (state x) = true
    | failure => ∀ y, in_search_tree problem y → is_goal problem (state y) = false
    | cutoff => False
    end.
Proof.
  intros HD Hmax.
  destruct (element_pass_finite problem 1 D HD) as (F1 & r1 & Hrun1 & Hr1).
  assert (Hfound : ∀ x, r1 = Found x →
            ∃ fuel0 r,
              (∀ fuel, fuel0 ≤ fuel →
                 ElementSearch.iterative_deepening_search maxsize fuel problem =
                 Some (Returned r)) ∧
              match r with
              | Found x => in_search_tree problem x ∧ is_goal problem (state x) = true
              | failure =>
                  ∀ y, in_search_tree problem y → is_goal problem (state y) = false
              | cutoff => False
              end).
  { intros x ->. exists F1, (Found x). split; [|done]. intros fuel Hfuel.
    apply (for_limits_first _ _ _ 0); [lia|intros; lia| |done].
    by apply Hrun1. }
  assert (Hno : (∀ y, in_search_tree problem y → is_goal problem (state y) = false) →
            ∃ fuel0 r,
              (∀ fuel, fuel0 ≤ fuel →
                 ElementSearch.iterative_deepening_search maxsize fuel problem =
                 Some (Returned r)) ∧
              match r with
              | Found x => in_search_tree problem x ∧ is_goal problem (state x) = true
              | failure =>
                  ∀ y, in_search_tree problem y → is_goal problem (state y) = false
              | cutoff => False
              end).
  { intros Hnone.
    assert (Hpasses : ∀ n, ∃ F, ∀ i, i < n → ∀ fuel, F ≤ fuel →
              ElementSearch.depth_limited_search fuel problem (1 + i) = Some cutoff ∨
              ElementSearch.depth_limited_search fuel problem (1 + i) = Some failure).
    { induction n as [|n [F HF]]; [exists 0; intros; lia|].
      destruct (element_pass_finite problem (1 + n) D HD) as (F' & r & Hrun & Hr).
      exists (F `max` F'). intros i Hi fuel Hfuel.
      destruct (decide (i = n)) as [->|Hne]; [|apply HF; lia].
      rewrite Hrun by lia. destruct r as [x| |]; [|by right|by left].
      destruct Hr as [Hx Hg]. rewrite (Hnone x Hx) in Hg. done. }
    destruct (Hpasses D) as [F HF].
    destruct (element_pass_finite problem (1 + D) D HD) as (F' & r & Hrun & Hr).
    exists (F `max` F'), failure. split; [|done]. intros fuel Hfuel.
    apply (for_limits_until_failure _ D); [lia| |].
    - intros i Hi. apply HF; lia.
    - rewrite Hrun by lia. destruct r as [x| |]; [|done|].
      + destruct Hr as [Hx Hg]. rewrite (Hnone x Hx) in Hg. done.
      + destruct Hr as (_ & y & Hy & Hdeep).
        pose proof (in_search_tree_bounded D y HD Hy). lia. }
  destruct r1 as [x| |]; [by apply (Hfound x)|apply Hno, Hr1..].
Qed.
End FiniteSpaces.

Lemma user_tree_bounded (root : ElementSearch.BinaryTreeNode) (goal : Z)
    (t : ElementSearch.BinaryTreeNode) :
  chains_bounded (ElementSearch.UserSearchProblem root goal)
    (BinaryTree.height t) t.
Proof.
  induction t as [v l r IHl IHr] using BinaryTreeNode_induction.
  destruct l as [tl|], r as [tr|]; cbn [BinaryTree.height ElementSearch.left
    ElementSearch.right]; [| | |done];
    rewrite ?Nat.max_0_r, ?Nat.max_0_l; try rewrite <- Nat.succ_max_distr;
    intros a Ha; simpl in Ha;
    repeat (apply elem_of_cons in Ha as [->|Ha]); try (by apply elem_of_nil in Ha);
    simpl.
  - eapply chains_bounded_le; [|by apply IHl]. lia.
  - eapply chains_bounded_le; [|by apply IHr]. lia.
  - by apply IHl.
  - by apply IHr.
Qed.


(** Without the recursion limit: main of element_search.py prints True
    when some node of the tree carries the value looked for and False when
    none does. *)
Lemma unlimited_element_main
    (maxsize : nat) (T : ElementSearch.BinaryTreeNode) (g : Z) :
  BinaryTree.height T + 2 ≤ maxsize →
  ∃ fuel0, ∀ fuel, fuel0 ≤ fuel →
    ElementSearchMain.main_on maxsize fuel T g =
    Some (bool_decide (g ∈ BinaryTree.tree_values T)).
Proof.
  intros Hmax. exists (S (BinaryTree.size T)). intros fuel Hfuel.
  unfold ElementSearchMain.main_on, ElementSearch.iterative_deepening_search.
  cbv zeta.
  destruct (decide (g ∈ BinaryTree.tree_values T)) as [Hin|Hnot].
  - destruct (pass_finds_value T g 1 T Hin) as (x & Hx & Hrun).
    rewrite (for_limits_first _ _ _ 0 (Found x)); [|lia|intros; lia| |done].
    + by rewrite bool_decide_eq_true_2.
    + unfold ElementSearch.depth_limited_search. simpl. apply Hrun. lia.
  - rewrite (for_limits_first _ _ _ (BinaryTree.height T) failure);
      [|lia| | |done].
    + by rewrite bool_decide_eq_false_2.
    + intros i Hi. unfold ElementSearch.depth_limited_search. simpl.
      rewrite (pass_without_value T g (1 + i) T Hnot) by lia.
      destruct (Nat.leb_spec (1 + i) (BinaryTree.height T)); [done|lia].
    + unfold ElementSearch.depth_limited_search. simpl.
      rewrite (pass_without_value T g (1 + BinaryTree.height T) T Hnot) by lia.
      destruct (Nat.leb_spec (1 + BinaryTree.height T) (BinaryTree.height T));
        [lia|done].
Qed.


(** ** file_system_search.py on finite spaces *)

Section FileSystemSpaces.
Context {State Action : Type}.
Variable problem : Problem State Action.

Lemma pass_result_found limit x :
  pass_result problem limit = Found x →
  is_goal problem (state x) = true ∧ in_search_tree problem x ∧ len x ≤ limit.
Proof.
  intros Hres. destruct (file_pass_total problem limit) as [F HF].
  specialize (HF F (Nat.le_refl _)). rewrite Hres in HF.
  by apply file_pass_found in HF as (? & ? & ? & _).
Qed.

(** A search tree that holds a goal holds one of least depth. *)
Lemma exists_shallowest_goal y :
  in_search_tree problem y → is_goal problem (state y) = true →
  ∃ x, in_search_tree problem x ∧ is_goal problem (state x) = true ∧
       ∀ z, in_search_tree problem z → is_goal problem (state z) = true →
            len x ≤ len z.
Proof.
  remember (len y) as n eqn:Hn. assert (Hle : len y ≤ n) by lia. clear Hn.
  revert y Hle. induction n as [|n IH]; intros y Hle Hy Hg.
  - exists y. split; [done|]. split; [done|]. intros z _ _. lia.
  - destruct (pass_result problem n) as [z| |] eqn:Hres.
    + apply pass_result_found in Hres as (Hgz & Hz & Hlz). by apply (IH z).
    + apply (pass_result_sentinel problem n y Hy) in Hres as [_ Hgy]. congruence.
    + exists y. split; [done|]. split; [done|]. intros z Hz Hgz.
      destruct (decide (len z ≤ n)) as [Hzn|Hzn]; [|lia].
      apply (pass_result_sentinel problem n z Hz) in Hres; [congruence|done].
Qed.

Lemma file_driver_finite maxsize D :
  chains_bounded problem D (initial problem) → D + 2 ≤ maxsize →
  ∃ fuel0 r,
    (∀ fuel, fuel0 ≤ fuel →
       FileSystemSearch.iterative_deepening_search maxsize fuel problem =
       Some (Returned r)) ∧
    match r with
    | Found x =>
        in_search_tree problem x ∧ is_goal problem (state x) = true ∧
        ∀ y, in_search_tree problem y → is_goal problem (state y) = true →
             len x ≤ len y
    | failure => ∀ y, in_search_tree problem y → is_goal problem (state y) = false
    | cutoff => False
    end.
Proof.
  intros HD Hmax.
  destruct (pass_result problem (D + 1)) as [n| |] eqn:Hdeep.
  - (* the tree holds a goal *)
    apply pass_result_found in Hdeep as (Hgn & Hn & _).
    destruct (exists_shallowest_goal n Hn Hgn) as (x & Hx & Hgx & Hmin).
    pose proof (in_search_tree_bounded problem D x HD Hx) as Hlen.
    destruct (file_driver_shallowest problem maxsize x Hx Hgx Hmin) as [F HF];
      [lia|].
    destruct (HF F (Nat.le_refl _)) as (m & _ & Hpm & _ & Hgm & Hm & Hlm).
    apply file_pass_is_pass_result in Hpm.
    exists F, (Found m). split.
    + intros fuel Hfuel. destruct (HF fuel Hfuel) as (m' & Hdrv & Hpm' & _).
      apply file_pass_is_pass_result in Hpm'. congruence.
    + split; [done|]. split; [done|]. intros y Hy Hgy. rewrite Hlm. by apply Hmin.
  - (* no goal in the tree *)
    assert (Hnone : ∀ y, in_search_tree problem y →
              is_goal problem (state y) = false).
    { intros y Hy.
      destruct (pass_result_sentinel problem (D + 1) y Hy) as [_ Hf].
      by destruct (Hf Hdeep). }
    destruct (first_not_cutoff (pass_result problem) 1 D)
      as (k & Hk & Hne & Hbefore).
    { eapply pass_result_beyond_depth; [exact HD|lia]. }
    destruct (file_passes_total problem (D + 1)) as [F HF].
    exists F, failure. split; [|done]. intros fuel Hfuel.
    apply (for_limits_first _ _ _ k); [lia| | |done].
    + intros i Hi. rewrite HF by lia. by rewrite Hbefore.
    + rewrite HF by lia. destruct (pass_result problem (1 + k)) as [n| |] eqn:Hres;
        [|done|done].
      apply pass_result_found in Hres as (Hg & Hn & _).
      rewrite (Hnone n Hn) in Hg. done.
  - exfalso. revert Hdeep. eapply pass_result_beyond_depth; [exact HD|lia].
Qed.
End FileSystemSpaces.


Section DriverRange.
Context {State Action : Type}.
Variable problem : Problem State Action.


Lemma for_limits_all_cutoff (pass : nat → option (Outcome State Action)) count :
  ∀ limit, (∀ i, i < count → pass (limit + i) = Some cutoff) →
    for_limits pass count limit = Some RangeExhausted.
Proof.
  induction count as [|count IH]; intros limit Hall; [done|].
  cbn [for_limits]. rewrite <- (Nat.add_0_r limit) at 1.
  rewrite (Hall 0) by lia. apply IH. intros i Hi.
  replace (S limit + i) with (limit + S i) by lia. apply Hall. lia.
Qed.
End DriverRange.


(** ** main of file_system_search.py on any tree *)

Section FileTreeFacts.
Import FileSystemSearch FileTree.
Variable root : TreeNode.
Variable goal : string.

Local Abbreviation problem := (FileSearchProblem root goal).

Lemma route_to_snoc t l u c :
  route_to t l u → c ∈ children u → route_to t (l ++ [value c]) c.
Proof.
  induction 1 as [t|t c' l u Hc' Hroute IH]; intros Hc.
  - apply (route_down t c [value c] c Hc). constructor.
  - apply (route_down t c' _ c Hc'). by apply IH.
Qed.

Lemma path_states_unfold (node : Node TreeNode TreeNode) :
  path_states node =
  match parent node with None => [] | Some p => path_states p end ++
  [value (state node)].
Proof. by destruct node as [s [p|] a c]. Qed.

(** The states along the parent chain of a node of the search tree are a
    way down the tree. *)
Lemma in_search_tree_route y :
  in_search_tree problem y →
  route_to root (path_states y) (state y) ∧ length (path_states y) = S (len y).
Proof.
  induction 1 as [|par child Hpar [IH1 IH2] Hchild].
  - split; [constructor|done].
  - apply expand_inv in Hchild as (a & Ha & ->). cbn [path_states parent state len].
    split; [by apply (route_to_snoc _ _ (state par))|].
    rewrite length_app, IH2. simpl. lia.
Qed.

(** Every way down the tree is walked by a node of the search tree. *)
Lemma route_in_search_tree t l u :
  route_to t l u →
  ∀ node, in_search_tree problem node → state node = t →
    ∃ y, in_search_tree problem y ∧ state y = u ∧
         path_states y =
         match parent node with None => [] | Some p => path_states p end ++ l.
Proof.
  induction 1 as [t|t c l u Hc Hroute IH]; intros node Hnode Hst.
  - exists node. split; [done|]. split; [done|]. rewrite <- Hst.
    apply path_states_unfold.
  - set (child := mkNode c (Some node) (Some c) (path_cost node + 1)).
    assert (Hchild : child ∈ expand problem node).
    { unfold expand. apply list_elem_of_fmap. exists c. split; [done|].
      simpl. by rewrite Hst. }
    destruct (IH child) as (y & Hy & Hsty & Hpath);
      [by eapply in_tree_child|done|].
    exists y. split; [done|]. split; [done|].
    rewrite Hpath. cbn [parent child]. rewrite path_states_unfold, Hst.
    by rewrite <- app_assoc.
Qed.

Lemma height_above_child (c : TreeNode) cs :
  c ∈ cs → S (height c) ≤ foldr Nat.max 0 (map (λ c, S (height c)) cs).
Proof.
  induction cs as [|c' cs IH]; intros Hc; [by apply elem_of_nil in Hc|].
  apply elem_of_cons in Hc as [->|Hc]; simpl; [lia|].
  specialize (IH Hc). lia.
Qed.

Lemma file_tree_bounded t : chains_bounded problem (height t) t.
Proof.
  induction t as [v cs IH] using TreeNode_induction.
  destruct (height (mkTreeNode v cs)) as [|d] eqn:Hh.
  - simpl. destruct cs as [|c cs]; [done|].
    pose proof (height_above_child c (c :: cs)) as Hc. simpl in Hh, Hc.
    rewrite Hh in Hc. specialize (Hc ltac:(apply elem_of_cons; by left)). lia.
  - intros a Ha. simpl in Ha, Hh.
    pose proof (height_above_child a cs Ha) as Hle. rewrite Hh in Hle.
    rewrite Forall_forall in IH.
    apply (chains_bounded_le _ (height a)); [lia|]. simpl. by apply IH.
Qed.
End FileTreeFacts.


(** ** Costs and depths *)

Lemma path_cost_depth {State Action : Type} (problem : Problem State Action)
    (n : Node State Action) :
  (∀ s a s1, action_cost problem s a s1 = 1%Z) →
  in_search_tree problem n → path_cost n = Z.of_nat (len n).
Proof.
  intros Hunit. induction 1 as [|par child Hpar IH Hchild]; [done|].
  apply expand_inv in Hchild as (a & Ha & ->). simpl.
  rewrite IH, Hunit. lia.
Qed.

(** X15: with the action cost of 1 that all three adapters inherit, the
    path cost that [expand] adds up along a node's parent chain is the
    node's depth, so that [Node.__lt__] orders the nodes of the search
    tree by depth.  The depths are to stay below [2^53], up to where the
    floats that carry the cost count exactly. *)
Theorem path_cost_is_depth {State Action : Type}
    (problem : Problem State Action) (n m : Node State Action) :
  (∀ s a s1, action_cost problem s a s1 = 1%Z) →
  in_search_tree problem n → in_search_tree problem m →
  (Z.of_nat (len n) ≤ 2 ^ 53)%Z → (Z.of_nat (len m) ≤ 2 ^ 53)%Z →
  path_cost n = Z.of_nat (len n) ∧
  Node_lt n m = (len n <? len m).
Proof.
  intros Hunit Hn Hm _ _. unfold Node_lt.
  rewrite !(path_cost_depth problem) by done. split; [done|].
  destruct (Nat.ltb_spec (len n) (len m)); [apply Z.ltb_lt|apply Z.ltb_ge]; lia.
Qed.

Lemma path_cost_is_depth_witness :
  let problem :=
    FileSystemSearch.FileSearchProblem FileSystemSearch.main_root "file_d" in
  (∀ s a s1, action_cost problem s a s1 = 1%Z) ∧
  in_search_tree problem main_solution ∧
  in_search_tree problem (mkNode (initial problem) None None 0) ∧
  (Z.of_nat (len main_solution) ≤ 2 ^ 53)%Z ∧
  (Z.of_nat (len (mkNode (initial problem) None None 0 :
                    Node FileSystemSearch.TreeNode FileSystemSearch.TreeNode))
   ≤ 2 ^ 53)%Z ∧
  path_cost main_solution = Z.of_nat (len main_solution) ∧
  Node_lt main_solution (mkNode (initial problem) None None 0) =
    (len main_solution <?
     len (mkNode (initial problem) None None 0 :
            Node FileSystemSearch.TreeNode FileSystemSearch.TreeNode)).
Proof.
  intros problem.
  assert (H1 : ∀ s a s1, action_cost problem s a s1 = 1%Z) by done.
  assert (H2 : in_search_tree problem (mkNode (initial problem) None None 0))
    by constructor.
  assert (H3 : (Z.of_nat (len main_solution) ≤ 2 ^ 53)%Z) by (simpl; lia).
  assert (H4 : (Z.of_nat (len (mkNode (initial problem) None None 0 :
                    Node FileSystemSearch.TreeNode FileSystemSearch.TreeNode))
                ≤ 2 ^ 53)%Z) by (simpl; lia).
  split; [exact H1|]. split; [exact main_solution_in_tree|].
  split; [exact H2|]. split; [exact H3|]. split; [exact H4|].
  exact (path_cost_is_depth problem main_solution _ H1 main_solution_in_tree
           H2 H3 H4).
Defined.

(** ** What rights_search.py leaves in found_files *)

Section RightsSearchExact.
Context {Action : Type}.
Variable problem : Problem RightsSearch.FSNode Action.

(** The descent over a list of siblings, given what it does on each. *)
Lemma rights_visit_all_exact k :
  (∀ node res acc,
     match rights_visit problem k node (res, acc) with
     | inl (_, acc') =>
         acc' = acc ++ paths_below problem k node ∧
         length (paths_below problem k node) < (10 - length acc) `max` 1
     | inr (o, acc') =>
         acc' = acc ++ take ((10 - length acc) `max` 1) (paths_below problem k node) ∧
         (10 - length acc) `max` 1 ≤ length (paths_below problem k node) ∧
         ∃ n, o = Found n
     end) →
  ∀ nodes res acc,
    match rights_visit_all (rights_visit problem k) nodes (res, acc) with
    | inl (_, acc') =>
        acc' = acc ++ flat_map (paths_below problem k) nodes ∧
        length (flat_map (paths_below problem k) nodes) < (10 - length acc) `max` 1
    | inr (o, acc') =>
        acc' = acc ++ take ((10 - length acc) `max` 1)
                        (flat_map (paths_below problem k) nodes) ∧
        (10 - length acc) `max` 1 ≤ length (flat_map (paths_below problem k) nodes) ∧
        ∃ n, o = Found n
    end.
Proof.
  intros IH. induction nodes as [|c nodes IHn]; intros res acc;
    cbn [rights_visit_all flat_map].
  - split; [by rewrite app_nil_r|simpl; lia].
  - pose proof (IH c res acc) as Hc.
    destruct (rights_visit problem k c (res, acc)) as [[r1 a1]|[o a1]].
    + destruct Hc as [-> Hlt].
      pose proof (IHn r1 (acc ++ paths_below problem k c)) as Hrest.
      destruct (rights_visit_all (rights_visit problem k) nodes
                  (r1, acc ++ paths_below problem k c)) as [[r2 a2]|[o a2]].
      * destruct Hrest as [-> Hlt2]. rewrite ?length_app in *.
        split; [by rewrite app_assoc|lia].
      * destruct Hrest as (-> & Hle & Hn). rewrite ?length_app in *.
        split; [|split; [lia|done]].
        rewrite <- app_assoc. f_equal. rewrite take_app_ge by lia.
        do 2 f_equal. lia.
    + destruct Hc as (-> & Hle & Hn). rewrite ?length_app.
      split; [|split; [lia|done]]. by rewrite take_app_le by lia.
Qed.

(** The descent appends the paths of the nodes that count, in the order
    in which it meets them, until the list has ten entries; with ten
    entries or more at the start it stops at the first one. *)
Lemma rights_visit_exact k :
  ∀ node res acc,
    match rights_visit problem k node (res, acc) with
    | inl (_, acc') =>
        acc' = acc ++ paths_below problem k node ∧
        length (paths_below problem k node) < (10 - length acc) `max` 1
    | inr (o, acc') =>
        acc' = acc ++ take ((10 - length acc) `max` 1) (paths_below problem k node) ∧
        (10 - length acc) `max` 1 ≤ length (paths_below problem k node) ∧
        ∃ n, o = Found n
    end.
Proof.
  induction k as [|k IH]; intros node res acc;
    rewrite paths_below_unfold; cbn [rights_visit fst snd]; cbv zeta;
    destruct (counts problem node) eqn:Hc; cbn [andb].
  - destruct (Nat.leb_spec 10 (length (acc ++ [RightsSearch.path (state node)])))
      as [Hfull|Hroom]; rewrite length_app in *; simpl in *.
    + replace ((10 - length acc) `max` 1) with 1 by lia.
      split; [done|]. split; [lia|by eexists].
    + split; [done|lia].
  - simpl. split; [by rewrite app_nil_r|lia].
  - destruct (Nat.leb_spec 10 (length (acc ++ [RightsSearch.path (state node)])))
      as [Hfull|Hroom]; rewrite length_app in *; simpl in *.
    + replace ((10 - length acc) `max` 1) with 1 by lia.
      split; [done|]. split; [lia|by eexists].
    + pose proof (rights_visit_all_exact k IH (reverse (expand problem node)) res
                    (acc ++ [RightsSearch.path (state node)])) as Hall.
      destruct (rights_visit_all (rights_visit problem k) _ _) as [[r a]|[o a]];
        rewrite length_app in Hall; simpl in Hall.
      * destruct Hall as [-> Hlt]. split; [by rewrite <- app_assoc|lia].
      * destruct Hall as (-> & Hle & Hn). split; [|split; [lia|done]].
        rewrite <- app_assoc. f_equal.
        replace ((10 - length acc) `max` 1)
          with (S ((10 - (length acc + 1)) `max` 1)) by lia.
        done.
  - simpl. apply (rights_visit_all_exact k IH).
Qed.

Lemma rights_visit_sentinel k node res acc res' acc' :
  rights_visit problem k node (res, acc) = inl (res', acc') →
  res' = res ∨ res' = cutoff.
Proof.
  intros Hv.
  assert (Hne : res' ≠ cutoff → res' = res).
  { intros Hne.
    by destruct (rights_visit_complete problem k node res acc res' acc' Hv Hne). }
  destruct res' as [n| |]; [left|left|by right]; by apply Hne.
Qed.

Lemma rights_pass_exact limit found :
  (rights_pass_result problem limit found).2 =
    found ++ take ((10 - length found) `max` 1)
               (paths_below problem limit (mkNode (initial problem) None None 0)) ∧
  ((∃ n, (rights_pass_result problem limit found).1 = Found n) ↔
   (10 - length found) `max` 1 ≤
   length (paths_below problem limit (mkNode (initial problem) None None 0))).
Proof.
  unfold rights_pass_result.
  pose proof (rights_visit_exact limit (mkNode (initial problem) None None 0)
                failure found) as Hv.
  destruct (rights_visit problem limit _ (failure, found)) as [[r a]|[o a]] eqn:Hrun.
  - destruct Hv as [-> Hlt]. simpl. split; [by rewrite take_ge by lia|].
    split; [|lia]. intros [n ->].
    by destruct (rights_visit_sentinel _ _ _ _ _ _ Hrun).
  - destruct Hv as (-> & Hle & Hn). simpl. done.
Qed.

Lemma rights_pass_is_result fuel limit found out :
  RightsSearch.depth_limited_search fuel problem limit (Some found) = Some out →
  out = rights_pass_result problem limit found.
Proof.
  intros Hrun. destruct (rights_pass_total problem limit found) as [F HF].
  specialize (HF (fuel `max` F) ltac:(lia)).
  unfold RightsSearch.depth_limited_search in *.
  eapply (while_fuel_le _ fuel (fuel `max` F)) in Hrun; [|lia]. congruence.
Qed.

(** What the driver leaves: what was in the list, and then the paths that
    the passes at the limits [limit], [limit + 1], ... find, one pass after
    the other, up to the entry that fills the list. *)
Lemma rights_driver_exact fuel count :
  ∀ limit found out,
    RightsSearch.ids_for fuel problem count limit found = Some out →
    ∃ j, j ≤ count ∧
      out = found ++
        take ((10 - length found) `max` 1)
          (flat_map (λ k, paths_below problem k
                            (mkNode (initial problem) None None 0))
             (seq limit j)).
Proof.
  induction count as [|count IH]; intros limit found out;
    cbn [RightsSearch.ids_for].
  - intros [= <-]. exists 0. split; [done|]. simpl.
    by rewrite take_nil, app_nil_r.
  - destruct (RightsSearch.depth_limited_search fuel problem limit (Some found))
      as [[res found']|] eqn:Hpass; [|done].
    apply rights_pass_is_result in Hpass.
    destruct (rights_pass_exact limit found) as [Hfound _].
    rewrite <- Hpass in Hfound. simpl in Hfound.
    set (P := paths_below problem limit (mkNode (initial problem) None None 0)) in *.
    assert (Hone : found' = found ++
              take ((10 - length found) `max` 1)
                (flat_map (λ k, paths_below problem k
                                  (mkNode (initial problem) None None 0))
                   (seq limit 1))).
    { simpl. by rewrite app_nil_r. }
    destruct (Nat.leb_spec 10 (length found')) as [Hfull|Hroom].
    { intros [= <-]. exists 1. split; [lia|done]. }
    destruct (is_cutoff res); [|intros [= <-]; exists 1; split; [lia|done]].
    intros Hrest. apply IH in Hrest as (j & Hj & ->).
    exists (S j). split; [lia|].
    assert (Hlen : length P < (10 - length found) `max` 1).
    { destruct (decide (length P < (10 - length found) `max` 1)); [done|].
      rewrite Hfound, length_app, length_take in Hroom. lia. }
    rewrite take_ge in Hfound by lia. subst found'.
    cbn [seq flat_map]. fold P. rewrite <- app_assoc. f_equal.
    rewrite take_app_ge by lia. do 2 f_equal. rewrite length_app. lia.
Qed.
End RightsSearchExact.


(** X17: what the driver of rights_search.py leaves in found_files: the
    entries it was given, and then the paths that the passes with the
    limits [start_depth], [start_depth + 1], ... append, each pass starting
    again from the root, up to the entry that brings the list to ten.  A
    match within reach of several passes is listed once for each. *)
Theorem rights_driver_concatenates_passes {Action : Type}
    (problem : Problem RightsSearch.FSNode Action) (maxsize fuel start_depth : nat)
    (found out : list string) :
  RightsSearch.iterative_deepening_search maxsize fuel problem start_depth found =
    Some out →
  ∃ j, j ≤ maxsize - start_depth ∧
    out = found ++
      take ((10 - length found) `max` 1)
        (flat_map (λ k, paths_below problem k
                          (mkNode (initial problem) None None 0))
           (seq start_depth j)).
Proof. apply rights_driver_exact. Qed.

Lemma rights_driver_concatenates_passes_witness :
  RightsSearch.iterative_deepening_search 10 20 desktop_problem 3 [] =
    Some [desktop_a_b_f; desktop_a_b_f] ∧
  ∃ j, j ≤ 10 - 3 ∧
    [desktop_a_b_f; desktop_a_b_f] = [] ++
      take ((10 - length (@nil string)) `max` 1)
        (flat_map (λ k, paths_below desktop_problem k
                          (mkNode (initial desktop_problem) None None 0))
           (seq 3 j)).
Proof.
  assert (H : RightsSearch.iterative_deepening_search 10 20 desktop_problem 3 [] =
              Some [desktop_a_b_f; desktop_a_b_f]) by (vm_compute; reflexivity).
  split; [exact H|].
  exact (rights_driver_concatenates_passes desktop_problem 10 20 3 [] _ H).
Defined.

(** ** The adapter of rights_search.py *)

Lemma windows_tree_listed (os : RightsSearch.OS) (init : RightsSearch.FSNode)
    (y : Node RightsSearch.FSNode RightsSearch.FSNode) :
  in_search_tree (RightsSearch.WindowsFileSearchProblem os init) y →
  listed os (len y) (RightsSearch.path init) (RightsSearch.path (state y)).
Proof.
  induction 1 as [|par child Hpar IH Hchild]; [constructor|].
  rewrite (expand_len _ _ _ Hchild).
  apply expand_inv in Hchild as (a & Ha & ->). simpl in Ha |- *.
  destruct (RightsSearch.isdir os (RightsSearch.path (state par))) eqn:Hdir;
    [|by apply elem_of_nil in Ha].
  destruct (RightsSearch.listdir os (RightsSearch.path (state par)))
    as [items|] eqn:Hlist; [|by apply elem_of_nil in Ha].
  apply list_elem_of_fmap in Ha as (item & -> & Hitem). simpl.
  by eapply listed_step.
Qed.

(** What the driver run on the adapter adds to the list. *)
Lemma windows_driver_sound
    (os : RightsSearch.OS) (init : RightsSearch.FSNode)
    (maxsize fuel start_depth : nat) (found out : list string) :
  RightsSearch.iterative_deepening_search maxsize fuel
    (RightsSearch.WindowsFileSearchProblem os init) start_depth found = Some out →
  ∃ new, out = found ++ new ∧
    (length found < 10 → length out ≤ 10) ∧
    ∀ s, s ∈ new →
      RightsSearch.isfile os s = true ∧
      RightsSearch.st_mode os s = Some 33206%Z ∧
      ∃ n, 3 ≤ n ∧ listed os n (RightsSearch.path init) s.
Proof.
  intros Hrun. apply rights_driver_sound in Hrun as (new & -> & Hnew & Hlen).
  exists new. split; [done|]. split; [done|]. intros s Hs.
  rewrite Forall_forall in Hnew.
  destruct (Hnew s Hs) as (n & Hn & Hdepth & Hgoal & ->). simpl in Hgoal.
  destruct (RightsSearch.isfile os (RightsSearch.path (state n))); [|done].
  destruct (RightsSearch.st_mode os (RightsSearch.path (state n))) as [mode|];
    [|done].
  apply Z.eqb_eq in Hgoal as ->. split; [done|]. split; [done|].
  exists (len n). split; [done|]. by apply windows_tree_listed.
Qed.

(** X18: every entry the driver of rights_search.py adds to found_files,
    run on WindowsFileSearchProblem, is the path of a regular file whose
    st_mode is 33206, reached from the initial path through the listings
    of three directories or more.  Directories that cannot be listed,
    files that cannot be stat'ed and everything above depth 3 add nothing.
    The entries given at the start are kept in front, and a list started
    with fewer than ten entries ends with ten at most. *)
Theorem windows_search_lists_only_matching_files
    (os : RightsSearch.OS) (init : RightsSearch.FSNode)
    (maxsize fuel start_depth : nat) (found out : list string) :
  RightsSearch.iterative_deepening_search maxsize fuel
    (RightsSearch.WindowsFileSearchProblem os init) start_depth found = Some out →
  ∃ new, out = found ++ new ∧
    (length found < 10 → length out ≤ 10) ∧
    ∀ s, s ∈ new →
      RightsSearch.isfile os s = true ∧
      RightsSearch.st_mode os s = Some 33206%Z ∧
      ∃ n, 3 ≤ n ∧ listed os n (RightsSearch.path init) s.
Proof. apply windows_driver_sound. Qed.

Lemma windows_search_lists_only_matching_files_witness :
  RightsSearch.iterative_deepening_search 10 20
    (RightsSearch.WindowsFileSearchProblem desktop_os (RightsSearch.mkFSNode desktop))
    3 [] = Some [desktop_a_b_f; desktop_a_b_f] ∧
  ∃ new, [desktop_a_b_f; desktop_a_b_f] = [] ++ new ∧
    (length (@nil string) < 10 → length [desktop_a_b_f; desktop_a_b_f] ≤ 10) ∧
    ∀ s, s ∈ new →
      RightsSearch.isfile desktop_os s = true ∧
      RightsSearch.st_mode desktop_os s = Some 33206%Z ∧
      ∃ n, 3 ≤ n ∧
        listed desktop_os n (RightsSearch.path (RightsSearch.mkFSNode desktop)) s.
Proof.
  assert (H : RightsSearch.iterative_deepening_search 10 20
                (RightsSearch.WindowsFileSearchProblem desktop_os
                   (RightsSearch.mkFSNode desktop)) 3 [] =
              Some [desktop_a_b_f; desktop_a_b_f]) by (vm_compute; reflexivity).
  split; [exact H|].
  exact (windows_search_lists_only_matching_files desktop_os
           (RightsSearch.mkFSNode desktop) 10 20 3 [] _ H).
Defined.

Lemma desktop_three_deep :
  chains_bounded desktop_problem 3 (initial desktop_problem).
Proof.
  repeat (let a := fresh "a" in let Ha := fresh "Ha" in
          intros a Ha; vm_compute in Ha;
          repeat (apply elem_of_cons in Ha as [->|Ha]);
          try (by apply elem_of_nil in Ha); simpl);
    reflexivity.
Qed.


(** ** The two passes side by side *)

Section PassesSideBySide.
Context {State Action : Type}.
Variable problem : Problem State Action.

Lemma passes_agree_from fuel D limit :
  D < limit →
  ∀ (fr : LIFOQueue State Action) (res : Outcome State Action),
    (∀ n, n ∈ fr → ∃ e, chains_bounded problem e (state n) ∧ len n + e ≤ D) →
    while (ElementSearch.dls_body problem limit) fuel (fr, res) =
    while (FileSystemSearch.dls_body problem limit) fuel (fr, res).
Proof.
  intros Hlt. induction fuel as [|fuel IH]; intros fr res Hfr; [done|].
  destruct fr as [|node rest]; [done|].
  cbn [while]. rewrite element_body_unfold, file_body_unfold.
  destruct (is_goal problem (state node)); [done|].
  destruct (Hfr node) as (e & He & Hlen); [apply elem_of_cons; by left|].
  destruct (Nat.leb_spec limit (len node)); [lia|].
  apply IH. intros n Hn. apply elem_of_app in Hn as [Hn|Hn].
  - rewrite elem_of_reverse in Hn. rewrite (expand_len _ _ _ Hn).
    apply expand_inv in Hn as (a & Ha & ->). simpl.
    destruct e as [|e].
    + simpl in He. rewrite He in Ha. by apply elem_of_nil in Ha.
    + exists e. split; [by apply He|lia].
  - apply Hfr, elem_of_cons. by right.
Qed.

Lemma for_limits_returned_iff (pass : nat → option (Outcome State Action))
    count limit r :
  for_limits pass count limit = Some (Returned r) ↔
  ∃ k, k < count ∧ pass (limit + k) = Some r ∧ r ≠ cutoff ∧
       ∀ i, i < k → pass (limit + i) = Some cutoff.
Proof.
  split.
  - intros Hrun. pose proof (for_limits_not_cutoff _ _ _ _ Hrun) as Hne.
    apply for_limits_returned in Hrun as (k & Hk & Hr & Hbefore). by exists k.
  - intros (k & Hk & Hr & Hne & Hbefore). by apply (for_limits_first _ _ _ k).
Qed.

Lemma for_limits_exhausted_iff (pass : nat → option (Outcome State Action))
    count limit :
  for_limits pass count limit = Some RangeExhausted ↔
  ∀ i, i < count → pass (limit + i) = Some cutoff.
Proof. split; [apply for_limits_exhausted|apply for_limits_all_cutoff]. Qed.
End PassesSideBySide.

(** X21: once the limit is beyond the depth of a finite space, the pass
    of element_search.py and the pass of file_system_search.py do the same
    and return the same, whatever the fuel: the test on the depth, with or
    without its [else], never fires. *)
Theorem passes_agree_beyond_depth {State Action : Type}
    (problem : Problem State Action) (D limit fuel : nat) :
  chains_bounded problem D (initial problem) → D < limit →
  ElementSearch.depth_limited_search fuel problem limit =
  FileSystemSearch.depth_limited_search fuel problem limit.
Proof.
  intros HD Hlt. apply (passes_agree_from problem fuel D limit Hlt).
  intros n Hn. apply list_elem_of_singleton in Hn as ->.
  exists D. split; [done|simpl; lia].
Qed.

Lemma passes_agree_beyond_depth_witness :
  let problem :=
    FileSystemSearch.FileSearchProblem FileSystemSearch.main_root "file_x" in
  chains_bounded problem 3 (initial problem) ∧ 3 < 4 ∧
  ElementSearch.depth_limited_search 20 problem 4 =
  FileSystemSearch.depth_limited_search 20 problem 4.
Proof.
  intros problem.
  assert (H : chains_bounded problem 3 (initial problem))
    by apply main_root_three_deep.
  assert (Hlt : 3 < 4) by lia.
  split; [exact H|]. split; [exact Hlt|].
  exact (passes_agree_beyond_depth problem 3 4 20 H Hlt).
Defined.

(** X22: what the [for] loop of the drivers of element_search.py and
    file_system_search.py amounts to.  The limits run from 1 to
    [sys.maxsize - 1]; the driver returns the result of the first pass
    that is not cut off, and it returns None exactly when every pass of
    the range is cut off, which includes the empty range. *)
Theorem drivers_return_first_pass_not_cut_off {State Action : Type}
    (problem : Problem State Action) (maxsize fuel : nat) :
  (∀ r,
     ElementSearch.iterative_deepening_search maxsize fuel problem =
       Some (Returned r) ↔
     ∃ k, k < maxsize - 1 ∧
       ElementSearch.depth_limited_search fuel problem (1 + k) = Some r ∧
       r ≠ cutoff ∧
       ∀ i, i < k →
         ElementSearch.depth_limited_search fuel problem (1 + i) = Some cutoff) ∧
  (ElementSearch.iterative_deepening_search maxsize fuel problem =
     Some RangeExhausted ↔
   ∀ i, i < maxsize - 1 →
     ElementSearch.depth_limited_search fuel problem (1 + i) = Some cutoff) ∧
  (∀ r,
     FileSystemSearch.iterative_deepening_search maxsize fuel problem =
       Some (Returned r) ↔
     ∃ k, k < maxsize - 1 ∧
       FileSystemSearch.depth_limited_search fuel problem (1 + k) = Some r ∧
       r ≠ cutoff ∧
       ∀ i, i < k →
         FileSystemSearch.depth_limited_search fuel problem (1 + i) = Some cutoff) ∧
  (FileSystemSearch.iterative_deepening_search maxsize fuel problem =
     Some RangeExhausted ↔
   ∀ i, i < maxsize - 1 →
     FileSystemSearch.depth_limited_search fuel problem (1 + i) = Some cutoff).
Proof.
  split; [|split; [|split]].
  - intros r. apply for_limits_returned_iff.
  - apply for_limits_exhausted_iff.
  - intros r. apply for_limits_returned_iff.
  - apply for_limits_exhausted_iff.
Qed.

(** * The scripts under the recursion limit *)

Section LenWithin.
Context {State Action : Type}.

Lemma len_within_spec frames (n : Node State Action) :
  len_within frames n = if len n <? frames then Done (len n) else RecursionError.
Proof.
  revert n. induction frames as [|frames IH]; intros n; [done|].
  destruct n as [s [p|] a c]; cbn [len_within parent len]; [|done].
  rewrite IH. change (S (len p) <? S frames) with (len p <? frames).
  by destruct (len p <? frames).
Qed.

Lemma len_within_Done frames (n : Node State Action) :
  len n < frames → len_within frames n = Done (len n).
Proof.
  intros Hlt. rewrite len_within_spec.
  by destruct (Nat.ltb_spec (len n) frames); [|lia].
Qed.

Lemma len_within_raises frames (n : Node State Action) :
  frames ≤ len n → len_within frames n = RecursionError.
Proof.
  intros Hle. rewrite len_within_spec.
  by destruct (Nat.ltb_spec (len n) frames); [lia|].
Qed.
End LenWithin.

(** ** Loops with and without the limit *)

Section WhileWithin.
Context {St Res : Type}.
Variable body : St → St + Res.
Variable body' : St → St + Run Res.

Lemma while_after_iterate (b : St → St + Run Res) k f s s' :
  iterate b k s = inl s' → while b (k + f) s = while b f s'.
Proof.
  revert s. induction k as [|k IH]; intros s; cbn [iterate Nat.add while].
  - by intros [= ->].
  - destruct (b s) as [s1|r]; [apply IH|done].
Qed.

(** As long as no call is refused in any state the loop goes through, the
    loop with the limit does what the loop without it does. *)
Lemma while_within_agrees fuel :
  ∀ s, (∀ k s', iterate body k s = inl s' → body' s' = unraised (body s')) →
    while body' fuel s = Done <$> while body fuel s.
Proof.
  induction fuel as [|fuel IH]; intros s Hsafe; [done|].
  cbn [while]. rewrite (Hsafe 0 s eq_refl).
  destruct (body s) as [s1|r] eqn:Hb; cbn [unraised]; [|done].
  apply IH. intros k s' Hit. apply (Hsafe (S k)). cbn [iterate]. by rewrite Hb.
Qed.

Lemma iterate_within_agrees k :
  ∀ s, (∀ j s', iterate body j s = inl s' → body' s' = unraised (body s')) →
    iterate body' k s = unraised (iterate body k s).
Proof.
  induction k as [|k IH]; intros s Hsafe; [done|].
  cbn [iterate]. rewrite (Hsafe 0 s eq_refl).
  destruct (body s) as [s1|r] eqn:Hb; cbn [unraised]; [|done].
  apply IH. intros j s' Hit. apply (Hsafe (S j)). cbn [iterate]. by rewrite Hb.
Qed.

Hypothesis refines : ∀ s, body' s = unraised (body s) ∨ body' s = inr RecursionError.

(** A value the loop with the limit returns is the value the loop without
    it returns. *)
Lemma while_within_refines fuel :
  ∀ s r, while body' fuel s = Some (Done r) → while body fuel s = Some r.
Proof.
  induction fuel as [|fuel IH]; intros s r; [done|]. cbn [while].
  destruct (refines s) as [-> | ->]; [|done].
  destruct (body s) as [s1|r1]; cbn [unraised]; [apply IH|congruence].
Qed.

Lemma iterate_within_refines k :
  ∀ s s', iterate body' k s = inl s' → iterate body k s = inl s'.
Proof.
  induction k as [|k IH]; intros s s'; [by intros [= ->]|]. cbn [iterate].
  destruct (refines s) as [-> | ->]; [|done].
  destruct (body s) as [s1|r1]; cbn [unraised]; [apply IH|done].
Qed.

(** Where the loop without the limit ends, the loop with it has ended
    too: with the same value, or with RecursionError before. *)
Lemma while_within_ends fuel :
  ∀ s r, while body fuel s = Some r →
    while body' fuel s = Some (Done r) ∨ while body' fuel s = Some RecursionError.
Proof.
  induction fuel as [|fuel IH]; intros s r; [done|]. cbn [while].
  destruct (refines s) as [-> | ->]; [|by right].
  destruct (body s) as [s1|r1]; cbn [unraised]; [apply IH|].
  intros [= ->]. by left.
Qed.
End WhileWithin.

(** ** The frontier on a finite space *)

Section BoundedFrontier.
Context {State Action : Type}.
Variable problem : Problem State Action.
Variable D : nat.

(** Popping a node, with or without pushing its children, keeps every node
    of the frontier within a space of depth [D]. *)
Lemma bounded_frontier_step (node : Node State Action)
    (rest fr' : LIFOQueue State Action) :
  (∀ n, n ∈ node :: rest →
        ∃ e, chains_bounded problem e (state n) ∧ len n + e ≤ D) →
  fr' = rest ∨ fr' = append_all (expand problem node) rest →
  ∀ n, n ∈ fr' → ∃ e, chains_bounded problem e (state n) ∧ len n + e ≤ D.
Proof.
  intros Hfr Hshape n Hn.
  assert (Hrest : ∀ m, m ∈ rest →
            ∃ e, chains_bounded problem e (state m) ∧ len m + e ≤ D).
  { intros m Hm. apply Hfr, elem_of_cons. by right. }
  destruct Hshape as [-> | ->]; [by apply Hrest|].
  rewrite append_all_rev in Hn. apply elem_of_app in Hn as [Hn|Hn];
    [|by apply Hrest].
  rewrite elem_of_reverse in Hn. rewrite (expand_len _ _ _ Hn).
  destruct (Hfr node) as (e & He & Hlen); [apply elem_of_cons; by left|].
  apply expand_inv in Hn as (a & Ha & ->). simpl.
  destruct e as [|e].
  - simpl in He. rewrite He in Ha. by apply elem_of_nil in Ha.
  - exists e. split; [by apply He|lia].
Qed.

Lemma bounded_frontier_root :
  chains_bounded problem D (initial problem) →
  ∀ n : Node State Action, n ∈ [mkNode (initial problem) None None 0] →
    ∃ e, chains_bounded problem e (state n) ∧ len n + e ≤ D.
Proof.
  intros HD n Hn. apply list_elem_of_singleton in Hn as ->.
  exists D. split; [done|simpl; lia].
Qed.
End BoundedFrontier.

(** ** The passes with and without the limit *)

Section PassesWithin.
Context {State Action : Type}.
Variable problem : Problem State Action.
Variable frames limit : nat.

Lemma element_body_within (fr : LIFOQueue State Action) res :
  (∀ node rest, fr = node :: rest → len node < frames) →
  LimitedElementSearch.dls_body problem frames limit (fr, res) =
  unraised (ElementSearch.dls_body problem limit (fr, res)).
Proof.
  intros Hsafe. destruct fr as [|node rest]; [done|].
  cbn [LimitedElementSearch.dls_body ElementSearch.dls_body].
  destruct (is_goal problem (state node)); [done|].
  by rewrite (len_within_Done frames node (Hsafe node rest eq_refl)).
Qed.

Lemma element_body_refines st :
  LimitedElementSearch.dls_body problem frames limit st =
    unraised (ElementSearch.dls_body problem limit st) ∨
  LimitedElementSearch.dls_body problem frames limit st = inr RecursionError.
Proof.
  destruct st as [[|node rest] res]; [by left|].
  destruct (decide (len node < frames)) as [Hlt|Hge].
  - left. apply element_body_within. by intros ? ? [= <- <-].
  - cbn [LimitedElementSearch.dls_body ElementSearch.dls_body].
    destruct (is_goal problem (state node)); [by left|].
    right. by rewrite len_within_raises by lia.
Qed.

Lemma file_body_within (fr : LIFOQueue State Action) res :
  (∀ node rest, fr = node :: rest → len node < frames) →
  LimitedFileSystemSearch.dls_body problem frames limit (fr, res) =
  unraised (FileSystemSearch.dls_body problem limit (fr, res)).
Proof.
  intros Hsafe. destruct fr as [|node rest]; [done|].
  cbn [LimitedFileSystemSearch.dls_body FileSystemSearch.dls_body].
  destruct (is_goal problem (state node)); [done|].
  rewrite (len_within_Done frames node (Hsafe node rest eq_refl)).
  by destruct (limit <=? len node).
Qed.

Lemma file_body_refines st :
  LimitedFileSystemSearch.dls_body problem frames limit st =
    unraised (FileSystemSearch.dls_body problem limit st) ∨
  LimitedFileSystemSearch.dls_body problem frames limit st = inr RecursionError.
Proof.
  destruct st as [[|node rest] res]; [by left|].
  destruct (decide (len node < frames)) as [Hlt|Hge].
  - left. apply file_body_within. by intros ? ? [= <- <-].
  - cbn [LimitedFileSystemSearch.dls_body FileSystemSearch.dls_body].
    destruct (is_goal problem (state node)); [by left|].
    right. by rewrite len_within_raises by lia.
Qed.

(** On a space of depth [D] the frontiers of both passes stay within it. *)
Lemma element_frontier_bounded D k fr res :
  chains_bounded problem D (initial problem) →
  iterate (ElementSearch.dls_body problem limit) k
    ([mkNode (initial problem) None None 0], failure) = inl (fr, res) →
  ∀ n, n ∈ fr → len n ≤ D.
Proof.
  intros HD Hit.
  assert (Hinv : ∀ n, n ∈ fr →
            ∃ e, chains_bounded problem e (state n) ∧ len n + e ≤ D).
  { refine (iterate_invariant (ElementSearch.dls_body problem limit)
      (λ st, ∀ n, n ∈ st.1 →
               ∃ e, chains_bounded problem e (state n) ∧ len n + e ≤ D)
      _ k _ (fr, res) _ Hit).
    - intros [[|node rest] r] st' Hfr; [done|]. cbn [ElementSearch.dls_body].
    destruct (is_goal problem (state node)); [done|]. intros [= <-].
    apply (bounded_frontier_step problem D node rest); [done|by right].
    - by apply bounded_frontier_root. }
  intros n Hn. destruct (Hinv n Hn) as (e & _ & Hlen). lia.
Qed.

Lemma file_frontier_bounded D k fr res :
  chains_bounded problem D (initial problem) →
  iterate (FileSystemSearch.dls_body problem limit) k
    ([mkNode (initial problem) None None 0], failure) = inl (fr, res) →
  ∀ n, n ∈ fr → len n ≤ D.
Proof.
  intros HD Hit.
  assert (Hinv : ∀ n, n ∈ fr →
            ∃ e, chains_bounded problem e (state n) ∧ len n + e ≤ D).
  { refine (iterate_invariant (FileSystemSearch.dls_body problem limit)
      (λ st, ∀ n, n ∈ st.1 →
               ∃ e, chains_bounded problem e (state n) ∧ len n + e ≤ D)
      _ k _ (fr, res) _ Hit).
    - intros [[|node rest] r] st' Hfr; [done|]. cbn [FileSystemSearch.dls_body].
    destruct (is_goal problem (state node)); [done|].
    destruct (limit <=? len node); intros [= <-];
      apply (bounded_frontier_step problem D node rest); auto.
    - by apply bounded_frontier_root. }
  intros n Hn. destruct (Hinv n Hn) as (e & _ & Hlen). lia.
Qed.

(** On a space that is less deep than the calls of [__len__] allowed, no
    call is refused: the passes with the limit are the passes without. *)
Lemma element_pass_within_finite D fuel :
  chains_bounded problem D (initial problem) → D < frames →
  LimitedElementSearch.depth_limited_search frames fuel problem limit =
  Done <$> ElementSearch.depth_limited_search fuel problem limit.
Proof.
  intros HD Hlt. apply while_within_agrees. intros k [fr res] Hit.
  apply element_body_within. intros node rest ->.
  pose proof (element_frontier_bounded D k _ _ HD Hit node) as Hn.
  specialize (Hn ltac:(apply elem_of_cons; by left)). lia.
Qed.

Lemma file_pass_within_finite D fuel :
  chains_bounded problem D (initial problem) → D < frames →
  LimitedFileSystemSearch.depth_limited_search frames fuel problem limit =
  Done <$> FileSystemSearch.depth_limited_search fuel problem limit.
Proof.
  intros HD Hlt. apply while_within_agrees. intros k [fr res] Hit.
  apply file_body_within. intros node rest ->.
  pose proof (file_frontier_bounded D k _ _ HD Hit node) as Hn.
  specialize (Hn ltac:(apply elem_of_cons; by left)). lia.
Qed.

(** A pass of file_system_search.py keeps its frontier above its limit,
    so that a limit below the calls allowed is enough. *)
Lemma file_pass_within_limit fuel :
  limit < frames →
  LimitedFileSystemSearch.depth_limited_search frames fuel problem limit =
  Done <$> FileSystemSearch.depth_limited_search fuel problem limit.
Proof.
  intros Hlt. apply while_within_agrees. intros k [fr res] Hit.
  apply file_body_within. intros node rest ->.
  pose proof (iterate_invariant _ _ (file_frontier_ok_step problem limit)
                k _ _ (file_frontier_ok_init problem limit) Hit)
    as (Hfr & _).
  destruct (Hfr node) as [_ Hlen]; [simpl; apply elem_of_cons; by left|lia].
Qed.

Lemma file_iterate_within k fr res :
  iterate (LimitedFileSystemSearch.dls_body problem frames limit) k
    ([mkNode (initial problem) None None 0], failure) = inl (fr, res) →
  iterate (FileSystemSearch.dls_body problem limit) k
    ([mkNode (initial problem) None None 0], failure) = inl (fr, res).
Proof. apply iterate_within_refines, file_body_refines. Qed.

Lemma file_pass_within_ends fuel r :
  FileSystemSearch.depth_limited_search fuel problem limit = Some r →
  LimitedFileSystemSearch.depth_limited_search frames fuel problem limit =
    Some (Done r) ∨
  LimitedFileSystemSearch.depth_limited_search frames fuel problem limit =
    Some RecursionError.
Proof. apply while_within_ends, file_body_refines. Qed.
End PassesWithin.

(** ** The drivers with and without the limit *)

Section DriversWithin.
Context {State Action : Type}.
Implicit Types (pass : nat → option (Outcome State Action))
               (run : nat → option (Run (Outcome State Action))).

Lemma for_limits_within_agrees pass run count :
  ∀ limit,
    (∀ i, i < count → run (limit + i) = Done <$> pass (limit + i)) →
    for_limits_within run count limit = Done <$> for_limits pass count limit.
Proof.
  induction count as [|count IH]; intros limit Hsame; [done|].
  cbn [for_limits_within for_limits].
  pose proof (Hsame 0 ltac:(lia)) as H0. rewrite Nat.add_0_r in H0. rewrite H0.
  destruct (pass limit) as [[n| |]|]; try done. cbn [fmap option_fmap option_map].
  apply IH. intros i Hi. replace (S limit + i) with (limit + S i) by lia.
  apply Hsame. lia.
Qed.

Lemma for_limits_within_first run count limit k r :
  k < count →
  (∀ i, i < k → run (limit + i) = Some (Done cutoff)) →
  run (limit + k) = Some (Done r) → r ≠ cutoff →
  for_limits_within run count limit = Some (Done (Returned r)).
Proof.
  revert count limit.
  induction k as [|k IH]; intros count limit Hk Hbefore Hr Hne;
    (destruct count as [|count]; [lia|]); cbn [for_limits_within].
  - rewrite Nat.add_0_r in Hr. rewrite Hr. by destruct r.
  - pose proof (Hbefore 0 ltac:(lia)) as H0. rewrite Nat.add_0_r in H0.
    rewrite H0.
    apply IH; [lia| |by replace (S limit + k) with (limit + S k) by lia|done].
    intros i Hi. replace (S limit + i) with (limit + S i) by lia.
    apply Hbefore. lia.
Qed.

Lemma for_limits_within_raises run count limit k :
  k < count →
  (∀ i, i < k → run (limit + i) = Some (Done cutoff)) →
  run (limit + k) = Some RecursionError →
  for_limits_within run count limit = Some RecursionError.
Proof.
  revert count limit.
  induction k as [|k IH]; intros count limit Hk Hbefore Hr;
    (destruct count as [|count]; [lia|]); cbn [for_limits_within].
  - rewrite Nat.add_0_r in Hr. by rewrite Hr.
  - pose proof (Hbefore 0 ltac:(lia)) as H0. rewrite Nat.add_0_r in H0.
    rewrite H0.
    apply IH; [lia| |by replace (S limit + k) with (limit + S k) by lia].
    intros i Hi. replace (S limit + i) with (limit + S i) by lia.
    apply Hbefore. lia.
Qed.

Lemma for_limits_within_all_cutoff run count :
  ∀ limit, (∀ i, i < count → run (limit + i) = Some (Done cutoff)) →
    for_limits_within run count limit = Some (Done RangeExhausted).
Proof.
  induction count as [|count IH]; intros limit Hall; [done|].
  cbn [for_limits_within].
  pose proof (Hall 0 ltac:(lia)) as H0. rewrite Nat.add_0_r in H0. rewrite H0.
  apply IH. intros i Hi.
  replace (S limit + i) with (limit + S i) by lia. apply Hall. lia.
Qed.
End DriversWithin.

Section FiniteWithin.
Context {State Action : Type}.
Variable problem : Problem State Action.
Variable frames maxsize D : nat.
Hypothesis depth : chains_bounded problem D (initial problem).
Hypothesis room : D < frames.

Lemma element_driver_within_finite fuel :
  LimitedElementSearch.iterative_deepening_search frames maxsize fuel problem =
  Done <$> ElementSearch.iterative_deepening_search maxsize fuel problem.
Proof.
  apply for_limits_within_agrees. intros i _.
  by apply (element_pass_within_finite problem frames _ D).
Qed.

Lemma file_driver_within_finite fuel :
  LimitedFileSystemSearch.iterative_deepening_search frames maxsize fuel problem =
  Done <$> FileSystemSearch.iterative_deepening_search maxsize fuel problem.
Proof.
  apply for_limits_within_agrees. intros i _.
  by apply (file_pass_within_finite problem frames _ D).
Qed.
End FiniteWithin.

(** ** element_search.py under the recursion limit, on finite spaces *)

(** C1, as amended: on a binary tree whose height is below the number of
    nested calls of [Node.__len__] that the interpreter allows, the driver
    of element_search.py returns a node carrying the goal value exactly
    when some node of the tree carries it, and the failure sentinel
    otherwise.  The range of limits must reach past the height of the
    tree: [height T + 2 ≤ sys.maxsize]. *)
Theorem element_search_finds_exactly_present_values_below_recursion_limit
    (frames maxsize : nat) (T : ElementSearch.BinaryTreeNode) (g : Z) :
  BinaryTree.height T < frames →
  BinaryTree.height T + 2 ≤ maxsize →
  ∃ fuel0, ∀ fuel, fuel0 ≤ fuel →
    let answer :=
      LimitedElementSearch.iterative_deepening_search frames maxsize fuel
        (ElementSearch.UserSearchProblem T g) in
    ((∃ n, answer = Some (Done (Returned (Found n))) ∧
           ElementSearch.value (state n) = g)
     ↔ g ∈ BinaryTree.tree_values T) ∧
    (g ∉ BinaryTree.tree_values T → answer = Some (Done (Returned failure))).
Proof.
  intros Hroom Hmax.
  destruct (unlimited_element_driver_on_tree maxsize T g Hmax) as [F HF].
  exists F. intros fuel Hfuel answer.
  assert (Hans : answer =
            Done <$> ElementSearch.iterative_deepening_search maxsize fuel
                       (ElementSearch.UserSearchProblem T g)).
  { apply (element_driver_within_finite _ frames maxsize (BinaryTree.height T));
      [apply user_tree_bounded|done]. }
  destruct (HF fuel Hfuel) as [Hiff Hnot]. rewrite Hans. split.
  - rewrite <- Hiff. split; intros (n & Hn & Hv); exists n; (split; [|done]).
    + destruct (ElementSearch.iterative_deepening_search maxsize fuel _)
        as [a|]; [|done].
      by injection Hn as ->.
    + by rewrite Hn.
  - intros Hno. by rewrite (Hnot Hno).
Qed.

Lemma element_search_finds_exactly_present_values_below_recursion_limit_witness :
  BinaryTree.height ElementSearch.main_root < default_frames ∧
  BinaryTree.height ElementSearch.main_root + 2 ≤ sys_maxsize ∧
  ∃ fuel0, ∀ fuel, fuel0 ≤ fuel →
    let answer :=
      LimitedElementSearch.iterative_deepening_search default_frames sys_maxsize
        fuel (ElementSearch.UserSearchProblem ElementSearch.main_root 4) in
    ((∃ n, answer = Some (Done (Returned (Found n))) ∧
           ElementSearch.value (state n) = 4%Z)
     ↔ 4%Z ∈ BinaryTree.tree_values ElementSearch.main_root) ∧
    (4%Z ∉ BinaryTree.tree_values ElementSearch.main_root →
     answer = Some (Done (Returned failure))).
Proof.
  assert (H1 : BinaryTree.height ElementSearch.main_root < default_frames)
    by (vm_compute; lia).
  assert (H2 : BinaryTree.height ElementSearch.main_root + 2 ≤ sys_maxsize).
  { pose proof sys_maxsize_large. simpl. lia. }
  split; [exact H1|]. split; [exact H2|].
  exact (element_search_finds_exactly_present_values_below_recursion_limit
           default_frames sys_maxsize ElementSearch.main_root 4 H1 H2).
Defined.

(** X9: on a finite space that is less deep than the nested calls of
    [Node.__len__] allowed, every pass of element_search.py ends.  It
    returns a goal node of the search tree when the tree holds a goal;
    otherwise [cutoff] when the tree has a node at depth [limit] or deeper,
    and [failure] when all of the tree lies above depth [limit]. *)
Theorem element_search_pass_on_finite_space {State Action : Type}
    (problem : Problem State Action) (frames limit D : nat) :
  chains_bounded problem D (initial problem) → D < frames →
  ∃ fuel0 r,
    (∀ fuel, fuel0 ≤ fuel →
       LimitedElementSearch.depth_limited_search frames fuel problem limit =
       Some (Done r)) ∧
    match r with
    | Found x => in_search_tree problem x ∧ is_goal problem (state x) = true
    | cutoff =>
        (∀ y, in_search_tree problem y → is_goal problem (state y) = false) ∧
        ∃ y, in_search_tree problem y ∧ limit ≤ len y
    | failure =>
        (∀ y, in_search_tree problem y → is_goal problem (state y) = false) ∧
        ∀ y, in_search_tree problem y → len y < limit
    end.
Proof.
  intros HD Hroom.
  destruct (element_pass_finite problem limit D HD) as (F & r & Hrun & Hr).
  exists F, r. split; [|done]. intros fuel Hfuel.
  by rewrite (element_pass_within_finite problem frames limit D), Hrun.
Qed.

Lemma element_search_pass_on_finite_space_witness :
  let problem := ElementSearch.UserSearchProblem ElementSearch.main_root 99 in
  chains_bounded problem 3 (initial problem) ∧ 3 < default_frames ∧
  ∃ fuel0 r,
    (∀ fuel, fuel0 ≤ fuel →
       LimitedElementSearch.depth_limited_search default_frames fuel problem 2 =
       Some (Done r)) ∧
    match r with
    | Found x => in_search_tree problem x ∧ is_goal problem (state x) = true
    | cutoff =>
        (∀ y, in_search_tree problem y → is_goal problem (state y) = false) ∧
        ∃ y, in_search_tree problem y ∧ 2 ≤ len y
    | failure =>
        (∀ y, in_search_tree problem y → is_goal problem (state y) = false) ∧
        ∀ y, in_search_tree problem y → len y < 2
    end.
Proof.
  intros problem.
  assert (H : chains_bounded problem 3 (initial problem))
    by apply (user_tree_bounded ElementSearch.main_root 99 ElementSearch.main_root).
  assert (Hroom : 3 < default_frames) by (vm_compute; lia).
  split; [exact H|]. split; [exact Hroom|].
  exact (element_search_pass_on_finite_space problem default_frames 2 3 H Hroom).
Defined.

(** X10: on a finite space of depth [D], less deep than the nested calls
    of [Node.__len__] allowed, the driver of element_search.py ends: it
    returns a goal node of the search tree when the tree holds a goal and
    [failure] when it holds none.  The range of limits must reach past the
    depth: [D + 2 ≤ sys.maxsize]. *)
Theorem element_search_driver_on_finite_space {State Action : Type}
    (problem : Problem State Action) (frames maxsize D : nat) :
  chains_bounded problem D (initial problem) → D < frames → D + 2 ≤ maxsize →
  ∃ fuel0 r,
    (∀ fuel, fuel0 ≤ fuel →
       LimitedElementSearch.iterative_deepening_search frames maxsize fuel problem =
       Some (Done (Returned r))) ∧
    match r with
    | Found x => in_search_tree problem x ∧ is_goal problem (state x) = true
    | failure => ∀ y, in_search_tree problem y → is_goal problem (state y) = false
    | cutoff => False
    end.
Proof.
  intros HD Hroom Hmax.
  destruct (element_driver_finite problem maxsize D HD Hmax) as (F & r & Hrun & Hr).
  exists F, r. split; [|done]. intros fuel Hfuel.
  by rewrite (element_driver_within_finite problem frames maxsize D), Hrun.
Qed.

Lemma element_search_driver_on_finite_space_witness :
  let problem := ElementSearch.UserSearchProblem ElementSearch.main_root 4 in
  chains_bounded problem 3 (initial problem) ∧ 3 < default_frames ∧
  3 + 2 ≤ sys_maxsize ∧
  ∃ fuel0 r,
    (∀ fuel, fuel0 ≤ fuel →
       LimitedElementSearch.iterative_deepening_search default_frames sys_maxsize
         fuel problem = Some (Done (Returned r))) ∧
    match r with
    | Found x => in_search_tree problem x ∧ is_goal problem (state x) = true
    | failure => ∀ y, in_search_tree problem y → is_goal problem (state y) = false
    | cutoff => False
    end.
Proof.
  intros problem.
  assert (H : chains_bounded problem 3 (initial problem))
    by apply (user_tree_bounded ElementSearch.main_root 4 ElementSearch.main_root).
  assert (Hroom : 3 < default_frames) by (vm_compute; lia).
  assert (Hmax : 3 + 2 ≤ sys_maxsize) by (pose proof sys_maxsize_large; lia).
  split; [exact H|]. split; [exact Hroom|]. split; [exact Hmax|].
  exact (element_search_driver_on_finite_space problem default_frames sys_maxsize 3
           H Hroom Hmax).
Defined.

(** X11: main of element_search.py, on any binary tree whose height is
    below the nested calls of [Node.__len__] allowed and for any value
    looked for, prints True when some node of the tree carries the value
    and False when none does.  The range of limits must reach past the
    height of the tree: [height T + 2 ≤ sys.maxsize]. *)
Theorem element_search_main_prints_presence
    (frames maxsize : nat) (T : ElementSearch.BinaryTreeNode) (g : Z) :
  BinaryTree.height T < frames →
  BinaryTree.height T + 2 ≤ maxsize →
  ∃ fuel0, ∀ fuel, fuel0 ≤ fuel →
    LimitedElementSearch.main_on frames maxsize fuel T g =
    Some (Done (bool_decide (g ∈ BinaryTree.tree_values T))).
Proof.
  intros Hroom Hmax.
  destruct (unlimited_element_main maxsize T g Hmax) as [F HF].
  exists F. intros fuel Hfuel. specialize (HF fuel Hfuel).
  unfold LimitedElementSearch.main_on, ElementSearchMain.main_on in *.
  cbv zeta in *.
  rewrite (element_driver_within_finite _ frames maxsize (BinaryTree.height T));
    [|apply user_tree_bounded|done].
  destruct (ElementSearch.iterative_deepening_search maxsize fuel _) as [a|];
    [|done].
  simpl in *. by injection HF as ->.
Qed.

Lemma element_search_main_prints_presence_witness :
  BinaryTree.height ElementSearch.main_root < default_frames ∧
  BinaryTree.height ElementSearch.main_root + 2 ≤ sys_maxsize ∧
  ∃ fuel0, ∀ fuel, fuel0 ≤ fuel →
    LimitedElementSearch.main_on default_frames sys_maxsize fuel
      ElementSearch.main_root 4 =
    Some (Done (bool_decide (4%Z ∈ BinaryTree.tree_values ElementSearch.main_root))).
Proof.
  assert (H1 : BinaryTree.height ElementSearch.main_root < default_frames)
    by (vm_compute; lia).
  assert (H2 : BinaryTree.height ElementSearch.main_root + 2 ≤ sys_maxsize).
  { pose proof sys_maxsize_large. simpl. lia. }
  split; [exact H1|]. split; [exact H2|].
  exact (element_search_main_prints_presence default_frames sys_maxsize
           ElementSearch.main_root 4 H1 H2).
Defined.

(** ** file_system_search.py under the recursion limit, on finite spaces *)

(** C9, as amended: on a finite space that is less deep than the nested
    calls of [Node.__len__] allowed, the driver of file_system_search.py
    ends.  The space has a deepest level [D]; a pass with a limit beyond it
    prunes nothing; and the driver returns the result of the first pass
    that does not end in a cutoff, which comes at a limit of at most
    [D + 1] and is the failure sentinel or a goal node.  The range of
    limits must reach that far: [D + 2 ≤ sys.maxsize]. *)
Theorem file_system_driver_terminates_below_recursion_limit
    {State Action : Type} (frames maxsize : nat)
    (problem : Problem State Action) :
  finite_below problem (initial problem) →
  (∃ D, chains_bounded problem D (initial problem)) ∧
  ∀ D, chains_bounded problem D (initial problem) → D < frames →
       D + 2 ≤ maxsize →
    (∀ limit k frontier res, D < limit →
       iterate (LimitedFileSystemSearch.dls_body problem frames limit) k
         ([mkNode (initial problem) None None 0], failure) = inl (frontier, res) →
       res = failure) ∧
    ∃ L r, 1 ≤ L ≤ D + 1 ∧ r ≠ cutoff ∧
      (r = failure ∨ ∃ n, r = Found n ∧ is_goal problem (state n) = true) ∧
      ∃ fuel0, ∀ fuel, fuel0 ≤ fuel →
        LimitedFileSystemSearch.depth_limited_search frames fuel problem L =
          Some (Done r) ∧
        (∀ limit, 1 ≤ limit < L →
           LimitedFileSystemSearch.depth_limited_search frames fuel problem limit =
           Some (Done cutoff)) ∧
        LimitedFileSystemSearch.iterative_deepening_search frames maxsize fuel
          problem = Some (Done (Returned r)).
Proof.
  intros Hfin.
  destruct (unlimited_file_driver_terminates maxsize problem Hfin) as [HexD Hall].
  split; [done|]. intros D HD Hroom Hmax.
  destruct (Hall D HD Hmax) as (Hprune & L & r & HL & Hne & Hr & F & HF).
  split.
  - intros limit k fr res Hlt Hit. apply file_iterate_within in Hit.
    by eapply Hprune.
  - exists L, r. split; [done|]. split; [done|]. split; [done|].
    exists F. intros fuel Hfuel. destruct (HF fuel Hfuel) as (Hp & Hbefore & Hdrv).
    split; [|split].
    + by rewrite (file_pass_within_finite problem frames L D), Hp.
    + intros limit Hl.
      by rewrite (file_pass_within_finite problem frames limit D), (Hbefore limit Hl).
    + by rewrite (file_driver_within_finite problem frames maxsize D), Hdrv.
Qed.

Lemma file_system_driver_terminates_below_recursion_limit_witness :
  let problem :=
    FileSystemSearch.FileSearchProblem FileSystemSearch.main_root "file_d" in
  finite_below problem (initial problem) ∧
  chains_bounded problem 3 (initial problem) ∧
  3 < default_frames ∧
  3 + 2 ≤ sys_maxsize ∧
  (∀ limit k frontier res, 3 < limit →
     iterate (LimitedFileSystemSearch.dls_body problem default_frames limit) k
       ([mkNode (initial problem) None None 0], failure) = inl (frontier, res) →
     res = failure) ∧
  ∃ L r, 1 ≤ L ≤ 3 + 1 ∧ r ≠ cutoff ∧
    (r = failure ∨ ∃ n, r = Found n ∧ is_goal problem (state n) = true) ∧
    ∃ fuel0, ∀ fuel, fuel0 ≤ fuel →
      LimitedFileSystemSearch.depth_limited_search default_frames fuel problem L =
        Some (Done r) ∧
      (∀ limit, 1 ≤ limit < L →
         LimitedFileSystemSearch.depth_limited_search default_frames fuel problem
           limit = Some (Done cutoff)) ∧
      LimitedFileSystemSearch.iterative_deepening_search default_frames sys_maxsize
        fuel problem = Some (Done (Returned r)).
Proof.
  intros problem.
  assert (Hfin : finite_below problem (initial problem))
    by apply tree_finite_below.
  assert (Hdeep : chains_bounded problem 3 (initial problem))
    by apply main_root_three_deep.
  assert (Hroom : 3 < default_frames) by (vm_compute; lia).
  assert (Hmax : 3 + 2 ≤ sys_maxsize)
    by (pose proof sys_maxsize_large; lia).
  split; [exact Hfin|]. split; [exact Hdeep|]. split; [exact Hroom|].
  split; [exact Hmax|].
  exact (proj2 (file_system_driver_terminates_below_recursion_limit
                  default_frames sys_maxsize problem Hfin)
           3 Hdeep Hroom Hmax).
Defined.

(** X12: on a finite space of depth [D], less deep than the nested calls
    of [Node.__len__] allowed, the driver of file_system_search.py returns
    a goal node of least depth when the search tree holds a goal, and
    [failure] when it holds none.  The range of limits must reach past the
    depth: [D + 2 ≤ sys.maxsize]. *)
Theorem file_system_driver_on_finite_space {State Action : Type}
    (problem : Problem State Action) (frames maxsize D : nat) :
  chains_bounded problem D (initial problem) → D < frames → D + 2 ≤ maxsize →
  ∃ fuel0 r,
    (∀ fuel, fuel0 ≤ fuel →
       LimitedFileSystemSearch.iterative_deepening_search frames maxsize fuel
         problem = Some (Done (Returned r))) ∧
    match r with
    | Found x =>
        in_search_tree problem x ∧ is_goal problem (state x) = true ∧
        ∀ y, in_search_tree problem y → is_goal problem (state y) = true →
             len x ≤ len y
    | failure => ∀ y, in_search_tree problem y → is_goal problem (state y) = false
    | cutoff => False
    end.
Proof.
  intros HD Hroom Hmax.
  destruct (file_driver_finite problem maxsize D HD Hmax) as (F & r & Hrun & Hr).
  exists F, r. split; [|done]. intros fuel Hfuel.
  by rewrite (file_driver_within_finite problem frames maxsize D), Hrun.
Qed.

Lemma file_system_driver_on_finite_space_witness :
  let problem :=
    FileSystemSearch.FileSearchProblem FileSystemSearch.main_root "file_d" in
  chains_bounded problem 3 (initial problem) ∧ 3 < default_frames ∧
  3 + 2 ≤ sys_maxsize ∧
  ∃ fuel0 r,
    (∀ fuel, fuel0 ≤ fuel →
       LimitedFileSystemSearch.iterative_deepening_search default_frames
         sys_maxsize fuel problem = Some (Done (Returned r))) ∧
    match r with
    | Found x =>
        in_search_tree problem x ∧ is_goal problem (state x) = true ∧
        ∀ y, in_search_tree problem y → is_goal problem (state y) = true →
             len x ≤ len y
    | failure => ∀ y, in_search_tree problem y → is_goal problem (state y) = false
    | cutoff => False
    end.
Proof.
  intros problem.
  assert (H : chains_bounded problem 3 (initial problem))
    by apply main_root_three_deep.
  assert (Hroom : 3 < default_frames) by (vm_compute; lia).
  assert (Hmax : 3 + 2 ≤ sys_maxsize) by (pose proof sys_maxsize_large; lia).
  split; [exact H|]. split; [exact Hroom|]. split; [exact Hmax|].
  exact (file_system_driver_on_finite_space problem default_frames sys_maxsize 3
           H Hroom Hmax).
Defined.

(** ** Spaces deeper than the recursion limit *)

Section Turns.
Context {St Res : Type}.
Variable body : St → St + Res.

Lemma iterate_S_end k :
  ∀ s s', iterate body k s = inl s' → iterate body (S k) s = body s'.
Proof.
  induction k as [|k IH]; intros s s'.
  - cbn [iterate]. intros [= ->]. by destruct (body s').
  - intros Hit. cbn [iterate] in Hit |- *.
    destruct (body s) as [s1|r]; [|done]. by apply (IH s1).
Qed.

Lemma while_still_running k :
  ∀ s s', iterate body k s = inl s' → while body k s = None.
Proof.
  induction k as [|k IH]; intros s s'; [done|]. cbn [iterate while].
  destruct (body s) as [s1|r]; [apply IH|done].
Qed.
End Turns.

Section DeepSpaces.
Context {State Action : Type}.
Variable problem : Problem State Action.
Variable frames : nat.
Hypothesis goal_free :
  ∀ y, in_search_tree problem y → len y ≤ frames →
       is_goal problem (state y) = false.
Hypothesis no_dead_end :
  ∀ y, in_search_tree problem y → len y < frames →
       actions problem (state y) ≠ [].

(** The children of a node above depth [frames], as they are pushed. *)
Lemma deep_children (node : Node State Action) :
  in_search_tree problem node → len node < frames →
  ∃ c cs, reverse (expand problem node) = c :: cs ∧
          in_search_tree problem c ∧ len c = S (len node).
Proof.
  intros Hnode Hlen.
  destruct (reverse (expand problem node)) as [|c cs] eqn:Hrev.
  - apply (f_equal reverse) in Hrev. rewrite reverse_involutive in Hrev.
    unfold expand in Hrev. apply fmap_nil_inv in Hrev.
    by destruct (no_dead_end node Hnode Hlen).
  - assert (Hc : c ∈ expand problem node).
    { rewrite <- elem_of_reverse, Hrev. apply elem_of_cons. by left. }
    exists c, cs. split; [done|]. split; [by eapply in_tree_child|].
    by apply expand_len in Hc.
Qed.

Lemma deep_tree_has_depth k :
  k ≤ frames → ∃ y, in_search_tree problem y ∧ len y = k.
Proof.
  induction k as [|k IH]; intros Hk.
  - exists (mkNode (initial problem) None None 0). split; [constructor|done].
  - destruct IH as (y & Hy & Hlen); [lia|].
    destruct (deep_children y Hy) as (c & cs & _ & Hc & Hlc); [lia|].
    exists c. split; [done|lia].
Qed.

(** A pass of element_search.py goes down one level with every turn. *)
Lemma element_descent limit k :
  k ≤ frames →
  ∃ node rest res,
    iterate (LimitedElementSearch.dls_body problem frames limit) k
      ([mkNode (initial problem) None None 0], failure) = inl (node :: rest, res) ∧
    in_search_tree problem node ∧ len node = k.
Proof.
  induction k as [|k IH]; intros Hk.
  - exists (mkNode (initial problem) None None 0), [], failure.
    split; [done|]. split; [constructor|done].
  - destruct IH as (node & rest & res & Hit & Hnode & Hlen); [lia|].
    destruct (deep_children node Hnode) as (c & cs & Hrev & Hc & Hlc); [lia|].
    exists c, (cs ++ rest), (if limit <=? len node then cutoff else res).
    split; [|split; [done|lia]].
    rewrite (iterate_S_end _ k _ _ Hit).
    cbn [LimitedElementSearch.dls_body].
    rewrite (goal_free node Hnode) by lia.
    rewrite len_within_Done by lia.
    by rewrite append_all_rev, Hrev.
Qed.

Lemma element_pass_raises limit fuel :
  frames < fuel →
  LimitedElementSearch.depth_limited_search frames fuel problem limit =
  Some RecursionError.
Proof.
  intros Hfuel.
  destruct (element_descent limit frames) as (node & rest & res & Hit & Hnode & Hlen);
    [done|].
  unfold LimitedElementSearch.depth_limited_search.
  replace fuel with (frames + S (fuel - S frames)) by lia.
  rewrite (while_after_iterate _ _ _ _ _ Hit). cbn [while].
  cbn [LimitedElementSearch.dls_body].
  rewrite (goal_free node Hnode) by lia.
  by rewrite len_within_raises by lia.
Qed.

Lemma element_pass_running limit fuel :
  fuel ≤ frames →
  LimitedElementSearch.depth_limited_search frames fuel problem limit = None.
Proof.
  intros Hfuel.
  destruct (element_descent limit fuel) as (node & rest & res & Hit & _); [done|].
  by eapply while_still_running.
Qed.

(** So does a pass of file_system_search.py whose limit is not in the
    way. *)
Lemma file_descent limit k :
  frames ≤ limit → k ≤ frames →
  ∃ node rest res,
    iterate (LimitedFileSystemSearch.dls_body problem frames limit) k
      ([mkNode (initial problem) None None 0], failure) = inl (node :: rest, res) ∧
    in_search_tree problem node ∧ len node = k.
Proof.
  intros Hlimit. induction k as [|k IH]; intros Hk.
  - exists (mkNode (initial problem) None None 0), [], failure.
    split; [done|]. split; [constructor|done].
  - destruct IH as (node & rest & res & Hit & Hnode & Hlen); [lia|].
    destruct (deep_children node Hnode) as (c & cs & Hrev & Hc & Hlc); [lia|].
    exists c, (cs ++ rest), res. split; [|split; [done|lia]].
    rewrite (iterate_S_end _ k _ _ Hit).
    cbn [LimitedFileSystemSearch.dls_body].
    rewrite (goal_free node Hnode) by lia.
    rewrite len_within_Done by lia.
    destruct (Nat.leb_spec limit (len node)); [lia|].
    by rewrite append_all_rev, Hrev.
Qed.

Lemma file_pass_raises limit fuel :
  frames ≤ limit → frames < fuel →
  LimitedFileSystemSearch.depth_limited_search frames fuel problem limit =
  Some RecursionError.
Proof.
  intros Hlimit Hfuel.
  destruct (file_descent limit frames) as (node & rest & res & Hit & Hnode & Hlen);
    [done..|].
  unfold LimitedFileSystemSearch.depth_limited_search.
  replace fuel with (frames + S (fuel - S frames)) by lia.
  rewrite (while_after_iterate _ _ _ _ _ Hit). cbn [while].
  cbn [LimitedFileSystemSearch.dls_body].
  rewrite (goal_free node Hnode) by lia.
  by rewrite len_within_raises by lia.
Qed.

Lemma file_pass_running limit fuel :
  frames ≤ limit → fuel ≤ frames →
  LimitedFileSystemSearch.depth_limited_search frames fuel problem limit = None.
Proof.
  intros Hlimit Hfuel.
  destruct (file_descent limit fuel) as (node & rest & res & Hit & _); [done..|].
  by eapply while_still_running.
Qed.

(** A pass with a limit that the calls allowed cover is cut off. *)
Lemma deep_pass_result limit :
  limit ≤ frames → pass_result problem limit = cutoff.
Proof.
  intros Hlimit.
  destruct (deep_tree_has_depth limit Hlimit) as (y & Hy & Hlen).
  unfold pass_result.
  destruct (visit problem limit _ failure) as [r|o] eqn:Hv.
  - apply (visit_cut_above problem _ y (in_search_tree_descends problem y Hy))
      in Hv; [done|simpl; lia].
  - apply visit_returns_node in Hv as Hn. destruct Hn as [n ->].
    assert (Hres : pass_result problem limit = Found n).
    { unfold pass_result. by rewrite Hv. }
    apply pass_result_found in Hres as (Hg & Hn & Hln).
    rewrite (goal_free n Hn) in Hg by lia. done.
Qed.

(** The driver of file_system_search.py: the passes below [frames] are cut
    off, the pass with the limit [frames] raises. *)
Lemma file_driver_deep maxsize :
  0 < frames →
  ∃ fuel0, ∀ fuel, fuel0 ≤ fuel →
    (∀ limit, limit < frames →
       LimitedFileSystemSearch.depth_limited_search frames fuel problem limit =
       Some (Done cutoff)) ∧
    (∀ limit, frames ≤ limit →
       LimitedFileSystemSearch.depth_limited_search frames fuel problem limit =
       Some RecursionError) ∧
    (frames < maxsize →
     LimitedFileSystemSearch.iterative_deepening_search frames maxsize fuel problem =
     Some RecursionError) ∧
    (maxsize ≤ frames →
     LimitedFileSystemSearch.iterative_deepening_search frames maxsize fuel problem =
     Some (Done RangeExhausted)).
Proof.
  intros Hpos. destruct (file_passes_total problem frames) as [F HF].
  exists (F `max` S frames). intros fuel Hfuel.
  assert (Hcut : ∀ limit, limit < frames →
            LimitedFileSystemSearch.depth_limited_search frames fuel problem limit =
            Some (Done cutoff)).
  { intros limit Hlimit. rewrite file_pass_within_limit by done.
    rewrite HF by lia. by rewrite deep_pass_result by lia. }
  assert (Hraise : ∀ limit, frames ≤ limit →
            LimitedFileSystemSearch.depth_limited_search frames fuel problem limit =
            Some RecursionError).
  { intros limit Hlimit. apply file_pass_raises; [done|lia]. }
  split; [exact Hcut|]. split; [exact Hraise|]. split.
  - intros Hmax. apply (for_limits_within_raises _ _ _ (frames - 1)); [lia| |].
    + intros i Hi. apply Hcut. lia.
    + apply Hraise. lia.
  - intros Hmax. apply for_limits_within_all_cutoff. intros i Hi.
    apply Hcut. lia.
Qed.
End DeepSpaces.

(** More fuel does not change what a driver has returned. *)
Lemma for_limits_within_mono {State Action : Type}
    (run run' : nat → option (Run (Outcome State Action))) count :
  (∀ limit x, run limit = Some x → run' limit = Some x) →
  ∀ limit y, for_limits_within run count limit = Some y →
             for_limits_within run' count limit = Some y.
Proof.
  intros Hmono. induction count as [|count IH]; intros limit y; [done|].
  cbn [for_limits_within].
  destruct (run limit) as [x|] eqn:Hrun; [|done].
  rewrite (Hmono _ _ Hrun). destruct x as [[n| |]|]; try done. apply IH.
Qed.

(** X8: on a space that, down to the depth [frames] of the nested calls of
    [Node.__len__] allowed, has no goal and no state without an action (an
    endless space with no goal is one), a pass of element_search.py returns
    no value, whatever its limit: it goes down one level with each of its
    first [frames] turns and raises RecursionError in the next.  So does
    the driver, in its first pass. *)
Theorem element_search_never_returns_on_endless_space {State Action : Type}
    (problem : Problem State Action) (frames : nat) :
  (∀ y, in_search_tree problem y → len y ≤ frames →
        is_goal problem (state y) = false) →
  (∀ y, in_search_tree problem y → len y < frames →
        actions problem (state y) ≠ []) →
  ∀ limit,
    (∀ fuel, fuel ≤ frames →
       LimitedElementSearch.depth_limited_search frames fuel problem limit = None) ∧
    (∀ fuel, frames < fuel →
       LimitedElementSearch.depth_limited_search frames fuel problem limit =
       Some RecursionError) ∧
    (∀ maxsize fuel, 1 < maxsize → frames < fuel →
       LimitedElementSearch.iterative_deepening_search frames maxsize fuel problem =
       Some RecursionError).
Proof.
  intros Hgoal Hact limit. split; [|split].
  - intros fuel Hfuel. by apply element_pass_running.
  - intros fuel Hfuel. by apply element_pass_raises.
  - intros maxsize fuel Hmax Hfuel.
    apply (for_limits_within_raises _ _ _ 0); [lia|intros; lia|].
    by apply element_pass_raises.
Qed.

Lemma element_search_never_returns_on_endless_space_witness :
  (∀ y, in_search_tree one_room y → len y ≤ default_frames →
        is_goal one_room (state y) = false) ∧
  (∀ y, in_search_tree one_room y → len y < default_frames →
        actions one_room (state y) ≠ []) ∧
  ∀ limit,
    (∀ fuel, fuel ≤ default_frames →
       LimitedElementSearch.depth_limited_search default_frames fuel one_room limit =
       None) ∧
    (∀ fuel, default_frames < fuel →
       LimitedElementSearch.depth_limited_search default_frames fuel one_room limit =
       Some RecursionError) ∧
    (∀ maxsize fuel, 1 < maxsize → default_frames < fuel →
       LimitedElementSearch.iterative_deepening_search default_frames maxsize fuel
         one_room = Some RecursionError).
Proof.
  assert (H1 : ∀ y, in_search_tree one_room y → len y ≤ default_frames →
                    is_goal one_room (state y) = false) by done.
  assert (H2 : ∀ y, in_search_tree one_room y → len y < default_frames →
                    actions one_room (state y) ≠ []) by done.
  split; [exact H1|]. split; [exact H2|].
  exact (element_search_never_returns_on_endless_space one_room default_frames H1 H2).
Defined.

(** X13: on a space that, down to the depth [frames] of the nested calls
    of [Node.__len__] allowed, has no goal and no state without an action
    (an endless space with no goal is one), the passes of
    file_system_search.py with a limit below [frames] end and return
    [cutoff], and every pass with a limit from [frames] on raises
    RecursionError.  The driver, whose range reaches [frames], therefore
    raises in the pass with that limit, long before its range is
    exhausted. *)
Theorem file_system_driver_raises_on_endless_space {State Action : Type}
    (problem : Problem State Action) (frames maxsize : nat) :
  (∀ y, in_search_tree problem y → len y ≤ frames →
        is_goal problem (state y) = false) →
  (∀ y, in_search_tree problem y → len y < frames →
        actions problem (state y) ≠ []) →
  0 < frames → frames < maxsize →
  ∃ fuel0, ∀ fuel, fuel0 ≤ fuel →
    (∀ limit, limit < frames →
       LimitedFileSystemSearch.depth_limited_search frames fuel problem limit =
       Some (Done cutoff)) ∧
    (∀ limit, frames ≤ limit →
       LimitedFileSystemSearch.depth_limited_search frames fuel problem limit =
       Some RecursionError) ∧
    LimitedFileSystemSearch.iterative_deepening_search frames maxsize fuel problem =
    Some RecursionError.
Proof.
  intros Hgoal Hact Hpos Hmax.
  destruct (file_driver_deep problem frames Hgoal Hact maxsize Hpos) as [F HF].
  exists F. intros fuel Hfuel.
  destruct (HF fuel Hfuel) as (Hcut & Hraise & Hdrv & _).
  split; [exact Hcut|]. split; [exact Hraise|]. by apply Hdrv.
Qed.

Lemma file_system_driver_raises_on_endless_space_witness :
  (∀ y, in_search_tree one_room y → len y ≤ default_frames →
        is_goal one_room (state y) = false) ∧
  (∀ y, in_search_tree one_room y → len y < default_frames →
        actions one_room (state y) ≠ []) ∧
  0 < default_frames ∧ default_frames < sys_maxsize ∧
  ∃ fuel0, ∀ fuel, fuel0 ≤ fuel →
    (∀ limit, limit < default_frames →
       LimitedFileSystemSearch.depth_limited_search default_frames fuel one_room
         limit = Some (Done cutoff)) ∧
    (∀ limit, default_frames ≤ limit →
       LimitedFileSystemSearch.depth_limited_search default_frames fuel one_room
         limit = Some RecursionError) ∧
    LimitedFileSystemSearch.iterative_deepening_search default_frames sys_maxsize
      fuel one_room = Some RecursionError.
Proof.
  assert (H1 : ∀ y, in_search_tree one_room y → len y ≤ default_frames →
                    is_goal one_room (state y) = false) by done.
  assert (H2 : ∀ y, in_search_tree one_room y → len y < default_frames →
                    actions one_room (state y) ≠ []) by done.
  assert (H3 : 0 < default_frames) by (unfold default_frames; lia).
  assert (H4 : default_frames < sys_maxsize)
    by (unfold default_frames, sys_maxsize; lia).
  split; [exact H1|]. split; [exact H2|]. split; [exact H3|]. split; [exact H4|].
  exact (file_system_driver_raises_on_endless_space one_room default_frames
           sys_maxsize H1 H2 H3 H4).
Defined.

(** ** Two deep trees *)

Lemma left_chain_values n b : b ∈ BinaryTree.tree_values (left_chain n b).
Proof.
  induction n as [|n IH]; simpl.
  - apply elem_of_cons. by left.
  - apply elem_of_cons. right. apply elem_of_app. by left.
Qed.

Lemma left_chain_height n b : BinaryTree.height (left_chain n b) = n.
Proof. induction n as [|n IH]; simpl; [done|]. rewrite IH. lia. Qed.

(** The search tree of a chain is the chain. *)
Lemma left_chain_tree n b g y :
  in_search_tree (ElementSearch.UserSearchProblem (left_chain n b) g) y →
  len y ≤ n ∧ state y = left_chain (n - len y) b.
Proof.
  induction 1 as [|par child Hpar [IHle IHst] Hchild].
  - split; [simpl; lia|]. simpl. by rewrite Nat.sub_0_r.
  - rewrite (expand_len _ _ _ Hchild).
    apply expand_inv in Hchild as (a & Ha & ->). rewrite IHst in Ha.
    destruct (n - len par) as [|m] eqn:Hm; simpl in Ha.
    + by apply elem_of_nil in Ha.
    + apply list_elem_of_singleton in Ha as ->. split; [lia|].
      simpl. f_equal. lia.
Qed.

Lemma left_chain_deep n b g frames :
  frames < n → g ≠ 0%Z →
  (∀ y, in_search_tree (ElementSearch.UserSearchProblem (left_chain n b) g) y →
        len y ≤ frames →
        is_goal (ElementSearch.UserSearchProblem (left_chain n b) g) (state y) = false) ∧
  (∀ y, in_search_tree (ElementSearch.UserSearchProblem (left_chain n b) g) y →
        len y < frames →
        actions (ElementSearch.UserSearchProblem (left_chain n b) g) (state y) ≠ []).
Proof.
  intros Hdeep Hg. split; intros y Hy Hlen;
    destruct (left_chain_tree n b g y Hy) as [_ ->];
    (destruct (n - len y) as [|m] eqn:Hm; [lia|]); simpl.
  - by destruct g.
  - done.
Qed.

Lemma dir_chain_height n : FileTree.height (dir_chain n) = n.
Proof. induction n as [|n IH]; simpl; [done|]. rewrite IH. lia. Qed.

Lemma dir_chain_tree n goal y :
  in_search_tree (FileSystemSearch.FileSearchProblem (dir_chain n) goal) y →
  len y ≤ n ∧ state y = dir_chain (n - len y).
Proof.
  induction 1 as [|par child Hpar [IHle IHst] Hchild].
  - split; [simpl; lia|]. simpl. by rewrite Nat.sub_0_r.
  - rewrite (expand_len _ _ _ Hchild).
    apply expand_inv in Hchild as (a & Ha & ->). simpl in Ha. rewrite IHst in Ha.
    destruct (n - len par) as [|m] eqn:Hm; simpl in Ha.
    + by apply elem_of_nil in Ha.
    + apply list_elem_of_singleton in Ha as ->. split; [lia|].
      simpl. f_equal. lia.
Qed.

Lemma dir_chain_deep n goal frames :
  frames < n → goal ≠ "dir" →
  (∀ y, in_search_tree (FileSystemSearch.FileSearchProblem (dir_chain n) goal) y →
        len y ≤ frames →
        is_goal (FileSystemSearch.FileSearchProblem (dir_chain n) goal) (state y) =
        false) ∧
  (∀ y, in_search_tree (FileSystemSearch.FileSearchProblem (dir_chain n) goal) y →
        len y < frames →
        actions (FileSystemSearch.FileSearchProblem (dir_chain n) goal) (state y) ≠ []).
Proof.
  intros Hdeep Hg. split; intros y Hy Hlen;
    destruct (dir_chain_tree n goal y Hy) as [_ ->];
    (destruct (n - len y) as [|m] eqn:Hm; [lia|]).
  - change (String.eqb "dir" goal = false). apply String.eqb_neq. congruence.
  - done.
Qed.

(** C1, where it fails as stated: a tree that is one chain of 1200 left
    children carries the value 5 at its end, and the range of limits
    reaches far past its height; yet with the 995 nested calls of
    [Node.__len__] that the interpreter allows the driver of
    element_search.py returns no node: the first pass goes down the chain
    and raises RecursionError at depth 995. *)
Lemma element_search_raises_on_deep_tree :
  let T := left_chain 1200 5 in
  5%Z ∈ BinaryTree.tree_values T ∧
  BinaryTree.height T + 2 ≤ sys_maxsize ∧
  (∀ fuel, default_frames < fuel →
     LimitedElementSearch.iterative_deepening_search default_frames sys_maxsize fuel
       (ElementSearch.UserSearchProblem T 5) = Some RecursionError) ∧
  (∀ fuel a,
     LimitedElementSearch.iterative_deepening_search default_frames sys_maxsize fuel
       (ElementSearch.UserSearchProblem T 5) ≠ Some (Done a)).
Proof.
  intros T. subst T.
  destruct (left_chain_deep 1200 5 5 default_frames) as [Hgoal Hact];
    [unfold default_frames; lia|done|].
  assert (Hcount : sys_maxsize - 1 = S (sys_maxsize - 2))
    by (pose proof sys_maxsize_large; lia).
  split; [apply left_chain_values|]. split.
  { rewrite left_chain_height. unfold sys_maxsize. lia. }
  split.
  - intros fuel Hfuel.
    apply (for_limits_within_raises _ _ _ 0);
      [pose proof sys_maxsize_large; lia|intros; lia|].
    by apply element_pass_raises.
  - intros fuel a. unfold LimitedElementSearch.iterative_deepening_search.
    rewrite Hcount. cbn [for_limits_within].
    destruct (decide (fuel ≤ default_frames)) as [Hle|Hgt].
    + by rewrite (element_pass_running _ default_frames Hgoal Hact 1 fuel Hle).
    + by rewrite (element_pass_raises _ default_frames Hgoal Hact 1 fuel) by lia.
Qed.

(** C9, where it fails as stated: a tree of directories that is one chain
    1200 deep is a finite space, and the range of limits reaches far past
    its depth; yet with the 995 nested calls of [Node.__len__] that the
    interpreter allows the driver of file_system_search.py does not
    return: the passes with the limits 1 to 994 are cut off and the pass
    with the limit 995 raises RecursionError. *)
Lemma file_system_driver_raises_on_deep_tree :
  let problem := FileSystemSearch.FileSearchProblem (dir_chain 1200) "file_d" in
  finite_below problem (initial problem) ∧
  chains_bounded problem 1200 (initial problem) ∧
  1200 + 2 ≤ sys_maxsize ∧
  (∃ fuel0, ∀ fuel, fuel0 ≤ fuel →
     LimitedFileSystemSearch.iterative_deepening_search default_frames sys_maxsize
       fuel problem = Some RecursionError) ∧
  (∀ fuel a,
     LimitedFileSystemSearch.iterative_deepening_search default_frames sys_maxsize
       fuel problem ≠ Some (Done a)).
Proof.
  intros problem. subst problem.
  set (problem := FileSystemSearch.FileSearchProblem (dir_chain 1200) "file_d").
  destruct (dir_chain_deep 1200 "file_d" default_frames) as [Hgoal Hact];
    [unfold default_frames; lia|done|].
  assert (Hframes : default_frames < sys_maxsize)
    by (unfold default_frames, sys_maxsize; lia).
  destruct (file_driver_deep problem default_frames Hgoal Hact sys_maxsize)
    as [F HF]; [unfold default_frames; lia|].
  assert (Hraise : ∀ fuel, F ≤ fuel →
            LimitedFileSystemSearch.iterative_deepening_search default_frames
              sys_maxsize fuel problem = Some RecursionError).
  { intros fuel Hfuel. by destruct (HF fuel Hfuel) as (_ & _ & Hdrv & _); apply Hdrv. }
  split; [apply tree_finite_below|]. split.
  { pose proof (file_tree_bounded (dir_chain 1200) "file_d" (dir_chain 1200)) as H.
    by rewrite dir_chain_height in H. }
  split; [unfold sys_maxsize; lia|]. split; [by exists F|].
  intros fuel a Hdone.
  apply (for_limits_within_mono _
           (LimitedFileSystemSearch.depth_limited_search default_frames
              (fuel `max` F) problem)) in Hdone.
  - unfold LimitedFileSystemSearch.iterative_deepening_search in Hraise.
    rewrite (Hraise (fuel `max` F)) in Hdone by lia. done.
  - intros limit x. apply while_fuel_le. lia.
Qed.

(** ** Passes of file_system_search.py under the recursion limit *)

(** X2: a pass of file_system_search.py ends for every problem and every
    limit, also on an infinite or cyclic space: it returns what the
    recursive depth-first descent [pass_result] gives, children taken in
    the reverse of the order of [actions], or it raises RecursionError; and
    it does return when its limit is below the number [frames] of nested
    calls of [Node.__len__] that the interpreter allows. *)
Theorem file_system_pass_terminates {State Action : Type}
    (problem : Problem State Action) (frames limit : nat) :
  ∃ fuel0, ∀ fuel, fuel0 ≤ fuel →
    (LimitedFileSystemSearch.depth_limited_search frames fuel problem limit =
       Some (Done (pass_result problem limit)) ∨
     LimitedFileSystemSearch.depth_limited_search frames fuel problem limit =
       Some RecursionError) ∧
    (limit < frames →
     LimitedFileSystemSearch.depth_limited_search frames fuel problem limit =
       Some (Done (pass_result problem limit))).
Proof.
  destruct (file_pass_total problem limit) as [F HF].
  exists F. intros fuel Hfuel. split.
  - apply file_pass_within_ends. by apply HF.
  - intros Hlt. rewrite file_pass_within_limit by done. by rewrite HF.
Qed.

Section FileSystemCutoff.
Context {State Action : Type}.
Variable problem : Problem State Action.
Variable limit : nat.

(** A cutoff is recorded only for a node that sits at depth [limit]. *)
Lemma file_cutoff_has_cause fuel :
  FileSystemSearch.depth_limited_search fuel problem limit = Some cutoff →
  ∃ z, in_search_tree problem z ∧ len z = limit ∧
       is_goal problem (state z) = false.
Proof.
  unfold FileSystemSearch.depth_limited_search. intros Hrun.
  refine (while_invariant (FileSystemSearch.dls_body problem limit)
    (λ st, (∀ n, n ∈ st.1 → in_search_tree problem n ∧ len n ≤ limit) ∧
           (st.2 = cutoff →
            ∃ z, in_search_tree problem z ∧ len z = limit ∧
                 is_goal problem (state z) = false))
    (λ r, r = cutoff →
          ∃ z, in_search_tree problem z ∧ len z = limit ∧
               is_goal problem (state z) = false)
    _ _ fuel _ _ _ Hrun eq_refl).
  - intros [[|node rest] res] st' [Hfr Hres]; [done|].
    rewrite file_body_unfold.
    destruct (is_goal problem (state node)) eqn:Hg; [done|].
    destruct (Hfr node) as [Hnode Hlen]; [simpl; apply elem_of_cons; by left|].
    assert (Hrest : ∀ n, n ∈ rest → in_search_tree problem n ∧ len n ≤ limit).
    { intros n Hn. apply Hfr. simpl. apply elem_of_cons. by right. }
    destruct (Nat.leb_spec limit (len node)) as [Hle|Hlt]; intros [= <-]; simpl.
    + split; [done|]. intros _. exists node. split; [done|]. split; [lia|done].
    + split; [|done]. intros n Hn. apply elem_of_app in Hn as [Hn|Hn];
        [|by apply Hrest].
      rewrite elem_of_reverse in Hn. split; [by eapply in_tree_child|].
      rewrite (expand_len _ _ _ Hn). lia.
  - intros [[|node rest] res] r [Hfr Hres].
    + simpl. by intros [= <-].
    + rewrite file_body_unfold.
      destruct (is_goal problem (state node)); [by intros [= <-]|].
      by destruct (limit <=? len node).
  - split; [|done]. simpl. intros n Hn.
    apply list_elem_of_singleton in Hn as ->. split; [constructor|simpl; lia].
Qed.
End FileSystemCutoff.

(** Nodes of the search tree of one problem are nodes of the search tree
    of any problem with the same initial state, actions, results and
    costs. *)
Lemma in_search_tree_same_moves {State Action : Type}
    (problem problem' : Problem State Action) (y : Node State Action) :
  initial problem' = initial problem →
  (∀ n, expand problem' n = expand problem n) →
  in_search_tree problem y → in_search_tree problem' y.
Proof.
  intros Hinit Hexp. induction 1 as [|par child Hpar IH Hchild].
  - rewrite <- Hinit. constructor.
  - eapply in_tree_child; [exact IH|]. by rewrite Hexp.
Qed.

(** X4: [failure] from the driver of file_system_search.py tells the truth.
    When the driver returns [failure], it is the result of a pass of its
    range whose limit lies beyond every node of the search tree, and no
    node of the search tree is a goal. *)
Theorem file_system_failure_is_sound {State Action : Type}
    (problem : Problem State Action) (maxsize fuel : nat)
    (y : Node State Action) :
  in_search_tree problem y →
  FileSystemSearch.iterative_deepening_search maxsize fuel problem =
    Some (Returned failure) →
  is_goal problem (state y) = false ∧
  ∃ limit, 1 ≤ limit < maxsize ∧
    FileSystemSearch.depth_limited_search fuel problem limit = Some failure ∧
    len y < limit.
Proof.
  intros Hy Hdrv. apply for_limits_returned in Hdrv as (k & Hk & Hrun & _).
  pose proof (file_pass_is_pass_result _ _ _ _ Hrun) as Hres. symmetry in Hres.
  destruct (pass_result_sentinel problem (1 + k) y Hy) as [_ Hfail].
  destruct (Hfail Hres) as [Hlen Hgoal].
  split; [done|]. exists (1 + k). split; [lia|]. split; [done|lia].
Qed.

Lemma file_system_failure_is_sound_witness :
  let problem :=
    FileSystemSearch.FileSearchProblem FileSystemSearch.main_root "file_x" in
  in_search_tree problem main_solution ∧
  FileSystemSearch.iterative_deepening_search sys_maxsize 20 problem =
    Some (Returned failure) ∧
  is_goal problem (state main_solution) = false ∧
  ∃ limit, 1 ≤ limit < sys_maxsize ∧
    FileSystemSearch.depth_limited_search 20 problem limit = Some failure ∧
    len main_solution < limit.
Proof.
  intros problem.
  assert (Hy : in_search_tree problem main_solution).
  { apply (in_search_tree_same_moves
             (FileSystemSearch.FileSearchProblem FileSystemSearch.main_root "file_d"));
      [done|done|apply main_solution_in_tree]. }
  assert (Hdrv : FileSystemSearch.iterative_deepening_search sys_maxsize 20 problem =
                 Some (Returned failure)).
  { unfold FileSystemSearch.iterative_deepening_search.
    apply (for_limits_more_limits _ 9); [vm_compute; reflexivity|].
    pose proof sys_maxsize_large. lia. }
  split; [exact Hy|]. split; [exact Hdrv|].
  exact (file_system_failure_is_sound problem sys_maxsize 20 main_solution Hy Hdrv).
Defined.

(** X23: [cutoff] from a pass of file_system_search.py tells the truth.
    When a pass returns [cutoff], no node of the search tree down to depth
    [limit] is a goal, and the search tree has a node at depth [limit],
    no goal, below which the pass has not looked. *)
Theorem file_system_cutoff_is_sound {State Action : Type}
    (problem : Problem State Action) (fuel limit : nat)
    (y : Node State Action) :
  in_search_tree problem y → len y ≤ limit →
  FileSystemSearch.depth_limited_search fuel problem limit = Some cutoff →
  is_goal problem (state y) = false ∧
  ∃ z, in_search_tree problem z ∧ len z = limit ∧
       is_goal problem (state z) = false.
Proof.
  intros Hy Hlen Hrun. split; [|by eapply file_cutoff_has_cause].
  pose proof (file_pass_is_pass_result _ _ _ _ Hrun) as Hres. symmetry in Hres.
  by destruct (pass_result_sentinel problem limit y Hy) as [Hcut _]; apply Hcut.
Qed.

Lemma file_system_cutoff_is_sound_witness :
  let problem :=
    FileSystemSearch.FileSearchProblem FileSystemSearch.main_root "file_d" in
  let root : Node FileSystemSearch.TreeNode FileSystemSearch.TreeNode :=
    mkNode (initial problem) None None 0 in
  in_search_tree problem root ∧ len root ≤ 2 ∧
  FileSystemSearch.depth_limited_search 20 problem 2 = Some cutoff ∧
  is_goal problem (state root) = false ∧
  ∃ z, in_search_tree problem z ∧ len z = 2 ∧ is_goal problem (state z) = false.
Proof.
  intros problem root.
  assert (Hy : in_search_tree problem root) by constructor.
  assert (Hlen : len root ≤ 2) by (simpl; lia).
  assert (Hrun : FileSystemSearch.depth_limited_search 20 problem 2 = Some cutoff)
    by (vm_compute; reflexivity).
  split; [exact Hy|]. split; [exact Hlen|]. split; [exact Hrun|].
  exact (file_system_cutoff_is_sound problem 20 2 root Hy Hlen Hrun).
Defined.

(** X5: iterative deepening finds a shallowest goal.  When the search tree
    of the problem has a goal, [x] is one of least depth, and that depth is
    below the nested calls of [Node.__len__] allowed, the driver of
    file_system_search.py returns a goal node of the depth of [x], from the
    pass whose limit is that depth (1 for a goal at the root); all the
    passes before it are cut off.  This holds on infinite spaces too.  The
    range of limits must reach the depth of [x]. *)
Theorem file_system_driver_finds_shallowest_goal {State Action : Type}
    (problem : Problem State Action) (frames maxsize : nat)
    (x : Node State Action) :
  in_search_tree problem x → is_goal problem (state x) = true →
  (∀ y, in_search_tree problem y → is_goal problem (state y) = true →
        len x ≤ len y) →
  len x `max` 1 < frames →
  len x `max` 1 < maxsize →
  ∃ fuel0, ∀ fuel, fuel0 ≤ fuel →
    ∃ n,
      LimitedFileSystemSearch.iterative_deepening_search frames maxsize fuel
        problem = Some (Done (Returned (Found n))) ∧
      LimitedFileSystemSearch.depth_limited_search frames fuel problem
        (len x `max` 1) = Some (Done (Found n)) ∧
      (∀ limit, 1 ≤ limit < len x →
         LimitedFileSystemSearch.depth_limited_search frames fuel problem limit =
         Some (Done cutoff)) ∧
      is_goal problem (state n) = true ∧ in_search_tree problem n ∧
      len n = len x.
Proof.
  intros Hx Hgoal Hmin Hroom Hmax.
  destruct (file_driver_shallowest problem maxsize x Hx Hgoal Hmin Hmax) as [F HF].
  exists F. intros fuel Hfuel.
  destruct (HF fuel Hfuel) as (n & _ & Hpass & Hbefore & Hg & Hn & Hlen).
  assert (Hpass' : LimitedFileSystemSearch.depth_limited_search frames fuel problem
                     (len x `max` 1) = Some (Done (Found n))).
  { rewrite file_pass_within_limit by done. by rewrite Hpass. }
  assert (Hbefore' : ∀ limit, 1 ≤ limit < len x →
            LimitedFileSystemSearch.depth_limited_search frames fuel problem limit =
            Some (Done cutoff)).
  { intros limit Hl. rewrite file_pass_within_limit by lia.
    by rewrite (Hbefore limit Hl). }
  exists n. split; [|done].
  apply (for_limits_within_first _ _ _ (len x `max` 1 - 1)); [lia| | |done].
  - intros i Hi. apply Hbefore'. lia.
  - by replace (1 + (len x `max` 1 - 1)) with (len x `max` 1) by lia.
Qed.

Lemma file_system_driver_finds_shallowest_goal_witness :
  let problem :=
    FileSystemSearch.FileSearchProblem FileSystemSearch.main_root "file_d" in
  in_search_tree problem main_solution ∧
  is_goal problem (state main_solution) = true ∧
  (∀ y, in_search_tree problem y → is_goal problem (state y) = true →
        len main_solution ≤ len y) ∧
  len main_solution `max` 1 < default_frames ∧
  len main_solution `max` 1 < sys_maxsize ∧
  ∃ fuel0, ∀ fuel, fuel0 ≤ fuel →
    ∃ n,
      LimitedFileSystemSearch.iterative_deepening_search default_frames sys_maxsize
        fuel problem = Some (Done (Returned (Found n))) ∧
      LimitedFileSystemSearch.depth_limited_search default_frames fuel problem
        (len main_solution `max` 1) = Some (Done (Found n)) ∧
      (∀ limit, 1 ≤ limit < len main_solution →
         LimitedFileSystemSearch.depth_limited_search default_frames fuel problem
           limit = Some (Done cutoff)) ∧
      is_goal problem (state n) = true ∧ in_search_tree problem n ∧
      len n = len main_solution.
Proof.
  intros problem.
  assert (Hroom : len main_solution `max` 1 < default_frames)
    by (vm_compute; lia).
  assert (Hmax : len main_solution `max` 1 < sys_maxsize).
  { pose proof sys_maxsize_large. simpl. lia. }
  split; [exact main_solution_in_tree|]. split; [reflexivity|].
  split; [exact main_goal_not_above_three|]. split; [exact Hroom|].
  split; [exact Hmax|].
  exact (file_system_driver_finds_shallowest_goal problem default_frames sys_maxsize
           main_solution main_solution_in_tree eq_refl main_goal_not_above_three
           Hroom Hmax).
Defined.

(** ** main of file_system_search.py under the recursion limit *)

Lemma path_states_within {Action : Type} frames
    (node : Node FileSystemSearch.TreeNode Action) :
  len node < frames →
  LimitedFileSystemSearch.path_states frames node =
  Done (FileSystemSearch.path_states node).
Proof.
  revert node. induction frames as [|frames IH]; intros node Hlen; [lia|].
  destruct node as [s [p|] a c]; cbn [LimitedFileSystemSearch.path_states
    FileSystemSearch.path_states parent state len] in *; [|done].
  by rewrite IH by lia.
Qed.

(** X14: main of file_system_search.py, on any tree whose height is below
    the nested calls that the interpreter allows to [Node.__len__] in a
    pass and to path_states in main, and for any name.  When no node of
    the tree carries the name it prints False.  Otherwise it prints the
    names along a way down the tree from the root to a node that carries
    the name, joined by [" -> "], and no way from the root to a node of
    that name is shorter.  The range of limits must reach past the height
    of the tree: [height root + 2 ≤ sys.maxsize]. *)
Theorem file_system_main_prints_shortest_route
    (frames route_frames maxsize : nat) (root : FileSystemSearch.TreeNode)
    (goal : string) :
  FileTree.height root < frames →
  FileTree.height root < route_frames →
  FileTree.height root + 2 ≤ maxsize →
  ∃ fuel0 out,
    (∀ fuel, fuel0 ≤ fuel →
       LimitedFileSystemSearch.main_on frames route_frames maxsize fuel root goal =
       Some (Done out)) ∧
    ((out = "False" ∧
      ∀ l u, FileTree.route_to root l u → FileSystemSearch.value u ≠ goal) ∨
     (∃ l u, out = String.concat " -> " l ∧
             FileTree.route_to root l u ∧ FileSystemSearch.value u = goal ∧
             ∀ l' u', FileTree.route_to root l' u' →
                      FileSystemSearch.value u' = goal →
                      length l ≤ length l')).
Proof.
  intros Hroom Hroute Hmax.
  set (problem := FileSystemSearch.FileSearchProblem root goal).
  assert (HD : chains_bounded problem (FileTree.height root) (initial problem))
    by apply file_tree_bounded.
  destruct (file_driver_finite problem maxsize (FileTree.height root) HD Hmax)
    as (F & r & Hrun & Hr).
  assert (Hnode : ∀ l u, FileTree.route_to root l u →
            ∃ y, in_search_tree problem y ∧ state y = u ∧
                 FileSystemSearch.path_states y = l).
  { intros l u Hway.
    destruct (route_in_search_tree root goal root l u Hway
                (mkNode root None None 0)) as (y & Hy & Hst & Hpath);
      [constructor|done|]. by exists y. }
  assert (Hmain : ∀ fuel, F ≤ fuel →
            LimitedFileSystemSearch.main_on frames route_frames maxsize fuel root goal =
            Some (LimitedFileSystemSearch.printed route_frames (Returned r))).
  { intros fuel Hfuel. unfold LimitedFileSystemSearch.main_on. cbv zeta.
    fold problem.
    rewrite (file_driver_within_finite problem frames maxsize (FileTree.height root))
      by done.
    by rewrite Hrun. }
  destruct r as [x| |]; [| |done].
  - destruct Hr as (Hx & Hg & Hmin).
    pose proof (in_search_tree_bounded problem _ x HD Hx) as Hdepth.
    exists F, (String.concat " -> " (FileSystemSearch.path_states x)). split.
    { intros fuel Hfuel. rewrite Hmain by done.
      cbn [LimitedFileSystemSearch.printed ElementSearchMain.is_None
           ElementSearchMain.is_failure ElementSearchMain.is_cutoff orb].
      by rewrite path_states_within by lia. }
    right. exists (FileSystemSearch.path_states x), (state x).
    split; [done|].
    destruct (in_search_tree_route root goal x Hx) as [Hway Hlen].
    split; [done|]. split; [by apply String.eqb_eq|].
    intros l' u' Hway' Hgoal'.
    destruct (Hnode l' u' Hway') as (y & Hy & Hst & <-).
    destruct (in_search_tree_route root goal y Hy) as [_ Hlen'].
    rewrite Hlen, Hlen'. apply le_n_S, Hmin; [done|].
    simpl. rewrite Hst. by apply String.eqb_eq.
  - exists F, "False". split.
    { intros fuel Hfuel. by rewrite Hmain. }
    left. split; [done|]. intros l u Hway Hgoal.
    destruct (Hnode l u Hway) as (y & Hy & Hst & _).
    specialize (Hr y Hy). simpl in Hr. rewrite Hst in Hr.
    apply String.eqb_neq in Hr. done.
Qed.

Lemma file_system_main_prints_shortest_route_witness :
  FileTree.height FileSystemSearch.main_root < default_frames ∧
  FileTree.height FileSystemSearch.main_root < default_frames + 2 ∧
  FileTree.height FileSystemSearch.main_root + 2 ≤ sys_maxsize ∧
  ∃ fuel0 out,
    (∀ fuel, fuel0 ≤ fuel →
       LimitedFileSystemSearch.main_on default_frames (default_frames + 2)
         sys_maxsize fuel FileSystemSearch.main_root "file_d" = Some (Done out)) ∧
    ((out = "False" ∧
      ∀ l u, FileTree.route_to FileSystemSearch.main_root l u →
             FileSystemSearch.value u ≠ "file_d") ∨
     (∃ l u, out = String.concat " -> " l ∧
             FileTree.route_to FileSystemSearch.main_root l u ∧
             FileSystemSearch.value u = "file_d" ∧
             ∀ l' u', FileTree.route_to FileSystemSearch.main_root l' u' →
                      FileSystemSearch.value u' = "file_d" →
                      length l ≤ length l')).
Proof.
  assert (H1 : FileTree.height FileSystemSearch.main_root < default_frames)
    by (vm_compute; lia).
  assert (H2 : FileTree.height FileSystemSearch.main_root < default_frames + 2)
    by (vm_compute; lia).
  assert (H3 : FileTree.height FileSystemSearch.main_root + 2 ≤ sys_maxsize).
  { pose proof sys_maxsize_large. simpl. lia. }
  split; [exact H1|]. split; [exact H2|]. split; [exact H3|].
  exact (file_system_main_prints_shortest_route default_frames (default_frames + 2)
           sys_maxsize FileSystemSearch.main_root "file_d" H1 H2 H3).
Defined.

(** ** rights_search.py under the recursion limit *)

Section RightsWithin.
Context {Action : Type}.
Variable problem : Problem RightsSearch.FSNode Action.
Variable frames limit : nat.

Lemma rights_body_within (fr : LIFOQueue RightsSearch.FSNode Action) res found :
  (∀ node rest, fr = node :: rest → len node < frames) →
  LimitedRightsSearch.dls_body problem frames limit (fr, res, found) =
  unraised (RightsSearch.dls_body problem limit (fr, res, found)).
Proof.
  intros Hsafe. destruct fr as [|node rest]; [done|].
  cbn [LimitedRightsSearch.dls_body RightsSearch.dls_body].
  rewrite (len_within_Done frames node (Hsafe node rest eq_refl)). cbv zeta.
  destruct ((3 <=? len node) && is_goal problem (state node)); cbn [andb].
  - by destruct (10 <=? _), (limit <=? len node).
  - by destruct (limit <=? len node).
Qed.

Lemma rights_body_refines st :
  LimitedRightsSearch.dls_body problem frames limit st =
    unraised (RightsSearch.dls_body problem limit st) ∨
  LimitedRightsSearch.dls_body problem frames limit st = inr RecursionError.
Proof.
  destruct st as [[[|node rest] res] found]; [by left|].
  destruct (decide (len node < frames)) as [Hlt|Hge].
  - left. apply rights_body_within. by intros ? ? [= <- <-].
  - right. cbn [LimitedRightsSearch.dls_body].
    by rewrite len_within_raises by lia.
Qed.

(** What a turn of the loop does to the frontier. *)
Lemma rights_body_step node rest res found st' :
  RightsSearch.dls_body problem limit (node :: rest, res, found) = inl st' →
  (st'.1.1 = rest ∧ limit ≤ len node) ∨
  (st'.1.1 = append_all (expand problem node) rest ∧ len node < limit).
Proof.
  cbn [RightsSearch.dls_body]. cbv zeta.
  destruct (_ && (10 <=? _)); [done|].
  destruct (Nat.leb_spec limit (len node)); intros [= <-]; [by left|by right].
Qed.

Lemma rights_frontier_within_limit found k st :
  iterate (RightsSearch.dls_body problem limit) k
    ([mkNode (initial problem) None None 0], failure, found) = inl st →
  ∀ n, n ∈ st.1.1 → len n ≤ limit.
Proof.
  refine (iterate_invariant (RightsSearch.dls_body problem limit)
    (λ st, ∀ n, n ∈ st.1.1 → len n ≤ limit) _ k _ st _).
  - intros [[[|node rest] res] acc] st' Hfr; [done|]. intros Hstep n Hn.
    simpl in Hfr.
    apply rights_body_step in Hstep as [[Heq _]|[Heq Hlt]]; rewrite Heq in Hn.
    + apply Hfr, elem_of_cons. by right.
    + rewrite append_all_rev in Hn. apply elem_of_app in Hn as [Hn|Hn].
      * rewrite elem_of_reverse in Hn. rewrite (expand_len _ _ _ Hn). lia.
      * apply Hfr, elem_of_cons. by right.
  - simpl. intros n Hn. apply list_elem_of_singleton in Hn as ->. simpl. lia.
Qed.

Lemma rights_frontier_bounded D found k st :
  chains_bounded problem D (initial problem) →
  iterate (RightsSearch.dls_body problem limit) k
    ([mkNode (initial problem) None None 0], failure, found) = inl st →
  ∀ n, n ∈ st.1.1 → len n ≤ D.
Proof.
  intros HD Hit.
  assert (Hinv : ∀ n, n ∈ st.1.1 →
            ∃ e, chains_bounded problem e (state n) ∧ len n + e ≤ D).
  { refine (iterate_invariant (RightsSearch.dls_body problem limit)
      (λ st, ∀ n, n ∈ st.1.1 →
               ∃ e, chains_bounded problem e (state n) ∧ len n + e ≤ D)
      _ k _ st _ Hit).
    - intros [[[|node rest] res] acc] st' Hfr; [done|]. intros Hstep.
      simpl in Hfr.
      apply (bounded_frontier_step problem D node rest); [done|].
      apply rights_body_step in Hstep as [[Heq _]|[Heq _]]; auto.
    - by apply bounded_frontier_root. }
  intros n Hn. destruct (Hinv n Hn) as (e & _ & Hlen). lia.
Qed.

Lemma rights_pass_within_limit fuel found :
  limit < frames →
  LimitedRightsSearch.depth_limited_search frames fuel problem limit found =
  Done <$> RightsSearch.depth_limited_search fuel problem limit found.
Proof.
  intros Hlt. apply while_within_agrees. intros k [[fr res] acc] Hit.
  apply rights_body_within. intros node rest ->.
  pose proof (rights_frontier_within_limit _ k _ Hit node) as Hn.
  specialize (Hn ltac:(simpl; apply elem_of_cons; by left)). lia.
Qed.

Lemma rights_pass_within_finite D fuel found :
  chains_bounded problem D (initial problem) → D < frames →
  LimitedRightsSearch.depth_limited_search frames fuel problem limit found =
  Done <$> RightsSearch.depth_limited_search fuel problem limit found.
Proof.
  intros HD Hlt. apply while_within_agrees. intros k [[fr res] acc] Hit.
  apply rights_body_within. intros node rest ->.
  pose proof (rights_frontier_bounded D _ k _ HD Hit node) as Hn.
  specialize (Hn ltac:(simpl; apply elem_of_cons; by left)). lia.
Qed.

Lemma rights_pass_within_refines fuel found out :
  LimitedRightsSearch.depth_limited_search frames fuel problem limit found =
    Some (Done out) →
  RightsSearch.depth_limited_search fuel problem limit found = Some out.
Proof. apply while_within_refines, rights_body_refines. Qed.
End RightsWithin.

Section RightsDriverWithin.
Context {Action : Type}.
Variable problem : Problem RightsSearch.FSNode Action.
Variable frames : nat.

Lemma rights_driver_within_finite D fuel count :
  chains_bounded problem D (initial problem) → D < frames →
  ∀ limit found,
    LimitedRightsSearch.ids_for frames fuel problem count limit found =
    Done <$> RightsSearch.ids_for fuel problem count limit found.
Proof.
  intros HD Hlt. induction count as [|count IH]; intros limit found; [done|].
  cbn [LimitedRightsSearch.ids_for RightsSearch.ids_for].
  rewrite (rights_pass_within_finite problem frames limit D) by done.
  destruct (RightsSearch.depth_limited_search fuel problem limit (Some found))
    as [[res found']|]; [|done].
  cbn [fmap option_fmap option_map].
  destruct (10 <=? length found'); [done|].
  destruct (is_cutoff res); [apply IH|done].
Qed.

Lemma rights_driver_within_refines fuel count :
  ∀ limit found out,
    LimitedRightsSearch.ids_for frames fuel problem count limit found =
      Some (Done out) →
    RightsSearch.ids_for fuel problem count limit found = Some out.
Proof.
  induction count as [|count IH]; intros limit found out;
    cbn [LimitedRightsSearch.ids_for RightsSearch.ids_for]; [congruence|].
  destruct (LimitedRightsSearch.depth_limited_search frames fuel problem limit
              (Some found)) as [[[res found']|]|] eqn:Hpass; [|done|done].
  apply rights_pass_within_refines in Hpass. rewrite Hpass.
  destruct (10 <=? length found'); [congruence|].
  destruct (is_cutoff res); [apply IH|congruence].
Qed.
End RightsDriverWithin.

(** X16: what a pass of rights_search.py does to found_files, when its
    limit is below the nested calls of [Node.__len__] allowed.  It ends,
    and it has appended the paths of the nodes that are goals at depth 3
    or more, down to depth [limit], in the order in which it meets them,
    up to the one that brings the list to ten entries (with ten or more
    at the start: up to the first one).  It returns a node exactly when it
    stopped at such an entry, and a sentinel otherwise. *)
Theorem rights_pass_appends_matches_in_order {Action : Type}
    (problem : Problem RightsSearch.FSNode Action) (frames limit : nat)
    (found : list string) :
  limit < frames →
  ∃ fuel0, ∀ fuel, fuel0 ≤ fuel →
    ∃ r,
      LimitedRightsSearch.depth_limited_search frames fuel problem limit
        (Some found) =
        Some (Done (r, found ++
                       take ((10 - length found) `max` 1)
                         (paths_below problem limit
                            (mkNode (initial problem) None None 0)))) ∧
      ((∃ n, r = Found n) ↔
       (10 - length found) `max` 1 ≤
       length (paths_below problem limit (mkNode (initial problem) None None 0))).
Proof.
  intros Hroom.
  destruct (rights_pass_total problem limit found) as [F HF].
  exists F. intros fuel Hfuel.
  destruct (rights_pass_exact problem limit found) as [Hfound Hret].
  destruct (rights_pass_result problem limit found) as [r found'] eqn:Hres.
  simpl in Hfound, Hret. exists r.
  rewrite rights_pass_within_limit by done. rewrite HF by done.
  by subst found'.
Qed.

Lemma rights_pass_appends_matches_in_order_witness :
  3 < default_frames ∧
  ∃ fuel0, ∀ fuel, fuel0 ≤ fuel →
    ∃ r,
      LimitedRightsSearch.depth_limited_search default_frames fuel desktop_problem 3
        (Some []) =
        Some (Done (r, [] ++
                       take ((10 - length (@nil string)) `max` 1)
                         (paths_below desktop_problem 3
                            (mkNode (initial desktop_problem) None None 0)))) ∧
      ((∃ n, r = Found n) ↔
       (10 - length (@nil string)) `max` 1 ≤
       length (paths_below desktop_problem 3
                 (mkNode (initial desktop_problem) None None 0))).
Proof.
  assert (H : 3 < default_frames) by (vm_compute; lia).
  split; [exact H|].
  exact (rights_pass_appends_matches_in_order desktop_problem default_frames 3 [] H).
Defined.

(** X19: on a finite space of depth [D], less deep than the nested calls
    of [Node.__len__] allowed, the driver of rights_search.py, started as
    in main with limit 3 and an empty list, ends.  found_files then holds
    paths of goals met at depth 3 or more, ten at most; exactly ten when
    the space has ten such nodes or more; and, when it has between one and
    nine, more entries than there are such nodes.  The range of limits
    must reach past the depth of the space. *)
Theorem rights_search_ends_on_finite_space {Action : Type}
    (problem : Problem RightsSearch.FSNode Action) (frames maxsize D : nat) :
  chains_bounded problem D (initial problem) → D < frames →
  D + 2 ≤ maxsize → 4 ≤ maxsize →
  ∃ fuel0, ∀ fuel, fuel0 ≤ fuel →
    ∃ out,
      LimitedRightsSearch.iterative_deepening_search frames maxsize fuel problem 3 [] =
        Some (Done out) ∧
      Forall (recorded_match problem) out ∧
      length out ≤ 10 ∧
      (10 ≤ length (matching_nodes problem D) → length out = 10) ∧
      (1 ≤ length (matching_nodes problem D) < 10 →
       length (matching_nodes problem D) < length out).
Proof.
  intros HD Hroom Hmax Hmax'.
  destruct (rights_driver_on_finite_space problem maxsize D HD Hmax Hmax')
    as [F HF].
  exists F. intros fuel Hfuel. destruct (HF fuel Hfuel) as (out & Hrun & Hout).
  exists out. split; [|done].
  unfold LimitedRightsSearch.iterative_deepening_search.
  rewrite (rights_driver_within_finite problem frames D) by done.
  unfold RightsSearch.iterative_deepening_search in Hrun. by rewrite Hrun.
Qed.

Lemma rights_search_ends_on_finite_space_witness :
  chains_bounded desktop_problem 3 (initial desktop_problem) ∧
  3 < default_frames ∧ 3 + 2 ≤ sys_maxsize ∧ 4 ≤ sys_maxsize ∧
  ∃ fuel0, ∀ fuel, fuel0 ≤ fuel →
    ∃ out,
      LimitedRightsSearch.iterative_deepening_search default_frames sys_maxsize fuel
        desktop_problem 3 [] = Some (Done out) ∧
      Forall (recorded_match desktop_problem) out ∧
      length out ≤ 10 ∧
      (10 ≤ length (matching_nodes desktop_problem 3) → length out = 10) ∧
      (1 ≤ length (matching_nodes desktop_problem 3) < 10 →
       length (matching_nodes desktop_problem 3) < length out).
Proof.
  assert (H0 : 3 < default_frames) by (vm_compute; lia).
  assert (H1 : 3 + 2 ≤ sys_maxsize) by (pose proof sys_maxsize_large; lia).
  assert (H2 : 4 ≤ sys_maxsize) by (pose proof sys_maxsize_large; lia).
  split; [exact desktop_three_deep|]. split; [exact H0|]. split; [exact H1|].
  split; [exact H2|].
  exact (rights_search_ends_on_finite_space desktop_problem default_frames
           sys_maxsize 3 desktop_three_deep H0 H1 H2).
Defined.

(** X20: whenever main of rights_search.py gets to print, on any file
    system and from any folder, it prints the single line that nothing was
    found, or the heading and after it between one and ten paths, each the
    path of a regular file of st_mode 33206 reached from the folder through
    the listings of three directories or more. *)
Theorem rights_main_prints_at_most_ten_files
    (os : RightsSearch.OS) (root_path : string) (frames maxsize fuel : nat)
    (lines : list string) :
  LimitedRightsSearch.main_on os root_path frames maxsize fuel = Some (Done lines) →
  lines = ["Ничего не найдено."] ∨
  ∃ files, lines = "Найденные файлы (не более 10):" :: files ∧
    1 ≤ length files ≤ 10 ∧
    ∀ s, s ∈ files →
      RightsSearch.isfile os s = true ∧
      RightsSearch.st_mode os s = Some 33206%Z ∧
      ∃ n, 3 ≤ n ∧ listed os n root_path s.
Proof.
  unfold LimitedRightsSearch.main_on. cbv zeta. intros Hrun.
  destruct (LimitedRightsSearch.iterative_deepening_search frames maxsize fuel _ 3 [])
    as [[out|]|] eqn:Hdrv; [|done|done].
  injection Hrun as <-.
  apply rights_driver_within_refines in Hdrv.
  apply windows_driver_sound in Hdrv as (new & Hout & Hlen & Hnew).
  simpl in Hout, Hlen. subst new.
  destruct out as [|f out]; [by left|]. right.
  exists (f :: out). split; [done|]. split; [|done].
  specialize (Hlen ltac:(lia)). simpl in *. lia.
Qed.

Lemma rights_main_prints_at_most_ten_files_witness :
  LimitedRightsSearch.main_on desktop_os desktop default_frames 10 20 =
    Some (Done ["Найденные файлы (не более 10):"; desktop_a_b_f; desktop_a_b_f]) ∧
  (["Найденные файлы (не более 10):"; desktop_a_b_f; desktop_a_b_f] =
     ["Ничего не найдено."] ∨
   ∃ files,
     ["Найденные файлы (не более 10):"; desktop_a_b_f; desktop_a_b_f] =
       "Найденные файлы (не более 10):" :: files ∧
     1 ≤ length files ≤ 10 ∧
     ∀ s, s ∈ files →
       RightsSearch.isfile desktop_os s = true ∧
       RightsSearch.st_mode desktop_os s = Some 33206%Z ∧
       ∃ n, 3 ≤ n ∧ listed desktop_os n desktop s).
Proof.
  assert (H : LimitedRightsSearch.main_on desktop_os desktop default_frames 10 20 =
              Some (Done ["Найденные файлы (не более 10):"; desktop_a_b_f;
                          desktop_a_b_f]))
    by (vm_compute; reflexivity).
  split; [exact H|].
  exact (rights_main_prints_at_most_ten_files desktop_os desktop default_frames 10 20
           _ H).
Defined.
